(** * modal-examples: the tidbyt poem service and the CUDA probe

    A shallow embedding of

    - [10_integrations/tidbyt/tidbyt.py]: [get_ymdh], [poem], [write_poem];
    - [02_building_containers/cuda/use_cuda.py]: [nvidia_smi];

    together with the fragments of the Python standard library they call
    ([str] methods, [datetime], [json], the UTF-8 codec, [pathlib]).

    Conventions.  A Python [str] is the list of its code points, [bytes]
    is a list of [byte].  A function that can raise returns a [result];
    code with effects on the mounted volume or on standard output is a
    function [world -> world * result _].  What the hosting platform and
    the network supply (the clock, the HTTP response, the output of a
    subprocess) is an argument. *)

From Stdlib Require Import ZArith NArith List String Ascii Lia Bool.
From Stdlib.Strings Require Import Byte.
From stdpp Require Import base list gmap strings.
Import ListNotations.

Open Scope Z_scope.

(** ** Python values *)

(** A [str] is a sequence of code points. *)
Definition str := list N.

Definition bytes := list byte.

(** An ASCII literal of the source, as a [str]. *)
Definition lit (s : string) : str :=
  map N_of_ascii (list_ascii_of_string s).

(** The same literal, as [bytes]. *)
Definition blit (s : string) : bytes := list_byte_of_string s.

Definition str_eqb (a b : str) : bool := bool_decide (a = b).

(** [ord] of the characters the code names. *)
Definition LF : N := 10.
Definition CR : N := 13.
Definition SPACE : N := 32.
Definition QUOTE : N := 34.
Definition APOSTROPHE : N := 39.
Definition PERCENT : N := 37.
Definition DOT : N := 46.
Definition SLASH : N := 47.
Definition BACKSLASH : N := 92.

(** ** Exceptions *)

Inductive exn_class :=
  | BaseException | Exception
  | AssertionError | AttributeError | KeyError | TypeError
  | ArithmeticError | OverflowError
  | RuntimeError | RecursionError
  | ValueError | UnicodeError | UnicodeDecodeError | UnicodeEncodeError
  | JSONDecodeError
  | OSError | FileNotFoundError | FileExistsError
  | IsADirectoryError | NotADirectoryError
  | ParseError.

Global Instance exn_class_eq_dec : EqDecision exn_class.
Proof. solve_decision. Defined.

(** The base class of each exception class ([__bases__]); [ParseError] is
    [xml.etree.ElementTree.ParseError], a [SyntaxError]. *)
Definition base_class (c : exn_class) : option exn_class :=
  match c with
  | BaseException => None
  | Exception => Some BaseException
  | AssertionError | AttributeError | TypeError | ArithmeticError
  | RuntimeError | ValueError | OSError | ParseError => Some Exception
  | KeyError => Some Exception
  | RecursionError => Some RuntimeError
  | OverflowError => Some ArithmeticError
  | UnicodeError => Some ValueError
  | UnicodeDecodeError | UnicodeEncodeError => Some UnicodeError
  | JSONDecodeError => Some ValueError
  | FileNotFoundError | FileExistsError
  | IsADirectoryError | NotADirectoryError => Some OSError
  end.

Fixpoint issubclass_fuel (fuel : nat) (c d : exn_class) : bool :=
  bool_decide (c = d) ||
  match fuel, base_class c with
  | S fuel', Some b => issubclass_fuel fuel' b d
  | _, _ => false
  end.

(** The class hierarchy above has depth five. *)
Definition issubclass : exn_class -> exn_class -> bool := issubclass_fuel 5.

(** An exception object: its class and [str(e)]. *)
Record exn := mk_exn { exn_cls : exn_class; exn_str : str }.

Definition isinstance (e : exn) (c : exn_class) : bool :=
  issubclass (exn_cls e) c.

Inductive result (A : Type) : Type :=
  | Return (a : A)
  | Raise (e : exn).
Arguments Return {A} a.
Arguments Raise {A} e.

Global Instance result_ret : MRet result := fun A a => Return a.

Global Instance result_bind : MBind result := fun A B k r =>
  match r with
  | Return a => k a
  | Raise e => Raise e
  end.

(** ** [str] and [int] formatting *)

Module Str.

Definition ZERO : N := 48.

Definition isdigit (c : N) : bool := (48 <=? c)%N && (c <=? 57)%N.

(** [str.isspace] on one character: the code points whose bidirectional
    class is WS, B or S, or whose category is Zs. *)
Definition isspace (c : N) : bool :=
  ((9 <=? c) && (c <=? 13) || (28 <=? c) && (c <=? 32)
   || (c =? 133) || (c =? 160) || (c =? 5760)
   || (8192 <=? c) && (c <=? 8202)
   || (c =? 8232) || (c =? 8233) || (c =? 8239) || (c =? 8287)
   || (c =? 12288))%N.

(** Decimal digits of a natural number, most significant first. *)
Fixpoint digits_fuel (fuel : nat) (n : N) (acc : str) : str :=
  let acc' := (ZERO + n mod 10)%N :: acc in
  match fuel with
  | O => acc'
  | S fuel' => if (n / 10 =? 0)%N then acc' else digits_fuel fuel' (n / 10)%N acc'
  end.

Definition digits (n : N) : str := digits_fuel (N.to_nat (N.log2 n)) n [].

(** [str(n)] for an [int]. *)
Definition of_int (z : Z) : str :=
  if z <? 0 then lit "-" ++ digits (Z.to_N (- z)) else digits (Z.to_N z).

(** [s.zfill(width)] for a string of digits. *)
Definition zfill (width : nat) (s : str) : str :=
  repeat ZERO (width - length s) ++ s.

(** [sep.join(parts)]. *)
Fixpoint join (sep : str) (parts : list str) : str :=
  match parts with
  | [] => []
  | [p] => p
  | p :: ps => p ++ sep ++ join sep ps
  end.

(** [s.split(sep)] for a one-character separator: the pieces between
    the occurrences of [sep], empty pieces included. *)
Fixpoint split_on (sep : N) (s : str) : list str :=
  match s with
  | [] => [[]]
  | c :: s' =>
      if (c =? sep)%N then [] :: split_on sep s'
      else match split_on sep s' with
           | p :: ps => (c :: p) :: ps
           | [] => [[c]]
           end
  end.

(** [s.split()]: the maximal runs of non-space characters. *)
Fixpoint split_ws_from (cur : str) (s : str) : list str :=
  match s with
  | [] => match cur with [] => [] | _ => [rev cur] end
  | c :: s' =>
      if isspace c
      then match cur with
           | [] => split_ws_from [] s'
           | _ => rev cur :: split_ws_from [] s'
           end
      else split_ws_from (c :: cur) s'
  end.

Definition split_ws (s : str) : list str := split_ws_from [] s.

Fixpoint lstrip (s : str) : str :=
  match s with
  | c :: s' => if isspace c then lstrip s' else s
  | [] => []
  end.

Definition rstrip (s : str) : str := rev (lstrip (rev s)).

(** [s.strip()]. *)
Definition strip (s : str) : str := rstrip (lstrip s).

End Str.

(** ** [datetime]

    The proleptic Gregorian calendar of [datetime.py]: ordinals count days
    from 0001-01-01 = 1. *)

Module Datetime.

Definition MINYEAR : Z := 1.
Definition MAXYEAR : Z := 9999.
Definition _MAXORDINAL : Z := 3652059.

Definition _DAYS_IN_MONTH : list Z :=
  [-1; 31; 28; 31; 30; 31; 30; 31; 31; 30; 31; 30; 31].

Definition _DAYS_BEFORE_MONTH : list Z :=
  [-1; 0; 31; 59; 90; 120; 151; 181; 212; 243; 273; 304; 334].

(** [table[i]] for an index the callers keep in range. *)
Definition item (table : list Z) (i : Z) : Z := nth (Z.to_nat i) table 0.

Definition _is_leap (year : Z) : bool :=
  (year mod 4 =? 0) && (negb (year mod 100 =? 0) || (year mod 400 =? 0)).

Definition _days_before_year (year : Z) : Z :=
  let y := year - 1 in
  y * 365 + y / 4 - y / 100 + y / 400.

Definition _days_in_month (year month : Z) : Z :=
  if (month =? 2) && _is_leap year then 29 else item _DAYS_IN_MONTH month.

Definition _days_before_month (year month : Z) : Z :=
  item _DAYS_BEFORE_MONTH month + Z.b2z ((month >? 2) && _is_leap year).

Definition _ymd2ord (year month day : Z) : Z :=
  _days_before_year year + _days_before_month year month + day.

Definition _DI400Y : Z := _days_before_year 401.
Definition _DI100Y : Z := _days_before_year 101.
Definition _DI4Y : Z := _days_before_year 5.

Definition _ord2ymd (n : Z) : Z * Z * Z :=
  let n := n - 1 in
  let n400 := n / _DI400Y in
  let n := n mod _DI400Y in
  let year := n400 * 400 + 1 in
  let n100 := n / _DI100Y in
  let n := n mod _DI100Y in
  let n4 := n / _DI4Y in
  let n := n mod _DI4Y in
  let n1 := n / 365 in
  let n := n mod 365 in
  let year := year + n100 * 100 + n4 * 4 + n1 in
  if (n1 =? 4) || (n100 =? 4) then (year - 1, 12, 31)
  else
    let leapyear := (n1 =? 3) && (negb (n4 =? 24) || (n100 =? 3)) in
    let month := Z.shiftr (n + 50) 5 in
    let preceding :=
      item _DAYS_BEFORE_MONTH month + Z.b2z ((month >? 2) && leapyear) in
    if preceding >? n then
      let month := month - 1 in
      let preceding :=
        preceding
        - (item _DAYS_IN_MONTH month + Z.b2z ((month =? 2) && leapyear)) in
      (year, month, n - preceding + 1)
    else (year, month, n - preceding + 1).

(** A normalised duration: [0 <= seconds < 86400] and
    [0 <= microseconds < 1000000]. *)
Record timedelta := mk_timedelta {
  days : Z;
  seconds : Z;
  microseconds : Z
}.

(** [timedelta(days, seconds, microseconds, minutes=, hours=)] on
    integers; the carries are those of [divmod]. *)
Definition timedelta_new (d s us mi h : Z) : timedelta :=
  let s := s + mi * 60 + h * 3600 in
  let s := s + us / 1000000 in
  let us := us mod 1000000 in
  let d := d + s / 86400 in
  let s := s mod 86400 in
  {| days := d; seconds := s; microseconds := us |}.

Definition timedelta_add (a b : timedelta) : timedelta :=
  timedelta_new (days a + days b) (seconds a + seconds b)
                (microseconds a + microseconds b) 0 0.

(** An aware [datetime]: the wall-clock fields.  The [tzinfo] attached
    by [datetime.now(tz)] is carried along unchanged by [+] and is not
    read by the directives [get_ymdh] formats, so it is left out. *)
Record datetime := mk_datetime {
  year : Z;
  month : Z;
  day : Z;
  hour : Z;
  minute : Z;
  second : Z;
  microsecond : Z
}.

Definition toordinal (dt : datetime) : Z :=
  _ymd2ord (year dt) (month dt) (day dt).

(** [datetime.__add__]: wall-clock arithmetic through the ordinal. *)
Definition add (dt : datetime) (other : timedelta) : result datetime :=
  let delta :=
    timedelta_add
      (timedelta_new (toordinal dt) (second dt) (microsecond dt)
                     (minute dt) (hour dt))
      other in
  let hour := seconds delta / 3600 in
  let rem := seconds delta mod 3600 in
  let minute := rem / 60 in
  let second := rem mod 60 in
  if (0 <? days delta) && (days delta <=? _MAXORDINAL) then
    let '(y, m, d) := _ord2ymd (days delta) in
    Return (mk_datetime y m d hour minute second (microseconds delta))
  else Raise (mk_exn OverflowError (lit "date value out of range")).

(** One conversion of [strftime].  [%Y] is the year in at least four
    digits and [%m], [%d], [%H], [%M], [%S] are two-digit fields, as in
    the table of the library reference; a character that is no
    directive of this table is copied. *)
Definition directive (c : N) (dt : datetime) : str :=
  if (c =? 89)%N then Str.zfill 4 (Str.of_int (year dt))
  else if (c =? 109)%N then Str.zfill 2 (Str.of_int (month dt))
  else if (c =? 100)%N then Str.zfill 2 (Str.of_int (day dt))
  else if (c =? 72)%N then Str.zfill 2 (Str.of_int (hour dt))
  else if (c =? 77)%N then Str.zfill 2 (Str.of_int (minute dt))
  else if (c =? 83)%N then Str.zfill 2 (Str.of_int (second dt))
  else if (c =? PERCENT)%N then [PERCENT]
  else [PERCENT; c].

Fixpoint strftime_from (after_percent : bool) (fmt : str) (dt : datetime)
  : str :=
  match fmt with
  | [] => if after_percent then [PERCENT] else []
  | c :: fmt' =>
      if after_percent then directive c dt ++ strftime_from false fmt' dt
      else if (c =? PERCENT)%N then strftime_from true fmt' dt
      else c :: strftime_from false fmt' dt
  end.

Definition strftime (dt : datetime) (fmt : str) : str :=
  strftime_from false fmt dt.

(** The invariant of a [datetime] object. *)
Definition valid (dt : datetime) : Prop :=
  MINYEAR <= year dt <= MAXYEAR /\
  1 <= month dt <= 12 /\
  1 <= day dt <= _days_in_month (year dt) (month dt) /\
  0 <= hour dt < 24 /\
  0 <= minute dt < 60 /\
  0 <= second dt < 60 /\
  0 <= microsecond dt < 1000000.

End Datetime.

(** ** [tidbyt.py]: [get_ymdh] *)

(** [get_ymdh(next_hour)], at the reading [now] that
    [datetime.datetime.now(eastern)] returns: the wall clock of
    America/New_York. *)
Definition get_ymdh (next_hour : bool) (now : Datetime.datetime)
  : result (str * str * str * str) :=
  t ← Datetime.add now
        (Datetime.timedelta_new 0 0 0 0 (Z.b2z next_hour));
  match Str.split_ws (Datetime.strftime t (lit "%Y %m %d %H")) with
  | [year; month; day; hour] => Return (year, month, day, hour)
  | _ :: _ :: _ :: _ :: _ :: _ =>
      Raise (mk_exn ValueError (lit "too many values to unpack (expected 4)"))
  | parts =>
      Raise (mk_exn ValueError
               (lit "not enough values to unpack (expected 4, got "
                ++ Str.of_int (Z.of_nat (length parts)) ++ lit ")"))
  end.


(** ** [pytz]: the zone America/New_York

    [eastern = pytz.timezone("America/New_York")].  The zone is read
    through [eastern.fromutc], which [datetime.datetime.now(eastern)]
    calls on the UTC reading of the system clock: it looks up the last
    transition at or before the reading and adds the offset in force
    from it on.  The transitions are those of the rule in force since
    2007, which is the rule of every transition the package holds from
    there on, the last one in 2037: clocks go forward at 07:00 UTC on the
    second Sunday of March and back at 06:00 UTC on the first Sunday of
    November.  Readings of UTC are [datetime] objects without zone. *)

Module Eastern.

Import Datetime.

(** [date(y, m, d).weekday()]: Monday is 0 and Sunday is 6. *)
Definition weekday (y m d : Z) : Z := (_ymd2ord y m d + 6) mod 7.

(** The day of the month of the [n]th Sunday of the month [m]. *)
Definition sunday (n y m : Z) : Z :=
  1 + (6 - weekday y m 1) mod 7 + 7 * (n - 1).

(** The hours from the start of the calendar to a reading. *)
Definition hours (t : datetime) : Z := toordinal t * 24 + hour t.

(** Whether daylight saving time is in force at the reading [utc]. *)
Definition dst (utc : datetime) : bool :=
  let y := year utc in
  (_ymd2ord y 3 (sunday 2 y 3) * 24 + 7 <=? hours utc)
  && (hours utc <? _ymd2ord y 11 (sunday 1 y 11) * 24 + 6).

(** The offset from UTC: EDT is four hours behind and EST five. *)
Definition utcoffset (utc : datetime) : timedelta :=
  timedelta_new 0 0 0 0 (if dst utc then -4 else -5).

(** [eastern.fromutc(utc)]: the reading of the wall clock. *)
Definition fromutc (utc : datetime) : result datetime :=
  add utc (utcoffset utc).

(** The years whose transitions follow the rule above. *)
Definition covers (utc : datetime) : Prop := 2007 <= year utc <= 2037.

End Eastern.


(** The instant one hour after [utc]. *)
Definition hour_after (utc : Datetime.datetime) : result Datetime.datetime :=
  Datetime.add utc (Datetime.timedelta_new 0 0 0 0 1).



(** The seconds from the start of the calendar to a reading. *)
Definition stamp (t : Datetime.datetime) : Z :=
  Datetime.toordinal t * 86400 + Datetime.hour t * 3600
  + Datetime.minute t * 60 + Datetime.second t.

(** ** More [str] methods *)

Module Lines.

(** The characters [str.splitlines] breaks a line at. *)
Definition is_linebreak (c : N) : bool :=
  ((10 <=? c) && (c <=? 13) || (28 <=? c) && (c <=? 30)
   || (c =? 133) || (c =? 8232) || (c =? 8233))%N.

(** [s.splitlines()]: [cur] holds, reversed, the line being read.  A
    carriage return followed by a line feed ends one line. *)
Fixpoint splitlines_from (cur : str) (s : str) : list str :=
  match s with
  | [] => match cur with [] => [] | _ => [rev cur] end
  | c :: s' =>
    if is_linebreak c then
      rev cur ::
      match s' with
      | c' :: s'' =>
        if (c =? CR)%N && (c' =? LF)%N then splitlines_from [] s''
        else splitlines_from [] s'
      | [] => []
      end
    else splitlines_from (c :: cur) s'
  end.

Definition splitlines (s : str) : list str := splitlines_from [] s.

(** The newlines of a text file read in text mode: [\r\n] and [\r]
    arrive as [\n]. *)
Fixpoint universal_newlines (s : str) : str :=
  match s with
  | [] => []
  | c :: s' =>
    if (c =? CR)%N then
      LF :: match s' with
            | c' :: s'' =>
              if (c' =? LF)%N then universal_newlines s''
              else universal_newlines s'
            | [] => []
            end
    else c :: universal_newlines s'
  end.

End Lines.

(** ** The civil calendar, in the words of the specification

    "requesting next hour advances exactly one hour, correctly rolling
    over day/month/year boundaries".  These definitions do not come from
    the code; the theorems compare [get_ymdh] with them. *)

Module Civil.

Definition leap_year (y : Z) : bool :=
  if y mod 400 =? 0 then true
  else if y mod 100 =? 0 then false
  else y mod 4 =? 0.

Definition month_length (y m : Z) : Z :=
  if m =? 2 then (if leap_year y then 29 else 28)
  else if (m =? 4) || (m =? 6) || (m =? 9) || (m =? 11) then 30
  else 31.

Definition next_day (y m d : Z) : Z * Z * Z :=
  if d <? month_length y m then (y, m, d + 1)
  else if m <? 12 then (y, m + 1, 1)
  else (y + 1, 1, 1).

Definition next_hour (y m d h : Z) : Z * Z * Z * Z :=
  if h <? 23 then (y, m, d, h + 1)
  else let '(y', m', d') := next_day y m d in (y', m', d', 0).

(** The decimal numeral of [n], padded with zeros to [width] digits. *)
Fixpoint numeral (width : nat) (n : Z) : str :=
  match width with
  | O => []
  | S w => numeral w (n / 10) ++ [N.add 48 (Z.to_N (n mod 10))]
  end.

(** The number a string of decimal digits denotes. *)
Definition value (s : str) : Z :=
  fold_left (fun acc c => acc * 10 + (Z.of_N c - 48)) s 0.

(** The four strings of a time bucket. *)
Definition bucket (b : Z * Z * Z * Z) : str * str * str * str :=
  let '(y, m, d, h) := b in
  (numeral 4 y, numeral 2 m, numeral 2 d, numeral 2 h).

End Civil.

(** Every instant but those of the last hour of [datetime.max]'s day has a
    next hour in the calendar. *)
Definition has_next_hour (now : Datetime.datetime) : Prop :=
  Datetime.year now < Datetime.MAXYEAR \/ Datetime.month now < 12 \/
  Datetime.day now < 31 \/ Datetime.hour now < 23.

(** 23:59:59 on 31 December 2023. *)
Definition new_years_eve : Datetime.datetime :=
  Datetime.mk_datetime 2023 12 31 23 59 59 0.

(** ** The UTF-8 codec

    [bytes.decode("utf-8")] and [str.encode("utf-8")] with the strict
    error handler, after the decoder of CPython: a lead byte announces a
    sequence of one to four bytes, overlong forms and surrogates are
    invalid; and the encoder with the handler [surrogateescape], which
    standard output has. *)

Module Utf8.

Definition hex_digit (n : N) : N :=
  if (n <? 10)%N then (48 + n)%N else (87 + n)%N.

(** [%02x]. *)
Definition hex2 (n : N) : str := [hex_digit (n / 16); hex_digit (n mod 16)].

(** [%04x]. *)
Definition hex4 (n : N) : str := hex2 (n / 256) ++ hex2 (n mod 256).

(** [str(e)] of a [UnicodeDecodeError] on the bytes [start, stop). *)
Definition decode_error (first : N) (start stop : Z) (reason : string) : exn :=
  mk_exn UnicodeDecodeError
    (if stop =? start + 1
     then lit "'utf-8' codec can't decode byte 0x" ++ hex2 first
          ++ lit " in position " ++ Str.of_int start ++ lit ": " ++ lit reason
     else lit "'utf-8' codec can't decode bytes in position "
          ++ Str.of_int start ++ lit "-" ++ Str.of_int (stop - 1)
          ++ lit ": " ++ lit reason).

Definition is_continuation (c : N) : bool := (128 <=? c)%N && (c <? 192)%N.

Definition invalid_start : string := "invalid start byte".
Definition invalid_continuation : string := "invalid continuation byte".
Definition unexpected_end : string := "unexpected end of data".

(** The second byte of a three-byte sequence: [E0] needs [A0..BF] (no
    overlong form), [ED] needs [80..9F] (no surrogate). *)
Definition second_of_3 (c0 c1 : N) : bool :=
  is_continuation c1
  && negb (if (c1 <? 160)%N then (c0 =? 224)%N else (c0 =? 237)%N).

(** The second byte of a four-byte sequence: [F0] needs [90..BF], [F4]
    needs [80..8F] (nothing above U+10FFFF). *)
Definition second_of_4 (c0 c1 : N) : bool :=
  is_continuation c1
  && negb (if (c1 <? 144)%N then (c0 =? 240)%N else (c0 =? 244)%N).

Definition cons_to (c : N) (r : result str) : result str :=
  s ← r; Return (c :: s).

(** Decoding of the bytes [bs], which start at offset [pos]. *)
Fixpoint decode_from (pos : Z) (bs : bytes) : result str :=
  match bs with
  | [] => Return []
  | b0 :: r0 =>
    let c0 := Byte.to_N b0 in
    if (c0 <? 128)%N then cons_to c0 (decode_from (pos + 1) r0)
    else if (c0 <? 194)%N then
      Raise (decode_error c0 pos (pos + 1) invalid_start)
    else if (c0 <? 224)%N then
      match r0 with
      | [] => Raise (decode_error c0 pos (pos + 1) unexpected_end)
      | b1 :: r1 =>
        let c1 := Byte.to_N b1 in
        if is_continuation c1
        then cons_to (N.shiftl c0 6 + c1 - 12416)%N
                     (decode_from (pos + 2) r1)
        else Raise (decode_error c0 pos (pos + 1) invalid_continuation)
      end
    else if (c0 <? 240)%N then
      match r0 with
      | [] => Raise (decode_error c0 pos (pos + 1) unexpected_end)
      | b1 :: r1 =>
        let c1 := Byte.to_N b1 in
        if negb (second_of_3 c0 c1)
        then Raise (decode_error c0 pos (pos + 1) invalid_continuation)
        else
          match r1 with
          | [] => Raise (decode_error c0 pos (pos + 2) unexpected_end)
          | b2 :: r2 =>
            let c2 := Byte.to_N b2 in
            if is_continuation c2
            then cons_to (N.shiftl c0 12 + N.shiftl c1 6 + c2 - 925824)%N
                         (decode_from (pos + 3) r2)
            else Raise (decode_error c0 pos (pos + 2) invalid_continuation)
          end
      end
    else if (c0 <? 245)%N then
      match r0 with
      | [] => Raise (decode_error c0 pos (pos + 1) unexpected_end)
      | b1 :: r1 =>
        let c1 := Byte.to_N b1 in
        if negb (second_of_4 c0 c1)
        then Raise (decode_error c0 pos (pos + 1) invalid_continuation)
        else
          match r1 with
          | [] => Raise (decode_error c0 pos (pos + 2) unexpected_end)
          | b2 :: r2 =>
            let c2 := Byte.to_N b2 in
            if negb (is_continuation c2)
            then Raise (decode_error c0 pos (pos + 2) invalid_continuation)
            else
              match r2 with
              | [] => Raise (decode_error c0 pos (pos + 3) unexpected_end)
              | b3 :: r3 =>
                let c3 := Byte.to_N b3 in
                if is_continuation c3
                then cons_to (N.shiftl c0 18 + N.shiftl c1 12
                              + N.shiftl c2 6 + c3 - 63447168)%N
                             (decode_from (pos + 4) r3)
                else Raise (decode_error c0 pos (pos + 3)
                              invalid_continuation)
              end
          end
      end
    else Raise (decode_error c0 pos (pos + 1) invalid_start)
  end.

(** [data.decode("utf-8")]. *)
Definition decode (data : bytes) : result str := decode_from 0 data.

Definition is_surrogate (c : N) : bool := (55296 <=? c)%N && (c <? 57344)%N.

(** The characters [str.encode("utf-8")] accepts; a [str] holds no value
    above U+10FFFF. *)
Definition encodable (c : N) : bool :=
  negb (is_surrogate c) && (c <? 1114112)%N.

Definition byte_of (n : N) : byte :=
  match Byte.of_N (n mod 256) with
  | Some b => b
  | None => x00
  end.

Definition encode_char (c : N) : bytes :=
  if (c <? 128)%N then [byte_of c]
  else if (c <? 2048)%N then
    [byte_of (192 + c / 64); byte_of (128 + c mod 64)]
  else if (c <? 65536)%N then
    [byte_of (224 + c / 4096); byte_of (128 + (c / 64) mod 64);
     byte_of (128 + c mod 64)]
  else
    [byte_of (240 + c / 262144); byte_of (128 + (c / 4096) mod 64);
     byte_of (128 + (c / 64) mod 64); byte_of (128 + c mod 64)].

(** The run of characters the encoder rejects together. *)
Fixpoint rejected_run (s : str) : Z :=
  match s with
  | c :: s' => if encodable c then 0 else 1 + rejected_run s'
  | [] => 0
  end.

Definition encode_error (c : N) (start run : Z) : exn :=
  mk_exn UnicodeEncodeError
    (if run =? 1
     then lit "'utf-8' codec can't encode character '" ++ [BACKSLASH]
          ++ lit "u" ++ hex4 c ++ lit "' in position " ++ Str.of_int start
          ++ lit ": surrogates not allowed"
     else lit "'utf-8' codec can't encode characters in position "
          ++ Str.of_int start ++ lit "-" ++ Str.of_int (start + run - 1)
          ++ lit ": surrogates not allowed").

Fixpoint encode_from (pos : Z) (s : str) : result bytes :=
  match s with
  | [] => Return []
  | c :: s' =>
    if encodable c
    then bs ← encode_from (pos + 1) s'; Return (encode_char c ++ bs)
    else Raise (encode_error c pos (rejected_run s))
  end.

(** [s.encode("utf-8")]. *)
Definition encode (s : str) : result bytes := encode_from 0 s.

(** The lone surrogates U+DC80 to U+DCFF, which the error handler
    [surrogateescape] turns into the bytes 0x80 to 0xFF. *)
Definition escaped (c : N) : bool := (56448 <=? c)%N && (c <=? 56575)%N.

(** The encoder with the error handler [surrogateescape]: of a run of
    surrogates the escaped ones are written, and the first other one is
    reported with what is left of the run. *)
Fixpoint encode_escaping_from (pos : Z) (s : str) : result bytes :=
  match s with
  | [] => Return []
  | c :: s' =>
    if encodable c
    then bs ← encode_escaping_from (pos + 1) s'; Return (encode_char c ++ bs)
    else if escaped c
    then bs ← encode_escaping_from (pos + 1) s'; Return (byte_of c :: bs)
    else Raise (encode_error c pos (rejected_run s))
  end.

(** [s.encode("utf-8", "surrogateescape")]. *)
Definition encode_escaping (s : str) : result bytes :=
  encode_escaping_from 0 s.

End Utf8.

(** ** [json.loads]

    The decoder of the [json] package on a [str] document, after its
    scanner: values, the position of the first error and the message of
    the [JSONDecodeError].  Nesting is limited by the recursion limit of
    the interpreter. *)

Module Json.

#[warnings="-register-all"]
Inductive value :=
  | JNone
  | JBool (b : bool)
  | JInt (z : Z)
  | JFloat (numeral : str)
  | JStr (s : str)
  | JList (items : list value)
  | JDict (items : list (str * value)).

(** [type(v).__name__]. *)
Definition type_name (v : value) : str :=
  match v with
  | JNone => lit "NoneType"
  | JBool _ => lit "bool"
  | JInt _ => lit "int"
  | JFloat _ => lit "float"
  | JStr _ => lit "str"
  | JList _ => lit "list"
  | JDict _ => lit "dict"
  end.

(** A failure of the scanner: an error message with the index it points
    at, or a nesting too deep, found on entering [what] (an object or an
    array). *)
Inductive failure :=
  | Error (msg : string) (pos : Z)
  | TooDeep (what : string).

Inductive scanned (A : Type) : Type :=
  | Scanned (a : A)
  | Failed (f : failure).
Arguments Scanned {A} a.
Arguments Failed {A} f.

#[export] Instance scanned_ret : MRet scanned := fun A a => Scanned a.

#[export] Instance scanned_bind : MBind scanned := fun A B k r =>
  match r with
  | Scanned a => k a
  | Failed f => Failed f
  end.

(** A position in the document: the index and the text from it on. *)
Definition cursor := (Z * str)%type.

Definition is_whitespace (c : N) : bool :=
  ((c =? 32) || (c =? 9) || (c =? 10) || (c =? 13))%N.

Fixpoint skip_whitespace_from (pos : Z) (s : str) : cursor :=
  match s with
  | c :: s' =>
    if is_whitespace c then skip_whitespace_from (pos + 1) s' else (pos, s)
  | [] => (pos, [])
  end.

Definition skip_whitespace (c : cursor) : cursor :=
  skip_whitespace_from (fst c) (snd c).

Fixpoint starts_with (prefix s : str) : bool :=
  match prefix, s with
  | [], _ => true
  | p :: prefix', c :: s' => (p =? c)%N && starts_with prefix' s'
  | _ :: _, [] => false
  end.

Definition advance (n : nat) (c : cursor) : cursor :=
  (fst c + Z.of_nat n, drop n (snd c)).

(** *** Strings *)

Definition hex_value (c : N) : option N :=
  if (48 <=? c)%N && (c <=? 57)%N then Some (c - 48)%N
  else if (97 <=? c)%N && (c <=? 102)%N then Some (c - 87)%N
  else if (65 <=? c)%N && (c <=? 70)%N then Some (c - 55)%N
  else None.

(** The four hexadecimal digits of a [\uXXXX] escape. *)
Definition hex4 (s : str) : option (N * str) :=
  match s with
  | h1 :: h2 :: h3 :: h4 :: s' =>
    d1 ← hex_value h1; d2 ← hex_value h2;
    d3 ← hex_value h3; d4 ← hex_value h4;
    Some (((d1 * 16 + d2) * 16 + d3) * 16 + d4, s')%N
  | _ => None
  end.

Definition simple_escape (c : N) : option N :=
  if (c =? QUOTE)%N then Some QUOTE
  else if (c =? BACKSLASH)%N then Some BACKSLASH
  else if (c =? SLASH)%N then Some SLASH
  else if (c =? 98)%N then Some 8%N
  else if (c =? 102)%N then Some 12%N
  else if (c =? 110)%N then Some LF
  else if (c =? 114)%N then Some CR
  else if (c =? 116)%N then Some 9%N
  else None.

Definition is_high_surrogate (c : N) : bool :=
  (55296 <=? c)%N && (c <=? 56319)%N.
Definition is_low_surrogate (c : N) : bool :=
  (56320 <=? c)%N && (c <=? 57343)%N.
Definition join_surrogates (hi lo : N) : N :=
  (65536 + ((hi - 55296) * 1024 + (lo - 56320)))%N.

Definition unterminated : string := "Unterminated string starting at".
Definition invalid_escape : string := "Invalid \escape".
Definition invalid_unicode_escape : string := "Invalid \uXXXX escape".
Definition invalid_control : string := "Invalid control character at".

Definition cons_char (c : N) (r : scanned (str * cursor))
  : scanned (str * cursor) :=
  '(s, cur) ← r; Scanned (c :: s, cur).

(** [scanstring]: the text after the opening quote at index [begin], with
    [fuel] at least its length.  An escape [\uXXXX] is read when a
    character follows its four digits, and a second one is looked for
    after a high surrogate when more than six characters follow. *)
Fixpoint scanstring (fuel : nat) (begin pos : Z) (s : str)
  : scanned (str * cursor) :=
  match fuel with
  | O => Failed (Error unterminated begin)
  | S fuel =>
    match s with
    | [] => Failed (Error unterminated begin)
    | c :: s1 =>
      if (c =? QUOTE)%N then Scanned ([], (pos + 1, s1))
      else if (c =? BACKSLASH)%N then
        match s1 with
        | [] => Failed (Error unterminated begin)
        | e :: s2 =>
          if (e =? 117)%N then
            if (length s2 <=? 4)%nat
            then Failed (Error invalid_unicode_escape (pos + 1))
            else
            match hex4 s2 with
            | None => Failed (Error invalid_unicode_escape (pos + 1))
            | Some (hi, s6) =>
              if is_high_surrogate hi && (7 <=? length s6)%nat
                 && starts_with [BACKSLASH; 117%N] s6
              then
                match hex4 (drop 2 s6) with
                | None => Failed (Error invalid_unicode_escape (pos + 7))
                | Some (lo, s12) =>
                  if is_low_surrogate lo
                  then cons_char (join_surrogates hi lo)
                         (scanstring fuel begin (pos + 12) s12)
                  else cons_char hi (scanstring fuel begin (pos + 6) s6)
                end
              else cons_char hi (scanstring fuel begin (pos + 6) s6)
            end
          else
            match simple_escape e with
            | Some ch => cons_char ch (scanstring fuel begin (pos + 2) s2)
            | None => Failed (Error invalid_escape pos)
            end
        end
      else if (c <=? 31)%N then Failed (Error invalid_control pos)
      else cons_char c (scanstring fuel begin (pos + 1) s1)
    end
  end.

(** *** Numbers *)

Definition is_digit (c : N) : bool := (48 <=? c)%N && (c <=? 57)%N.

Fixpoint take_digits (s : str) : str * str :=
  match s with
  | c :: s' =>
    if is_digit c then let '(ds, r) := take_digits s' in (c :: ds, r)
    else ([], s)
  | [] => ([], [])
  end.

Definition decimal_value (ds : str) : Z :=
  fold_left (fun acc c => acc * 10 + (Z.of_N c - 48)) ds 0.

(** The integer part: one [0], or a digit from 1 to 9 and more digits. *)
Definition integer_part (s : str) : option (str * str) :=
  match s with
  | c :: s' =>
    if (c =? 48)%N then Some ([c], s')
    else if is_digit c then
      let '(ds, r) := take_digits s' in Some (c :: ds, r)
    else None
  | [] => None
  end.

(** [.] and digits, when a digit follows the point. *)
Definition fraction_part (s : str) : str * str :=
  match s with
  | p :: d :: s' =>
    if (p =? DOT)%N && is_digit d
    then let '(ds, r) := take_digits s' in (p :: d :: ds, r)
    else ([], s)
  | _ => ([], s)
  end.

(** [e] or [E], a sign and digits; without a digit there is no exponent. *)
Definition exponent_part (s : str) : str * str :=
  match s with
  | e :: s1 =>
    if ((e =? 101) || (e =? 69))%N then
      match s1 with
      | [] => ([], s)
      | c :: s2 =>
        if (((c =? 45) || (c =? 43))%N && negb (bool_decide (s2 = [])))
        then match take_digits s2 with
             | ([], _) => ([], s)
             | (ds, r) => (e :: c :: ds, r)
             end
        else match take_digits s1 with
             | ([], _) => ([], s)
             | (ds, r) => (e :: ds, r)
             end
      end
    else ([], s)
  | [] => ([], s)
  end.

Definition expecting_value : string := "Expecting value".

Definition match_number (cur : cursor) : scanned (value * cursor) :=
  let '(pos, s) := cur in
  let '(sign, s1) :=
    match s with
    | c :: s' => if (c =? 45)%N then ([c], s') else ([], s)
    | [] => ([], s)
    end in
  match integer_part s1 with
  | None => Failed (Error expecting_value pos)
  | Some (ip, s2) =>
    let '(fp, s3) := fraction_part s2 in
    let '(ep, s4) := exponent_part s3 in
    let numeral := sign ++ ip ++ fp ++ ep in
    let cur' := (pos + Z.of_nat (length numeral), s4) in
    match fp, ep with
    | [], [] =>
      Scanned (JInt (match sign with
                     | [] => decimal_value ip
                     | _ => - decimal_value ip
                     end), cur')
    | _, _ => Scanned (JFloat numeral, cur')
    end
  end.

(** *** Objects and arrays; [scan] is the scanner of the nested values *)

Section Containers.

Variable scan : cursor -> scanned (value * cursor).

Definition expecting_name : string :=
  "Expecting property name enclosed in double quotes".
Definition expecting_colon : string := "Expecting ':' delimiter".
Definition expecting_comma : string := "Expecting ',' delimiter".
Definition an_object : string := "object".
Definition an_array : string := "array".

Definition head_is (c : N) (cur : cursor) : bool :=
  match snd cur with
  | c' :: _ => (c' =? c)%N
  | [] => false
  end.

(** The members of an object from a key on; [fuel] bounds their number. *)
Fixpoint members (fuel : nat) (cur : cursor)
  : scanned (list (str * value) * cursor) :=
  match fuel with
  | O => Failed (TooDeep an_object)
  | S fuel =>
    if negb (head_is QUOTE cur) then Failed (Error expecting_name (fst cur))
    else
      '(key, cur) ← scanstring (length (snd cur)) (fst cur) (fst cur + 1)
                      (drop 1 (snd cur));
      let cur := skip_whitespace cur in
      if negb (head_is 58 cur) then Failed (Error expecting_colon (fst cur))
      else
        let cur := skip_whitespace (advance 1 cur) in
        '(val, cur) ← scan cur;
        let cur := skip_whitespace cur in
        if head_is 125 cur then Scanned ([(key, val)], advance 1 cur)
        else if negb (head_is 44 cur)
        then Failed (Error expecting_comma (fst cur))
        else
          '(rest, cur) ← members fuel (skip_whitespace (advance 1 cur));
          Scanned ((key, val) :: rest, cur)
  end.

(** An object, from the character after the brace. *)
Definition parse_object (cur : cursor) : scanned (value * cursor) :=
  let cur := skip_whitespace cur in
  if head_is 125 cur then Scanned (JDict [], advance 1 cur)
  else '(items, cur) ← members (S (length (snd cur))) cur;
       Scanned (JDict items, cur).

Fixpoint elements (fuel : nat) (cur : cursor)
  : scanned (list value * cursor) :=
  match fuel with
  | O => Failed (TooDeep an_array)
  | S fuel =>
    '(val, cur) ← scan cur;
    let cur := skip_whitespace cur in
    if head_is 93 cur then Scanned ([val], advance 1 cur)
    else if negb (head_is 44 cur)
    then Failed (Error expecting_comma (fst cur))
    else
      '(rest, cur) ← elements fuel (skip_whitespace (advance 1 cur));
      Scanned (val :: rest, cur)
  end.

(** An array, from the character after the bracket. *)
Definition parse_array (cur : cursor) : scanned (value * cursor) :=
  let cur := skip_whitespace cur in
  if head_is 93 cur then Scanned (JList [], advance 1 cur)
  else '(items, cur) ← elements (S (length (snd cur))) cur;
       Scanned (JList items, cur).

End Containers.

(** [scan_once], with [depth] levels of nesting left. *)
Fixpoint scan_once (depth : nat) (cur : cursor) : scanned (value * cursor) :=
  match snd cur with
  | [] => Failed (Error expecting_value (fst cur))
  | c :: s1 =>
    if (c =? QUOTE)%N then
      '(s, cur') ← scanstring (length s1) (fst cur) (fst cur + 1) s1;
      Scanned (JStr s, cur')
    else if (c =? 123)%N then
      match depth with
      | O => Failed (TooDeep an_object)
      | S depth => parse_object (scan_once depth) (advance 1 cur)
      end
    else if (c =? 91)%N then
      match depth with
      | O => Failed (TooDeep an_array)
      | S depth => parse_array (scan_once depth) (advance 1 cur)
      end
    else if starts_with (lit "null") (snd cur)
    then Scanned (JNone, advance 4 cur)
    else if starts_with (lit "true") (snd cur)
    then Scanned (JBool true, advance 4 cur)
    else if starts_with (lit "false") (snd cur)
    then Scanned (JBool false, advance 5 cur)
    else if starts_with (lit "NaN") (snd cur)
    then Scanned (JFloat (lit "NaN"), advance 3 cur)
    else if starts_with (lit "Infinity") (snd cur)
    then Scanned (JFloat (lit "Infinity"), advance 8 cur)
    else if starts_with (lit "-Infinity") (snd cur)
    then Scanned (JFloat (lit "-Infinity"), advance 9 cur)
    else match_number cur
  end.

(** The frames in use when the scanner starts: those of the module that
    calls [write_poem], of [write_poem], [json.loads],
    [JSONDecoder.decode] and [raw_decode], and the call of the scanner,
    which is counted like a frame.  A caller deeper in the stack leaves
    fewer levels. *)
Definition frames_in_use : nat := 6.

(** The levels of nesting the interpreter allows: every object or array
    entered is counted like a frame, and [sys.getrecursionlimit()] is
    1000. *)
Definition recursion_limit : nat := 1000 - frames_in_use.

(** Line and column of the index [pos] of [doc], as [JSONDecodeError]
    reports them. *)
Fixpoint line_column (doc : str) (pos : nat) (line col : Z) : Z * Z :=
  match pos, doc with
  | S pos', c :: doc' =>
    if (c =? LF)%N then line_column doc' pos' (line + 1) 1
    else line_column doc' pos' line (col + 1)
  | _, _ => (line, col)
  end.

Definition decode_error (msg : string) (doc : str) (pos : Z) : exn :=
  let '(line, col) := line_column doc (Z.to_nat pos) 1 1 in
  mk_exn JSONDecodeError
    (lit msg ++ lit ": line " ++ Str.of_int line ++ lit " column "
     ++ Str.of_int col ++ lit " (char " ++ Str.of_int pos ++ lit ")").

Definition recursion_error (what : string) : exn :=
  mk_exn RecursionError
    (lit "maximum recursion depth exceeded while decoding a JSON "
     ++ lit what ++ lit " from a unicode string").

(** [json.loads(doc)]. *)
Definition loads (doc : str) : result value :=
  if starts_with [65279%N] doc
  then Raise (decode_error "Unexpected UTF-8 BOM (decode using utf-8-sig)"
                doc 0)
  else
    match scan_once recursion_limit (skip_whitespace (0, doc)) with
    | Failed (Error msg pos) => Raise (decode_error msg doc pos)
    | Failed (TooDeep what) => Raise (recursion_error what)
    | Scanned (v, cur) =>
      let cur := skip_whitespace cur in
      match snd cur with
      | [] => Return v
      | _ => Raise (decode_error "Extra data" doc (fst cur))
      end
    end.

(** [d[key]] on the items of a [dict]: the last value given to the key. *)
Fixpoint dict_get (items : list (str * value)) (key : str) : option value :=
  match items with
  | [] => None
  | (k, v) :: items' =>
    match dict_get items' key with
    | Some v' => Some v'
    | None => if str_eqb k key then Some v else None
    end
  end.

End Json.

(** ** The container: the mounted volume and standard output *)

(** An absolute path: its components below the root. *)
Abbreviation Path := (list str).

Inductive node :=
  | Dir
  | File (content : bytes).

(** The files and directories of the container, by absolute path, and the
    lines printed so far on standard output, the first one first.  The
    directories down to the mount point of the volume always exist, see
    [Fs.node_at]. *)
Record world := mk_world {
  vol : gmap Path node;
  out : list str
}.

(** A computation with effects: from the world before to the world
    after and what is returned or raised. *)
Definition M (A : Type) : Type := world -> world * result A.

Global Instance M_ret : MRet M := fun A a w => (w, Return a).

Global Instance M_bind : MBind M := fun A B k m w =>
  match m w with
  | (w', Return a) => k a w'
  | (w', Raise e) => (w', Raise e)
  end.

Definition lift {A} (r : result A) : M A := fun w => (w, r).

Definition raise {A} (e : exn) : M A := fun w => (w, Raise e).

(** [try: body except c1 as e: h1 e except c2 as e: h2 e ...]: the first
    clause whose class the exception is an instance of handles it. *)
Fixpoint handle {A} (handlers : list (exn_class * (exn -> M A))) (e : exn)
  : M A :=
  match handlers with
  | [] => raise e
  | (c, h) :: handlers' =>
    if isinstance e c then h e else handle handlers' e
  end.

Definition try_except {A} (body : M A)
    (handlers : list (exn_class * (exn -> M A))) : M A :=
  fun w =>
    match body w with
    | (w', Return a) => (w', Return a)
    | (w', Raise e) => handle handlers e w'
    end.

(** [for x in xs: acc = body x acc]. *)
Fixpoint for_each {X S} (xs : list X) (body : X -> S -> M S) (acc : S)
  : M S :=
  match xs with
  | [] => mret acc
  | x :: xs' => acc' ← body x acc; for_each xs' body acc'
  end.

(** [print(s)]: standard output is a UTF-8 text stream with the error
    handler [surrogateescape], as the interpreter opens it under the
    locales C, POSIX and C.UTF-8 of a container. *)
Definition print (s : str) : M unit := fun w =>
  match Utf8.encode_escaping s with
  | Return _ => (mk_world (vol w) (out w ++ [s]), Return tt)
  | Raise e => (w, Raise e)
  end.

(** ** [pathlib] and the file system *)

Module Fs.

(** The parts of a relative path given as a string: [parse_parts]. *)
Definition parse_parts (s : str) : list str :=
  filter (fun part => part <> [] /\ part <> [DOT]) (Str.split_on SLASH s).

(** [path / s]. *)
Definition div (path : Path) (s : str) : Path :=
  match s with
  | c :: _ => if (c =? SLASH)%N then parse_parts s else path ++ parse_parts s
  | [] => path
  end.

(** [str(path)]. *)
Definition to_str (path : Path) : str :=
  [SLASH] ++ Str.join [SLASH] path.

(** [repr] of a string without quotes, backslashes or characters that
    are not printable. *)
Definition repr (s : str) : str := [APOSTROPHE] ++ s ++ [APOSTROPHE].

Definition os_error (c : exn_class) (errno : Z) (strerror : string)
    (path : Path) : exn :=
  mk_exn c (lit "[Errno " ++ Str.of_int errno ++ lit "] " ++ lit strerror
            ++ lit ": " ++ repr (to_str path)).

Definition ENOENT path := os_error FileNotFoundError 2 "No such file or directory" path.
Definition EEXIST path := os_error FileExistsError 17 "File exists" path.
Definition ENOTDIR path := os_error NotADirectoryError 20 "Not a directory" path.
Definition EISDIR path := os_error IsADirectoryError 21 "Is a directory" path.

(** Where the volume [poems] is mounted. *)
Definition mount_point : Path := [lit "root"; lit "poems"].

(** What is at [path]: the root, [/root] and the mount point are
    directories. *)
Definition node_at (v : gmap Path node) (path : Path) : option node :=
  if bool_decide (path `prefix_of` mount_point) then Some Dir else v !! path.

(** The walk of the kernel down the directories [todo] below [done]. *)
Fixpoint walk (v : gmap Path node) (full done todo : Path) : result unit :=
  match todo with
  | [] => Return tt
  | name :: todo' =>
    match node_at v (done ++ [name]) with
    | None => Raise (ENOENT full)
    | Some (File _) => Raise (ENOTDIR full)
    | Some Dir => walk v full (done ++ [name]) todo'
    end
  end.

(** The directory a path lies in: [path.parent]. *)
Definition parent (path : Path) : Path := removelast path.

(** [open(path)] for reading and [read()] of all the bytes. *)
Definition read_bytes (path : Path) : M bytes := fun w =>
  match walk (vol w) path [] (parent path) with
  | Raise e => (w, Raise e)
  | Return _ =>
    match node_at (vol w) path with
    | None => (w, Raise (ENOENT path))
    | Some Dir => (w, Raise (EISDIR path))
    | Some (File content) => (w, Return content)
    end
  end.

(** [path.read_text()], in the UTF-8 locale of the image. *)
Definition read_text (path : Path) : M str :=
  content ← read_bytes path;
  text ← lift (Utf8.decode content);
  mret (Lines.universal_newlines text).

(** [path.is_dir()]. *)
Definition is_dir (v : gmap Path node) (path : Path) : bool :=
  match walk v path [] (parent path), node_at v path with
  | Return _, Some Dir => true
  | _, _ => false
  end.

(** [os.mkdir(path)]. *)
Definition os_mkdir (path : Path) : M unit := fun w =>
  match walk (vol w) path [] (parent path) with
  | Raise e => (w, Raise e)
  | Return _ =>
    match node_at (vol w) path with
    | Some _ => (w, Raise (EEXIST path))
    | None => (mk_world (<[path := Dir]> (vol w)) (out w), Return tt)
    end
  end.

(** [path.mkdir(parents=False, exist_ok=exist_ok)]. *)
Definition mkdir_here (path : Path) (exist_ok : bool) : M unit :=
  try_except (os_mkdir path)
    [(FileNotFoundError, fun e => raise e);
     (OSError, fun e => fun w =>
        if negb exist_ok || negb (is_dir (vol w) path)
        then (w, Raise e) else (w, Return tt))].

(** [path.mkdir(parents=True, exist_ok=exist_ok)], by recursion on the
    reversed path [rpath]: a missing parent is made first, then the
    directory itself. *)
Fixpoint mkdir_parents (rpath : Path) (exist_ok : bool) : M unit :=
  try_except (os_mkdir (rev rpath))
    [(FileNotFoundError, fun e =>
        match rpath with
        | [] => raise e
        | _ :: rparent =>
          _ ← mkdir_parents rparent true;
          mkdir_here (rev rpath) exist_ok
        end);
     (OSError, fun e => fun w =>
        if negb exist_ok || negb (is_dir (vol w) (rev rpath))
        then (w, Raise e) else (w, Return tt))].

(** [path.mkdir(parents=..., exist_ok=...)]. *)
Definition mkdir (path : Path) (parents exist_ok : bool) : M unit :=
  if parents then mkdir_parents (rev path) exist_ok
  else mkdir_here path exist_ok.

(** [open(path, "w")]: the file is created, or emptied. *)
Definition open_w (path : Path) : M unit := fun w =>
  match walk (vol w) path [] (parent path) with
  | Raise e => (w, Raise e)
  | Return _ =>
    match node_at (vol w) path with
    | Some Dir => (w, Raise (EISDIR path))
    | _ => (mk_world (<[path := File []]> (vol w)) (out w), Return tt)
    end
  end.

(** [f.write(text)] and the closing of [f], a file open on [path]. *)
Definition write (path : Path) (text : str) : M unit := fun w =>
  match Utf8.encode text with
  | Raise e => (w, Raise e)
  | Return content =>
    (mk_world (<[path := File content]> (vol w)) (out w), Return tt)
  end.

End Fs.

(** ** The volume of the platform

    [poems.reload()] brings the committed state of the volume into the
    container and [poems.commit()] publishes the changes made in it.  One
    container is modelled, whose view is the volume: both leave the
    world as it is. *)
Module Volume.

Definition reload : M unit := mret tt.
Definition commit : M unit := mret tt.

End Volume.

(** ** [requests] and [urllib.parse] *)

Module Http.

(** A response: its status and the pieces its body arrives in. *)
Record Response := mk_response {
  status_code : Z;
  raw : list bytes
}.

(** Consecutive slices of [n] bytes, the last one shorter. *)
Fixpoint slices_fuel (fuel n : nat) (data : bytes) : list bytes :=
  match fuel, data with
  | S fuel', _ :: _ => take n data :: slices_fuel fuel' n (drop n data)
  | _, _ => []
  end.

Definition slices (n : nat) (data : bytes) : list bytes :=
  slices_fuel (length data) n data.

(** [response.iter_content(chunk_size)]: what has arrived, in chunks of
    at most [chunk_size] bytes. *)
Definition iter_content (r : Response) (chunk_size : nat) : list bytes :=
  concat (map (slices chunk_size) (raw r)).

Definition hex_upper (n : N) : N :=
  if (n <? 10)%N then (48 + n)%N else (55 + n)%N.

Definition always_safe (c : N) : bool :=
  ((65 <=? c) && (c <=? 90) || (97 <=? c) && (c <=? 122)
   || (48 <=? c) && (c <=? 57)
   || (c =? 95) || (c =? 46) || (c =? 45) || (c =? 126))%N.

Definition quote_byte (b : byte) : str :=
  let c := Byte.to_N b in
  if always_safe c || (c =? SLASH)%N then [c]
  else [PERCENT; hex_upper (c / 16); hex_upper (c mod 16)].

(** [urllib.parse.quote(s)]. *)
Definition quote (s : str) : result str :=
  data ← Utf8.encode s; Return (concat (map quote_byte data)).

End Http.

(** ** [tidbyt.py]: [poem] and [write_poem] *)

Definition poems_path : Path := Fs.div [] (lit "/root/poems").

(** The path of the poem of a bucket:
    [poems_path / year / month / day / hour / "poem.txt"]. *)
Definition bucket_dir (year month day hour : str) : Path :=
  Fs.div (Fs.div (Fs.div (Fs.div poems_path year) month) day) hour.

Definition not_found_verse (e : exn) : str :=
  lit "A message in red, so sudden and abrupt," ++ [LF]
  ++ lit "File not found, a poem corrupt?" ++ [LF]
  ++ lit "FIleNotFoundError: " ++ exn_str e.

Definition unknown_verse (e : exn) : str :=
  lit "An unknown exception, caught by surprise," ++ [LF]
  ++ lit "Silent code fails, under the user's eyes." ++ [LF]
  ++ lit "Exception: " ++ exn_str e.

(** The clauses of the [try] statement of [poem]. *)
Definition poem_handlers : list (exn_class * (exn -> M str)) :=
  [(FileNotFoundError, fun e => mret (not_found_verse e));
   (Exception, fun e => mret (unknown_verse e))].

(** [poem()], the web endpoint, at the reading [now] of the clock. *)
Definition poem (now : Datetime.datetime) : M str :=
  '(year, month, day, hour) ← lift (get_ymdh false now);
  _ ← Volume.reload;
  let path := Fs.div (bucket_dir year month day hour) (lit "poem.txt") in
  _ ← print (lit "retrieving poem from " ++ Fs.to_str path);
  poem ← try_except (Fs.read_text path) poem_handlers;
  mret poem.

(** [data["text"]]. *)
Definition getitem_text (data : Json.value) : result Json.value :=
  match data with
  | Json.JDict items =>
    match Json.dict_get items (lit "text") with
    | Some v => Return v
    | None => Raise (mk_exn KeyError (Fs.repr (lit "text")))
    end
  | Json.JList _ =>
    Raise (mk_exn TypeError
             (lit "list indices must be integers or slices, not str"))
  | Json.JStr _ =>
    Raise (mk_exn TypeError (lit "string indices must be integers"))
  | _ =>
    Raise (mk_exn TypeError
             ([APOSTROPHE] ++ Json.type_name data
              ++ lit "' object is not subscriptable"))
  end.

(** [poem += v] for a [str] [poem]. *)
Definition iadd (poem : str) (v : Json.value) : result str :=
  match v with
  | Json.JStr s => Return (poem ++ s)
  | _ =>
    Raise (mk_exn TypeError
             (lit "can only concatenate str (not " ++ [QUOTE]
              ++ Json.type_name v ++ [QUOTE] ++ lit ") to str"))
  end.

(** The body of the loop over the lines of a chunk. *)
Definition add_line (line : str) (poem : str) : M str :=
  match line with
  | [] => mret poem
  | _ :: _ =>
    try_except
      (data ← lift (Json.loads (drop 6 line));
       v ← lift (getitem_text data);
       lift (iadd poem v))
      [(JSONDecodeError, fun e =>
          _ ← print (lit "Error decoding JSON: " ++ exn_str e);
          _ ← print line;
          mret poem)]
  end.

(** The body of the loop over the chunks of the response. *)
Definition add_chunk (chunk : bytes) (poem : str) : M str :=
  chunk ← lift (Utf8.decode chunk);
  for_each (Str.split_on LF (Str.strip chunk)) add_line poem.

(** Lines 104 to 116: the text assembled from the response. *)
Definition assemble (response : Http.Response) : M str :=
  if Http.status_code response =? 200
  then for_each (Http.iter_content response 1024) add_chunk []
  else mret [].

(** Line 117: the first three lines of the stripped text. *)
Definition first_three_lines (poem : str) : str :=
  Str.join [LF] (take 3 (Lines.splitlines (Str.strip poem))).

Definition poem_request (month day hour : str) : str :=
  lit "Write a poem in three lines, each with two or three words, that is fitting for the following date and time: Month #"
  ++ month ++ lit ", Day #" ++ day ++ lit ", Hour #" ++ hour ++ lit ".".

Definition completion_url (month day hour : str) : result str :=
  quoted ← Http.quote (poem_request month day hour);
  Return (lit "https://modal-labs--vllm-mixtral.modal.run/completion/"
          ++ quoted).

(** [write_poem()], the scheduled job, at the reading [now] of the clock;
    [requests_get] is the network: the response to a URL. *)
Definition write_poem (now : Datetime.datetime)
    (requests_get : str -> Http.Response) : M str :=
  '(year, month, day, hour) ← lift (get_ymdh true now);
  url ← lift (completion_url month day hour);
  let response := requests_get url in
  poem ← assemble response;
  let poem := first_three_lines poem in
  _ ← print poem;
  let path := bucket_dir year month day hour in
  _ ← Fs.mkdir path true true;
  _ ← Fs.open_w (Fs.div path (lit "poem.txt"));
  _ ← Fs.write (Fs.div path (lit "poem.txt")) poem;
  _ ← Volume.commit;
  mret poem.

(** ** The layout of the volume, in the words of the specification

    [{volume_root}/{year}/{month}/{day}/{hour}/poem.txt]. *)

Definition poem_file (bucket : str * str * str * str) : Path :=
  let '(year, month, day, hour) := bucket in
  [lit "root"; lit "poems"; year; month; day; hour; lit "poem.txt"].

Definition poem_file_name (bucket : str * str * str * str) : str :=
  let '(year, month, day, hour) := bucket in
  lit "/root/poems/" ++ year ++ lit "/" ++ month ++ lit "/" ++ day
  ++ lit "/" ++ hour ++ lit "/poem.txt".

(** The bucket of a reading of the clock and the bucket of the hour after
    it. *)
Definition bucket_now (now : Datetime.datetime) : str * str * str * str :=
  Civil.bucket (Datetime.year now, Datetime.month now, Datetime.day now,
                Datetime.hour now).

Definition bucket_next (now : Datetime.datetime) : str * str * str * str :=
  Civil.bucket (Civil.next_hour (Datetime.year now) (Datetime.month now)
                  (Datetime.day now) (Datetime.hour now)).

(** The URL [write_poem] requests for a bucket. *)
Definition poem_url (bucket : str * str * str * str) : str :=
  let '(_, month, day, hour) := bucket in
  match completion_url month day hour with
  | Return url => url
  | Raise _ => []
  end.

(** ** The completion stream, in the words of the specification

    "a sequence of newline-delimited, prefixed JSON fragments": each line
    of the stream is empty, or a prefix of six characters and a
    remainder; the remainder of a fragment is a JSON object with a
    [text] field, or [json.loads] rejects it with a [JSONDecodeError]. *)

(** The [text] field of a parsed fragment. *)
Definition text_field (data : Json.value) : option str :=
  match data with
  | Json.JDict items =>
    match Json.dict_get items (lit "text") with
    | Some (Json.JStr t) => Some t
    | _ => None
    end
  | _ => None
  end.

Inductive fragment :=
  | Blank
  | Text (prefix remainder text : str)
  | Garbled (prefix remainder : str) (e : exn).

Definition fragment_line (f : fragment) : str :=
  match f with
  | Blank => []
  | Text prefix remainder _ | Garbled prefix remainder _ =>
    prefix ++ remainder
  end.

(** A line does not begin with white space. *)
Definition head_ok (line : str) : Prop :=
  match line with
  | c :: _ => Str.isspace c = false
  | [] => True
  end.

(** A line does not begin or end with white space. *)
Definition trimmed (line : str) : Prop :=
  head_ok line /\ head_ok (rev line).

(** The lines after the empty lines at the head of a list. *)
Fixpoint drop_blank (lines : list str) : list str :=
  match lines with
  | [] :: lines' => drop_blank lines'
  | _ => lines
  end.

(** Lines that make a text which [strip] changes by empty lines only:
    the first line that is not empty does not begin with white space and
    the last one does not end with it. *)
Definition ends_trimmed (lines : list str) : Prop :=
  match drop_blank lines with
  | line :: _ => head_ok line
  | [] => True
  end /\
  match drop_blank (rev lines) with
  | line :: _ => head_ok (rev line)
  | [] => True
  end.

Definition well_formed (f : fragment) : Prop :=
  match f with
  | Blank => True
  | Text prefix remainder text =>
    length prefix = 6%nat /\ (LF ∉ prefix ++ remainder)
    /\ exists data,
         Json.loads remainder = Return data /\ text_field data = Some text
  | Garbled prefix remainder e =>
    length prefix = 6%nat /\ (LF ∉ prefix ++ remainder)
    /\ Json.loads remainder = Raise e /\ exn_cls e = JSONDecodeError
  end.

(** The text of a stream of fragments: its lines, with newlines between
    them. *)
Definition stream_text (fragments : list fragment) : str :=
  Str.join [LF] (map fragment_line fragments).

(** The concatenation of the [text] fields, in the order of arrival. *)
Definition texts (fragments : list fragment) : str :=
  concat (map (fun f => match f with
                        | Text _ _ text => text
                        | _ => []
                        end) fragments).

(** The two lines printed for each fragment that does not parse. *)
Definition diagnostics (fragments : list fragment) : list str :=
  concat (map (fun f => match f with
                        | Garbled prefix remainder e =>
                          [lit "Error decoding JSON: " ++ exn_str e;
                           prefix ++ remainder]
                        | _ => []
                        end) fragments).



(** One fragment of more than 1024 bytes: [data: {"text": "aa...a"}] with
    1100 letters. *)
Definition long_text : str := repeat 97%N (Z.to_nat 1100).

Definition long_fragment : fragment :=
  Text (lit "data: ")
       (lit "{" ++ [QUOTE] ++ lit "text" ++ [QUOTE] ++ lit ": " ++ [QUOTE]
        ++ long_text ++ [QUOTE] ++ lit "}")
       long_text.

Definition long_response : Http.Response :=
  Http.mk_response 200
    [map Utf8.byte_of (fragment_line long_fragment ++ [LF])].

(** A JSON object with one field [text], whose string is written
    [escaped]. *)
Definition text_object (escaped : str) : str :=
  lit "{" ++ [QUOTE] ++ lit "text" ++ [QUOTE] ++ lit ": " ++ [QUOTE]
  ++ escaped ++ [QUOTE] ++ lit "}".

(** One fragment whose prefix is six spaces, in a chunk of its own. *)
Definition indented_fragment : fragment :=
  Text (lit "      ") (text_object (lit "Snow")) (lit "Snow").

Definition indented_response : Http.Response :=
  Http.mk_response 200
    [map Utf8.byte_of (fragment_line indented_fragment ++ [LF])].

(** One line whose remainder is a thousand opening brackets. *)
Definition nested_line : str := lit "data: " ++ repeat 91%N (Z.to_nat 1000).

Definition nested_response : Http.Response :=
  Http.mk_response 200 [map Utf8.byte_of (nested_line ++ [LF])].

(** A short stream in two chunks of whole fragments; the second chunk
    begins with a fragment that is no JSON. *)
Definition sample_fragments : list (list fragment) :=
  [[Text (lit "data: ") (text_object (lit "Old year ends\nBells"))
      (lit "Old year ends" ++ [LF] ++ lit "Bells");
    Blank; Blank];
   [Garbled (lit "data: ") (lit "[DONE]")
      (mk_exn JSONDecodeError
         (lit "Expecting value: line 1 column 2 (char 1)"));
    Blank;
    Text (lit "data: ") (text_object (lit " ring\nNew dawn\nAnd more"))
      (lit " ring" ++ [LF] ++ lit "New dawn" ++ [LF] ++ lit "And more");
    Blank; Blank]].

Definition sample_response : Http.Response :=
  Http.mk_response 200
    (map (fun fs => map Utf8.byte_of (stream_text fs)) sample_fragments).

(** The text of the short stream. *)
Definition sample_poem : str :=
  lit "Old year ends" ++ [LF] ++ lit "Bells ring" ++ [LF]
  ++ lit "New dawn" ++ [LF] ++ lit "And more".

(** The network that answers every request with the short stream, and the
    one that answers with an error page. *)
Definition sample_network : str -> Http.Response := fun _ => sample_response.

Definition failing_network : str -> Http.Response :=
  fun _ => Http.mk_response 503 [map Utf8.byte_of (lit "Service Unavailable")].

(** The container at its start: nothing on the volume, nothing printed. *)
Definition fresh : world := mk_world ∅ [].

(** ** [use_cuda.py]: [nvidia_smi] *)

Module Cuda.

(** [subprocess.CompletedProcess]. *)
Record CompletedProcess := mk_completed {
  returncode : Z;
  stdout : bytes
}.

(** [xml.etree.ElementTree.Element]: the tag, the text before the first
    child and the children. *)
#[warnings="-register-all"]
Inductive Element :=
  | mk_element (tag : str) (text : option str) (children : list Element).

Definition tag (e : Element) : str :=
  match e with mk_element t _ _ => t end.
Definition text (e : Element) : option str :=
  match e with mk_element _ t _ => t end.
Definition children (e : Element) : list Element :=
  match e with mk_element _ _ c => c end.

(** [root.find(name)] for a tag name: the first child with this tag. *)
Definition find (root : Element) (name : str) : option Element :=
  List.find (fun child => str_eqb (tag child) name) (children root).

(** What the container supplies: [subprocess.run] on an argument list,
    and the parser [ET.fromstring]. *)
Record Env := mk_env {
  subprocess_run : list str -> result CompletedProcess;
  ET_fromstring : bytes -> result Element
}.

Definition assertion_error : exn := mk_exn AssertionError [].

Definition assert (b : bool) : result unit :=
  if b then Return tt else Raise assertion_error.

Definition none_has_no (attr : string) : exn :=
  mk_exn AttributeError
    (lit "'NoneType' object has no attribute '" ++ lit attr ++ lit "'").

(** [root.find(name).text.split(".")]. *)
Definition field_parts (root : Element) (name : str) : result (list str) :=
  match find root name with
  | None => Raise (none_has_no "text")
  | Some e =>
    match text e with
    | None => Raise (none_has_no "split")
    | Some t => Return (Str.split_on DOT t)
    end
  end.

(** [parts[0]] of the result of a [split]. *)
Definition first_part (parts : list str) : result str :=
  match parts with
  | p :: _ => Return p
  | [] => Raise (mk_exn ValueError (lit "list index out of range"))
  end.

Definition smi : list str := [lit "nvidia-smi"].
Definition smi_query : list str :=
  [lit "nvidia-smi"; lit "-q"; lit "-u"; lit "-x"].

(** [nvidia_smi()]: the commands it has run, in order, and how it ends. *)
Definition nvidia_smi (env : Env) : list (list str) * result unit :=
  match subprocess_run env smi with
  | Raise e => ([smi], Raise e)
  | Return shown =>
    if negb (bool_decide (returncode shown = 0))
    then ([smi], Raise assertion_error)
    else
      ([smi; smi_query],
       queried ← subprocess_run env smi_query;
       let xml_output := stdout queried in
       root ← ET_fromstring env xml_output;
       driver ← field_parts root (lit "driver_version");
       major ← first_part driver;
       _ ← assert (str_eqb major (lit "535"));
       cuda ← field_parts root (lit "cuda_version");
       _ ← assert (bool_decide (cuda = [lit "12"; lit "2"]));
       Return tt)
  end.

End Cuda.

(** The major component of a version string, in the words of the
    specification: what stands before the first point. *)
Fixpoint major_component (version : str) : str :=
  match version with
  | [] => []
  | c :: rest => if (c =? DOT)%N then [] else c :: major_component rest
  end.

(** The text of a field of the parsed document, when the document has the
    field and the field has a text. *)
Definition field_text (root : Cuda.Element) (name : str) : option str :=
  match Cuda.find root name with
  | Some e => Cuda.text e
  | None => None
  end.

(** A container with the driver 535.129.03 and CUDA 12.2: both commands
    exit with code zero and the document of the query has the two
    fields. *)
Definition sample_document : Cuda.Element :=
  Cuda.mk_element (lit "nvidia_smi_log") None
    [Cuda.mk_element (lit "timestamp") (Some (lit "Mon Jan  1 00:00:00 2024")) [];
     Cuda.mk_element (lit "driver_version") (Some (lit "535.129.03")) [];
     Cuda.mk_element (lit "cuda_version") (Some (lit "12.2")) [];
     Cuda.mk_element (lit "attached_gpus") (Some (lit "1")) []].

Definition sample_env : Cuda.Env :=
  Cuda.mk_env (fun _ => Return (Cuda.mk_completed 0 []))
              (fun _ => Return sample_document).

(** ** Definitions used by the proofs *)

(** The integers [lo, lo + 1, ..., lo + n - 1]. *)
Definition Zrange (lo n : Z) : list Z :=
  map (fun i => lo + Z.of_nat i) (seq 0 (Z.to_nat n)).

(** The last steps of [Datetime._ord2ymd]: month and day of the [n]-th day
    (from 0) of a year. *)
Definition month_day (leapyear : bool) (n : Z) : Z * Z :=
  let month := Z.shiftr (n + 50) 5 in
  let preceding :=
    Datetime.item Datetime._DAYS_BEFORE_MONTH month
    + Z.b2z ((month >? 2) && leapyear) in
  if preceding >? n then
    let month := month - 1 in
    let preceding :=
      preceding
      - (Datetime.item Datetime._DAYS_IN_MONTH month
         + Z.b2z ((month =? 2) && leapyear)) in
    (month, n - preceding + 1)
  else (month, n - preceding + 1).

(** The check of one day of a common or of a leap year: [month_day]
    finds it, the day number stays within the year and reaches its end on
    31 December only, and the first day of the next month follows the last
    day of this one. *)
Definition month_day_ok (leapyear : bool) (m d : Z) : bool :=
  let dim :=
    if (m =? 2) && leapyear then 29
    else Datetime.item Datetime._DAYS_IN_MONTH m in
  let before :=
    Datetime.item Datetime._DAYS_BEFORE_MONTH m
    + Z.b2z ((m >? 2) && leapyear) in
  let n := before + d - 1 in
  implb (d <=? dim)
    (let '(m', d') := month_day leapyear n in
     (m' =? m) && (d' =? d) && (n <=? 364 + Z.b2z leapyear)
     && implb (n =? 364 + Z.b2z leapyear) ((m =? 12) && (d =? 31))
     && implb ((d =? dim) && (m <? 12))
          (Datetime.item Datetime._DAYS_BEFORE_MONTH (m + 1)
           + Z.b2z ((m + 1 >? 2) && leapyear) =? before + dim)
     && implb ((d =? dim) && (m =? 12)) (n =? 364 + Z.b2z leapyear)).

Definition year_days_ok : bool :=
  forallb (fun leapyear =>
    forallb (fun m =>
      forallb (fun d => month_day_ok leapyear m d) (Zrange 1 31))
      (Zrange 1 12))
    [false; true].

(** The checks that [%Y] and the two-digit directives print the padded
    numeral of a value a [datetime] can hold. *)
Definition numeral_ok (width : nat) (n : Z) : bool :=
  str_eqb (Str.zfill width (Str.of_int n)) (Civil.numeral width n).

(** Text that the UTF-8 codec encodes. *)
Definition Encodable (s : str) : Prop :=
  Forall (fun c => Utf8.encodable c = true) s.

(** Text of one-byte characters, as the literals of the source. *)
Definition Latin (s : str) : Prop := Forall (fun c => (c < 256)%N) s.

(** What a step may do to the volume, from [v] to [v']: entries that are
    not at the paths [W] stay, a new entry that is not at [W] is a
    directory at one of the paths [C], and nothing is removed. *)
Definition grows (C W : Path -> Prop) (v v' : gmap Path node) : Prop :=
  (forall p n, ~ W p -> v !! p = Some n -> v' !! p = Some n) /\
  (forall p n, ~ W p -> v' !! p = Some n ->
     v !! p = Some n \/ (C p /\ n = Dir)) /\
  (forall p, is_Some (v !! p) -> is_Some (v' !! p)).

(** A computation that only makes directories at the paths [C], only
    writes at the paths [W], and removes nothing. *)
Definition confined {A} (C W : Path -> Prop) (m : M A) : Prop :=
  forall w, grows C W (vol w) (vol (m w).1).

Definition nowhere : Path -> Prop := fun _ => False.

(** No regular file stands where the path needs a directory. *)
Definition clear_way (v : gmap Path node) (path : Path) : Prop :=
  forall q c, q `prefix_of` path -> q <> path -> v !! q <> Some (File c).

(** The directories above a path all exist. *)
Definition dirs_above (v : gmap Path node) (path : Path) : Prop :=
  forall q, q `prefix_of` path -> q <> path -> Fs.node_at v q = Some Dir.

(** No regular file stands at the path or above it. *)
Definition no_file_upto (v : gmap Path node) (path : Path) : Prop :=
  forall q c, q `prefix_of` path -> Fs.node_at v q <> Some (File c).

(** The world after more lines have been printed. *)
Definition emit (w : world) (lines : list str) : world :=
  mk_world (vol w) (out w ++ lines).

(** Text without a character that ends a line. *)
Definition no_break (s : str) : Prop :=
  Forall (fun c => Lines.is_linebreak c = false) s.

(** ** The volume as the application keeps it *)

(** Where a poem file goes, no regular file stands on the way and no
    directory stands in its place. *)
Definition layout (v : gmap Path node) : Prop :=
  forall b, clear_way v (poem_file b) /\ v !! poem_file b <> Some Dir.

(** The calls that reach the container: the scheduler runs [write_poem]
    and the web runs [poem], each at a reading of the clock. *)
Inductive call :=
  | Write (now : Datetime.datetime) (requests_get : str -> Http.Response)
  | Read (now : Datetime.datetime).

Definition call_time (c : call) : Datetime.datetime :=
  match c with
  | Write now _ | Read now => now
  end.

(** The world after a call, whether it returned or raised. *)
Definition run_call (w : world) (c : call) : world :=
  match c with
  | Write now requests_get => (write_poem now requests_get w).1
  | Read now => (poem now w).1
  end.

Definition run_calls (w : world) (calls : list call) : world :=
  fold_left run_call calls w.

(** The paths strictly above a path, the root first. *)
Fixpoint strict_prefixes (path : Path) : list Path :=
  match path with
  | [] => []
  | x :: rest => [] :: map (cons x) (strict_prefixes rest)
  end.

(** The check that the directories above a path all exist. *)
Definition dirs_check (v : gmap Path node) (path : Path) : bool :=
  forallb (fun q => match Fs.node_at v q with
                    | Some Dir => true
                    | _ => false
                    end)
          (strict_prefixes path).

(** *** Readings of the clock and states of the volume for the examples *)

(** 00:10 on 1 January 2024, in the hour after [new_years_eve]. *)
Definition new_year : Datetime.datetime :=
  Datetime.mk_datetime 2024 1 1 0 10 0 0.

(** 23:30 on 31 December 9999, in the last hour of the calendar. *)
Definition last_hour : Datetime.datetime :=
  Datetime.mk_datetime 9999 12 31 23 30 0 0.

(** The volume after [write_poem] has run on New Year's Eve. *)
Definition after_write : world :=
  (write_poem new_years_eve sample_network fresh).1.

(** The same, with a directory where the poem file was. *)
Definition dir_for_poem : world :=
  mk_world (<[poem_file (bucket_now new_year) := Dir]> (vol after_write)) [].

(** The same, with bytes that are no UTF-8 in the poem file. *)
Definition garbage_poem : world :=
  mk_world (<[poem_file (bucket_now new_year) := File [xff; xfe]]>
              (vol after_write)) [].

(** A volume with a regular file [2024] at its top. *)
Definition file_for_year : world :=
  mk_world {[ [lit "root"; lit "poems"; lit "2024"] := File [] ]} [].

(** A character that may stand in the path of a URL as it is, or is the
    percent sign of an escape. *)
Definition url_char (c : N) : bool :=
  Http.always_safe c || (c =? SLASH)%N || (c =? PERCENT)%N.

(** The class of the exception [poem += data["text"]] raises when the
    JSON value [data] has no string [text]: a dictionary without the key
    gives [KeyError], everything else [TypeError]. *)
Definition missing_text_class (data : Json.value) : exn_class :=
  match data with
  | Json.JDict items =>
    match Json.dict_get items (lit "text") with
    | None => KeyError
    | Some _ => TypeError
    end
  | _ => TypeError
  end.

(** Networks for the examples: a body cut inside the two bytes of a
    character, an answer that is JSON without a [text], and a [text] that
    is half of a surrogate pair. *)
Definition cut_network : str -> Http.Response :=
  fun _ => Http.mk_response 200 [[xc3]; [xa9]].

Definition error_line : str :=
  lit "data: {" ++ [QUOTE] ++ lit "error" ++ [QUOTE] ++ lit ": "
  ++ [QUOTE] ++ lit "overloaded" ++ [QUOTE] ++ lit "}".

Definition error_network : str -> Http.Response :=
  fun _ => Http.mk_response 200 [map Utf8.byte_of error_line].

Definition surrogate_network : str -> Http.Response :=
  fun _ => Http.mk_response 200
             [map Utf8.byte_of
                (lit "data: " ++ text_object ([BACKSLASH] ++ lit "ud83d"))].

(** A stream whose text is the lone surrogate U+DC80, from the escape
    [\udc80] of its JSON line. *)
Definition escaped_network : str -> Http.Response :=
  fun _ => Http.mk_response 200
             [map Utf8.byte_of
                (lit "data: " ++ text_object ([BACKSLASH] ++ lit "udc80"))].

(** A character that stands for itself in a JSON string: no quote, no
    backslash and no control character. *)
Definition plain_char (c : N) : bool :=
  negb (c =? QUOTE)%N && negb (c =? BACKSLASH)%N && negb (c <=? 31)%N.

(** A fragment of the form [data: {"text": "..."}] whose text is written
    without escapes, or an empty line. *)
Definition plain_fragment (f : fragment) : Prop :=
  match f with
  | Blank => True
  | Text prefix remainder text =>
    prefix = lit "data: " /\ remainder = text_object text
    /\ Forall (fun c => plain_char c = true) text
  | Garbled _ _ _ => False
  end.

(** A stream of such fragments in two chunks, with empty lines between
    the events. *)
Definition plain_fragments : list (list fragment) :=
  [[Text (lit "data: ") (text_object (lit "Snow")) (lit "Snow");
    Blank; Blank];
   [Text (lit "data: ") (text_object (lit " falls")) (lit " falls");
    Blank; Blank]].

Definition plain_response : Http.Response :=
  Http.mk_response 200
    (map (fun fs => map Utf8.byte_of (stream_text fs)) plain_fragments).

(** ** [tidbyt.py]: [render] *)

Module Render.

(** What [render] can raise: [os.environ[...]] on a variable that is not
    set and [subprocess.run(..., check=True)] on an exit status that is
    not zero. *)
Inductive raised :=
  | KeyError (key : str)
  | CalledProcessError (returncode : Z) (cmd : str).

(** The container: the variables of the environment, and the exit status
    the shell gives for a command line, after the command lines that
    ran before it. *)
Record Container := mk_container {
  environ : gmap str str;
  shell : list str -> str -> Z
}.

(** [os.environ[key]]. *)
Definition getitem (c : Container) (key : str) : raised + str :=
  match environ c !! key with
  | Some value => inr value
  | None => inl (KeyError key)
  end.

(** [subprocess.run(cmd, check=True, shell=True)] after the command
    lines [ran]: the command lines that have run, and what is raised. *)
Definition run_checked (c : Container) (ran : list str) (cmd : str)
  : list str * (raised + unit) :=
  let returncode := shell c ran cmd in
  (ran ++ [cmd],
   if returncode =? 0 then inr tt
   else inl (CalledProcessError returncode cmd)).

Definition render_command : str := lit "pixlet render --gif starfile.star".

Definition push_command (device_id api_key : str) : str :=
  lit "pixlet push " ++ device_id ++ lit " starfile.gif -t " ++ api_key.

(** [render()]: the command lines it has run, in order, and how it
    ends. *)
Definition render (c : Container) : list str * (raised + unit) :=
  match getitem c (lit "TIDBYT_DEVICE_ID") with
  | inl e => ([], inl e)
  | inr DEVICE_ID =>
    match getitem c (lit "TIDBYT_API_KEY") with
    | inl e => ([], inl e)
    | inr TIDBYT_API_KEY =>
      match run_checked c [] render_command with
      | (ran, inl e) => (ran, inl e)
      | (ran, inr _) =>
        run_checked c ran (push_command DEVICE_ID TIDBYT_API_KEY)
      end
    end
  end.

End Render.

(** A container with the two variables set in which both commands
    succeed. *)
Definition sample_container : Render.Container :=
  Render.mk_container
    (<[lit "TIDBYT_DEVICE_ID" := lit "my-device"]>
       (<[lit "TIDBYT_API_KEY" := lit "secret"]> ∅))
    (fun _ _ => 0).

(** ** [use_cuda.py]: [nvcc] *)

Module Nvcc.

(** What [nvcc] can raise: an exception of the interpreter, or the
    [CalledProcessError] of [subprocess.run(..., check=True)]. *)
Inductive raised :=
  | Exn (e : exn)
  | CalledProcessError (returncode : Z) (cmd : list str).

(** The container: the directory the function runs in, and what a
    program does when it is run with an argument list: it changes the
    files and ends with an exit status, or cannot be started. *)
Record Container := mk_container {
  cwd : Path;
  exec : list str -> world -> world * result Cuda.CompletedProcess
}.

Definition compile_command : list str :=
  [lit "nvcc"; lit "-o"; lit "invsqrt_demo"; lit "invsqrt_kernel.cu";
   lit "invsqrt_demo.cu"].

Definition demo_command : list str := [lit "./invsqrt_demo"].

(** [nvcc()]: the commands it has run, the world it leaves and how it
    ends.  The first [run] has [check=True] and raises by itself when
    the exit status is not zero; the [assert] comes after it. *)
Definition nvcc (c : Container) (w : world)
  : list (list str) * world * (raised + bytes) :=
  match exec c compile_command w with
  | (w1, Raise e) => ([compile_command], w1, inl (Exn e))
  | (w1, Return compiled) =>
    if negb (Cuda.returncode compiled =? 0)
    then ([compile_command], w1,
          inl (CalledProcessError (Cuda.returncode compiled) compile_command))
    else if negb (bool_decide (Cuda.returncode compiled = 0))
    then ([compile_command], w1, inl (Exn Cuda.assertion_error))
    else
      match exec c demo_command w1 with
      | (w2, Raise e) => ([compile_command; demo_command], w2, inl (Exn e))
      | (w2, Return ran) =>
        if negb (bool_decide (Cuda.returncode ran = 0))
        then ([compile_command; demo_command], w2,
              inl (Exn Cuda.assertion_error))
        else
          match Fs.read_bytes (Fs.div (cwd c) (lit "./invsqrt_demo")) w2 with
          | (w3, Return data) =>
            ([compile_command; demo_command], w3, inr data)
          | (w3, Raise e) =>
            ([compile_command; demo_command], w3, inl (Exn e))
          end
      end
  end.

End Nvcc.

(** A container in [/root] where the compiler leaves four bytes in
    [invsqrt_demo] and both programs end with status zero. *)
Definition sample_build : Nvcc.Container :=
  Nvcc.mk_container [lit "root"]
    (fun args w =>
       if bool_decide (args = Nvcc.compile_command)
       then (mk_world (<[ [lit "root"; lit "invsqrt_demo"]
                          := File [x7f; x45; x4c; x46] ]> (vol w)) (out w),
             Return (Cuda.mk_completed 0 []))
       else (w, Return (Cuda.mk_completed 0 []))).

(** ** [use_cuda.py]: [remove_libcuda] *)

Module Libcuda.

(** The container: the names the operating system lists in a directory,
    in its order; what a program does when it is run; the XML parser; and
    the lower-case mapping of the interpreter's Unicode tables. *)
Record Container := mk_container {
  scandir : gmap Path node -> Path -> list str;
  exec : list str -> world -> world * result Cuda.CompletedProcess;
  ET_fromstring : bytes -> result Cuda.Element;
  lower : str -> str
}.

(** [Path("/") / "usr" / "lib" / "x86_64-linux-gnu"]. *)
Definition shared_x86_dir : Path :=
  Fs.div (Fs.div (Fs.div [] (lit "usr")) (lit "lib")) (lit "x86_64-linux-gnu").

Fixpoint begins_with (prefix name : str) : bool :=
  match prefix, name with
  | [], _ => true
  | p :: prefix', c :: name' => (p =? c)%N && begins_with prefix' name'
  | _ :: _, [] => false
  end.

(** A name matches the pattern [libnvidia-ml*]. *)
Definition matches (name : str) : bool :=
  begins_with (lit "libnvidia-ml") name.

(** [dir.glob("libnvidia-ml*")]: the entries of the directory whose name
    matches, as listed; nothing when [dir] is no directory. *)
Definition glob (c : Container) (v : gmap Path node) (dir : Path)
  : list Path :=
  if Fs.is_dir v dir
  then map (fun name => dir ++ [name]) (List.filter matches (scandir c v dir))
  else [].

(** [os.remove(path)]. *)
Definition os_remove (path : Path) : M unit := fun w =>
  match Fs.walk (vol w) path [] (Fs.parent path) with
  | Raise e => (w, Raise e)
  | Return _ =>
    match Fs.node_at (vol w) path with
    | None => (w, Raise (Fs.ENOENT path))
    | Some Dir => (w, Raise (Fs.EISDIR path))
    | Some (File _) => (mk_world (delete path (vol w)) (out w), Return tt)
    end
  end.

(** [if verbose: print(s)]. *)
Definition say (verbose : bool) (s : str) : M unit :=
  if verbose then print s else mret tt.

(** [root.find(name).text], on the way to its method [attr]. *)
Definition field (root : Cuda.Element) (name : str) (attr : string)
  : result str :=
  match Cuda.find root name with
  | None => Raise (Cuda.none_has_no "text")
  | Some e =>
    match Cuda.text e with
    | None => Raise (Cuda.none_has_no attr)
    | Some t => Return t
    end
  end.

(** The body of the loop over the files found. *)
Definition remove_file (verbose : bool) (libcuda_file : Path) (_ : unit)
  : M unit :=
  _ ← say verbose (lit "removing " ++ Fs.to_str libcuda_file);
  os_remove libcuda_file.

(** What follows the loop. *)
Definition inspect (c : Container) (verbose : bool) : M unit :=
  _ ← say verbose [];
  queried ← exec c Cuda.smi_query;
  let xml_output := Cuda.stdout queried in
  _ ← say verbose (lit "nvidia-smi still runs!");
  root ← lift (ET_fromstring c xml_output);
  driver ← lift (Cuda.field_parts root (lit "driver_version"));
  major ← lift (Cuda.first_part driver);
  _ ← lift (Cuda.assert (str_eqb major (lit "535")));
  _ ← say verbose (lit "because the NVIDIA drivers are still present");
  cuda ← lift (field root (lit "cuda_version") "lower");
  _ ← lift (Cuda.assert (str_eqb (lower c cuda) (lit "not found")));
  if verbose
  then _ ← print (lit "but the CUDA Driver API is gone: " ++ [LF]);
       _ ← exec c Cuda.smi;
       mret tt
  else mret tt.

(** [remove_libcuda(verbose)]. *)
Definition remove_libcuda (c : Container) (verbose : bool) : M unit :=
  fun w =>
    (_ ← for_each (glob c (vol w) shared_x86_dir) (remove_file verbose) tt;
     inspect c verbose) w.

End Libcuda.

(** *** A container for the examples *)

(** Lower case of the letters A to Z. *)
Definition ascii_lower (s : str) : str :=
  map (fun c => if (65 <=? c)%N && (c <=? 90)%N then (c + 32)%N else c) s.

Definition libdir : Path := [lit "usr"; lit "lib"; lit "x86_64-linux-gnu"].

(** The document of the query without the CUDA library. *)
Definition no_cuda_document : Cuda.Element :=
  Cuda.mk_element (lit "nvidia_smi_log") None
    [Cuda.mk_element (lit "driver_version") (Some (lit "535.129.03")) [];
     Cuda.mk_element (lit "cuda_version") (Some (lit "Not Found")) []].

Definition gpu_container : Libcuda.Container :=
  Libcuda.mk_container
    (fun _ _ => [lit "libc.so.6"; lit "libnvidia-ml.so.1";
                 lit "libnvidia-ml.so.535.129.03"])
    (fun _ w => (w, Return (Cuda.mk_completed 0 [])))
    (fun _ => Return no_cuda_document)
    ascii_lower.

Definition gpu_world : world :=
  mk_world
    (<[ [lit "usr"] := Dir ]>
      (<[ [lit "usr"; lit "lib"] := Dir ]>
        (<[ libdir := Dir ]>
          (<[ libdir ++ [lit "libc.so.6"] := File [x7f] ]>
            (<[ libdir ++ [lit "libnvidia-ml.so.1"] := File [x01] ]>
              (<[ libdir ++ [lit "libnvidia-ml.so.535.129.03"] := File [x02] ]>
                 ∅))))))
    [].

(** * Properties *)

(** ** Bounded quantification by evaluation *)

Section Ranges.

Lemma Zrange_In lo n z : lo <= z < lo + n -> In z (Zrange lo n).
Proof.
  intros Hz. unfold Zrange. apply in_map_iff.
  exists (Z.to_nat (z - lo)). split; [lia|].
  apply in_seq. lia.
Qed.

Lemma forallb_Zrange (P : Z -> bool) lo n :
  forallb P (Zrange lo n) = true ->
  forall z, lo <= z < lo + n -> P z = true.
Proof.
  intros H z Hz. rewrite forallb_forall in H. apply H, Zrange_In, Hz.
Qed.

End Ranges.

(** ** The calendar of [datetime] *)

Section Calendar.

Import Datetime.

Lemma is_leap_civil y : _is_leap y = Civil.leap_year y.
Proof.
  unfold _is_leap, Civil.leap_year.
  destruct (Z.eqb_spec (y mod 400) 0), (Z.eqb_spec (y mod 100) 0),
    (Z.eqb_spec (y mod 4) 0); simpl; try reflexivity;
    exfalso; Z.div_mod_to_equations; lia.
Qed.

Lemma days_in_month_civil y m :
  1 <= m <= 12 -> _days_in_month y m = Civil.month_length y m.
Proof.
  intros Hm. unfold _days_in_month, Civil.month_length.
  rewrite is_leap_civil.
  assert (m = 1 \/ m = 2 \/ m = 3 \/ m = 4 \/ m = 5 \/ m = 6 \/ m = 7 \/
          m = 8 \/ m = 9 \/ m = 10 \/ m = 11 \/ m = 12) as Hc by lia.
  destruct (Civil.leap_year y);
    repeat (destruct Hc as [-> | Hc]; [reflexivity|]); subst; reflexivity.
Qed.

Lemma days_in_month_le_31 y m :
  1 <= m <= 12 -> 28 <= _days_in_month y m <= 31.
Proof.
  intros Hm. rewrite days_in_month_civil by assumption.
  unfold Civil.month_length.
  repeat match goal with
         | |- context [if ?c then _ else _] => destruct c
         end; lia.
Qed.

Lemma div_mod_by a b q r :
  0 <= r < b -> a = b * q + r -> a / b = q /\ a mod b = r.
Proof.
  intros Hr Ha. split.
  - symmetry. apply Z.div_unique with r; [left; exact Hr | exact Ha].
  - symmetry. apply Z.mod_unique with q; [left; exact Hr | exact Ha].
Qed.

Ltac divmod a b q r :=
  let H := fresh in
  destruct (div_mod_by a b q r) as [H ?H]; [lia | lia |];
  rewrite ?H in *.

(** The digits of [n] in the mixed base 400/100/4/1 years. *)
Lemma ord_digits a b c e r :
  0 <= b < 4 -> 0 <= c < 25 -> 0 <= e < 4 ->
  0 <= r < 365 ->
  let n := 146097 * a + 36524 * b + 1461 * c + 365 * e + r in
  n / 146097 = a /\
  (n mod 146097) / 36524 = b /\
  ((n mod 146097) mod 36524) / 1461 = c /\
  (((n mod 146097) mod 36524) mod 1461) / 365 = e /\
  (((n mod 146097) mod 36524) mod 1461) mod 365 = r.
Proof.
  intros Hb Hc He Hr n.
  destruct (div_mod_by n 146097 a (36524 * b + 1461 * c + 365 * e + r))
    as [-> ->]; [lia | subst n; lia |].
  destruct (div_mod_by (36524 * b + 1461 * c + 365 * e + r) 36524 b
              (1461 * c + 365 * e + r)) as [-> ->]; [lia | lia |].
  destruct (div_mod_by (1461 * c + 365 * e + r) 1461 c (365 * e + r))
    as [-> ->]; [lia | lia |].
  destruct (div_mod_by (365 * e + r) 365 e r) as [-> ->]; [lia | lia |].
  repeat split; reflexivity.
Qed.

Lemma year_digits y :
  exists a b c e,
    0 <= b < 4 /\ 0 <= c < 25 /\ 0 <= e < 4 /\
    y - 1 = 400 * a + 100 * b + 4 * c + e /\
    _days_before_year y = 146097 * a + 36524 * b + 1461 * c + 365 * e /\
    (_is_leap y = true <-> e = 3 /\ (c <> 24 \/ b = 3)).
Proof.
  exists ((y - 1) / 400), (((y - 1) mod 400) / 100),
    ((((y - 1) mod 400) mod 100) / 4), ((((y - 1) mod 400) mod 100) mod 4).
  set (Y := y - 1).
  assert (Hsplit : 0 <= (Y mod 400) / 100 < 4 /\
          0 <= ((Y mod 400) mod 100) / 4 < 25 /\
          0 <= ((Y mod 400) mod 100) mod 4 < 4 /\
          Y = 400 * (Y / 400) + 100 * ((Y mod 400) / 100)
              + 4 * (((Y mod 400) mod 100) / 4) + ((Y mod 400) mod 100) mod 4)
    by (Z.div_mod_to_equations; lia).
  destruct Hsplit as (Hb & Hc & He & HY).
  set (a := Y / 400) in *. set (b := (Y mod 400) / 100) in *.
  set (c := ((Y mod 400) mod 100) / 4) in *.
  set (e := ((Y mod 400) mod 100) mod 4) in *.
  repeat split; try lia.
  - unfold _days_before_year. fold Y.
    destruct (div_mod_by Y 4 (100 * a + 25 * b + c) e) as [-> _]; [lia|lia|].
    destruct (div_mod_by Y 100 (4 * a + b) (4 * c + e)) as [-> _]; [lia|lia|].
    destruct (div_mod_by Y 400 a (100 * b + 4 * c + e)) as [-> _]; [lia|lia|].
    lia.
  - apply andb_true_iff in H as [H _]. apply Z.eqb_eq in H.
    assert (y = Y + 1) as Hy by (subst Y; lia). rewrite Hy, HY in H.
    Z.div_mod_to_equations; lia.
  - unfold _is_leap in H.
    apply andb_true_iff in H as [H4 H]. apply Z.eqb_eq in H4.
    apply orb_true_iff in H as [H | H].
    + apply negb_true_iff, Z.eqb_neq in H.
      assert (y = Y + 1) as Hy by (subst Y; lia). rewrite Hy, HY in H, H4.
      Z.div_mod_to_equations; lia.
    + apply Z.eqb_eq in H.
      assert (y = Y + 1) as Hy by (subst Y; lia). rewrite Hy, HY in H, H4.
      Z.div_mod_to_equations; lia.
  - intros [He3 Hcb]. unfold _is_leap.
    assert (y = 400 * a + 100 * b + 4 * c + e + 1) as Hy by (subst Y; lia).
    destruct (div_mod_by y 4 (100 * a + 25 * b + c + 1) 0) as [_ ->]; [lia|lia|].
    simpl.
    destruct Hcb as [Hc24 | Hb3].
    + destruct (Z.eqb_spec (y mod 100) 0) as [H0|]; [|reflexivity].
      exfalso. rewrite Hy in H0. Z.div_mod_to_equations; lia.
    + destruct (Z.eqb_spec (y mod 100) 0) as [H0|]; [|reflexivity]. simpl.
      apply Z.eqb_eq.
      destruct (Z.eq_dec c 24) as [Hc24|Hc24].
      * destruct (div_mod_by y 400 (a + 1) 0) as [_ ->]; [lia|lia|]. reflexivity.
      * exfalso. rewrite Hy in H0. Z.div_mod_to_equations; lia.
Qed.

(** What the evaluation of [year_days_ok] establishes. *)
Lemma year_days_checked : year_days_ok = true.
Proof. vm_compute. reflexivity. Qed.

Lemma month_day_checked y m d :
  1 <= m <= 12 -> 1 <= d <= _days_in_month y m ->
  let n := _days_before_month y m + d - 1 in
  month_day (_is_leap y) n = (m, d) /\
  0 <= n <= 364 + Z.b2z (_is_leap y) /\
  (n = 364 + Z.b2z (_is_leap y) -> m = 12 /\ d = 31) /\
  (d = _days_in_month y m -> m < 12 ->
   _days_before_month y (m + 1) = n + 1) /\
  (d = _days_in_month y m -> m = 12 -> n = 364 + Z.b2z (_is_leap y)).
Proof.
  intros Hm Hd n.
  pose proof (days_in_month_le_31 y m Hm) as H31.
  pose proof year_days_checked as H. unfold year_days_ok in H.
  rewrite forallb_forall in H.
  assert (In (_is_leap y) [false; true]) as Hin
    by (destruct (_is_leap y); simpl; auto).
  pose proof (H _ Hin) as H1. cbv beta in H1.
  pose proof (forallb_Zrange _ _ _ H1 m ltac:(lia)) as H2. cbv beta in H2.
  pose proof (forallb_Zrange _ _ _ H2 d ltac:(lia)) as H3. cbv beta in H3.
  clear H H1 H2 Hin.
  unfold month_day_ok in H3. cbv zeta in H3.
  fold (_days_in_month y m) in H3. fold (_days_before_month y m) in H3.
  fold (_days_before_month y (m + 1)) in H3. fold n in H3.
  destruct (Z.leb_spec d (_days_in_month y m)) as [_|]; [|lia].
  unfold implb at 1 in H3.
  destruct (month_day (_is_leap y) n) as [m' d'].
  rewrite !andb_true_iff in H3.
  destruct H3 as (((((Hm' & Hd') & Hn) & H365) & Hnext) & Hlast).
  apply Z.eqb_eq in Hm', Hd'. apply Z.leb_le in Hn. subst m' d'.
  assert (0 <= _days_before_month y m) as Hpos.
  { unfold _days_before_month, item.
    assert (m = 1 \/ m = 2 \/ m = 3 \/ m = 4 \/ m = 5 \/ m = 6 \/ m = 7 \/
            m = 8 \/ m = 9 \/ m = 10 \/ m = 11 \/ m = 12) as Hc by lia.
    destruct ((m >? 2) && _is_leap y);
      repeat (destruct Hc as [-> | Hc]; [simpl; lia|]); subst; simpl; lia. }
  repeat split; lia.
Qed.


Ltac triple_eq :=
  apply (f_equal2 pair); [apply (f_equal2 pair)|];
  first [reflexivity | lia].

(** [_ord2ymd], with its last steps named. *)
Lemma ord2ymd_unfold n :
  _ord2ymd n =
  let n0 := n - 1 in
  let n400 := n0 / 146097 in
  let na := n0 mod 146097 in
  let n100 := na / 36524 in
  let nb := na mod 36524 in
  let n4 := nb / 1461 in
  let nc := nb mod 1461 in
  let n1 := nc / 365 in
  let nf := nc mod 365 in
  let year := n400 * 400 + 1 + n100 * 100 + n4 * 4 + n1 in
  if (n1 =? 4) || (n100 =? 4) then (year - 1, 12, 31)
  else
    let '(m, d) :=
      month_day ((n1 =? 3) && (negb (n4 =? 24) || (n100 =? 3))) nf in
    (year, m, d).
Proof.
  unfold _ord2ymd, month_day.
  change _DI400Y with 146097. change _DI100Y with 36524.
  change _DI4Y with 1461. cbv zeta.
  repeat match goal with
         | |- context [if ?c then _ else _] => destruct c
         end; reflexivity.
Qed.

Lemma leap_flag y b c e :
  (_is_leap y = true <-> e = 3 /\ (c <> 24 \/ b = 3)) ->
  (e =? 3) && (negb (c =? 24) || (b =? 3)) = _is_leap y.
Proof. intros H. destruct (_is_leap y); lia. Qed.

(** [_ord2ymd] inverts [_ymd2ord]. *)
Lemma ord2ymd_ymd2ord y m d :
  1 <= m <= 12 -> 1 <= d <= _days_in_month y m ->
  _ord2ymd (_ymd2ord y m d) = (y, m, d).
Proof.
  intros Hm Hd.
  destruct (month_day_checked y m d Hm Hd) as (Hmd & Hn & H365 & _).
  destruct (year_digits y) as (a & b & c & e & Hb & Hc & He & HY & Hdby & Hleap).
  set (r := _days_before_month y m + d - 1) in *.
  rewrite ord2ymd_unfold. cbv zeta.
  replace (_ymd2ord y m d - 1) with (_days_before_year y + r)
    by (unfold _ymd2ord; lia).
  rewrite Hdby.
  destruct (Z.eq_dec r 365) as [Hr | Hr].
  - (* the last day of a leap year *)
    assert (_is_leap y = true) as Hl by (destruct (_is_leap y); simpl in Hn; [reflexivity | lia]).
    destruct (proj1 Hleap Hl) as [He3 Hcb].
    destruct (H365 ltac:(rewrite Hl; simpl; lia)) as [-> ->].
    rewrite Hr, He3.
    destruct (Z.eq_dec c 24) as [Hc24 | Hc24].
    + assert (b = 3) as -> by lia. subst c.
      destruct (div_mod_by (146097 * a + 36524 * 3 + 1461 * 24 + 365 * 3 + 365)
                  146097 a 146096) as [-> ->]; [lia | lia |].
      change (146096 / 36524) with 4.
      change ((4 =? 4)) with true. rewrite orb_true_r.
      change (146096 mod 36524) with 0. change (0 / 1461) with 0.
      change (0 mod 1461) with 0. change (0 / 365) with 0.
      triple_eq.
    + destruct (div_mod_by (146097 * a + 36524 * b + 1461 * c + 365 * 3 + 365)
                  146097 a (36524 * b + 1461 * c + 1460)) as [-> ->]; [lia | lia |].
      destruct (div_mod_by (36524 * b + 1461 * c + 1460) 36524 b
                  (1461 * c + 1460)) as [-> ->]; [lia | lia |].
      destruct (div_mod_by (1461 * c + 1460) 1461 c 1460) as [-> ->];
        [lia | lia |].
      change (1460 / 365) with 4. change (4 =? 4) with true.
      rewrite orb_true_l. triple_eq.
  - destruct (ord_digits a b c e r Hb Hc He ltac:(destruct (_is_leap y); simpl in Hn; lia))
      as (-> & -> & -> & -> & ->).
    destruct (Z.eqb_spec e 4) as [|_]; [lia|].
    destruct (Z.eqb_spec b 4) as [|_]; [lia|]. simpl orb.
    rewrite (leap_flag y b c e Hleap), Hmd. triple_eq.
Qed.


Lemma days_before_year_succ y :
  _days_before_year (y + 1) = _days_before_year y + 365 + Z.b2z (_is_leap y).
Proof.
  unfold _days_before_year, _is_leap.
  replace (y + 1 - 1) with y by lia.
  assert (y / 4 = (y - 1) / 4 + Z.b2z (y mod 4 =? 0)) as ->
    by (destruct (Z.eqb_spec (y mod 4) 0); simpl;
        Z.div_mod_to_equations; lia).
  assert (y / 100 = (y - 1) / 100 + Z.b2z (y mod 100 =? 0)) as ->
    by (destruct (Z.eqb_spec (y mod 100) 0); simpl;
        Z.div_mod_to_equations; lia).
  assert (y / 400 = (y - 1) / 400 + Z.b2z (y mod 400 =? 0)) as ->
    by (destruct (Z.eqb_spec (y mod 400) 0); simpl;
        Z.div_mod_to_equations; lia).
  assert (y mod 100 = 0 -> y mod 4 = 0) by (Z.div_mod_to_equations; lia).
  assert (y mod 400 = 0 -> y mod 100 = 0) by (Z.div_mod_to_equations; lia).
  destruct (Z.eqb_spec (y mod 4) 0), (Z.eqb_spec (y mod 100) 0),
    (Z.eqb_spec (y mod 400) 0); simpl; lia.
Qed.

Lemma days_before_year_mono y y' :
  y <= y' -> _days_before_year y <= _days_before_year y'.
Proof. unfold _days_before_year. intros. Z.div_mod_to_equations. lia. Qed.

Lemma days_before_month_1 y : _days_before_month y 1 = 0.
Proof. reflexivity. Qed.

(** A date of the years 1 to 9999 has an ordinal [datetime] accepts. *)
Lemma ymd2ord_range y m d :
  MINYEAR <= y <= MAXYEAR -> 1 <= m <= 12 ->
  1 <= d <= _days_in_month y m ->
  0 < _ymd2ord y m d <= _MAXORDINAL /\
  (y < MAXYEAR \/ m < 12 \/ d < 31 -> _ymd2ord y m d + 1 <= _MAXORDINAL).
Proof.
  unfold MINYEAR, MAXYEAR, _MAXORDINAL. intros Hy Hm Hd.
  destruct (month_day_checked y m d Hm Hd) as (_ & Hn & Hlast & _).
  pose proof (days_before_year_mono 1 y ltac:(lia)) as Hlo.
  change (_days_before_year 1) with 0 in Hlo.
  pose proof (days_before_year_succ y) as Hs.
  unfold _ymd2ord. split; [split; [lia|] |].
  - pose proof (days_before_year_mono (y + 1) 10000 ltac:(lia)) as Hhi.
    change (_days_before_year 10000) with 3652059 in Hhi. lia.
  - intros Hnot.
    destruct (Z.eq_dec y 9999) as [-> | Hne].
    + change (_days_before_year 9999) with 3651694.
      change (_is_leap 9999) with false in *. simpl Z.b2z in *. lia.
    + pose proof (days_before_year_mono (y + 1) 9999 ltac:(lia)) as Hhi.
      change (_days_before_year 9999) with 3651694 in Hhi. lia.
Qed.

(** The ordinal after a date is the ordinal of the next civil day. *)
Lemma next_day_ordinal y m d :
  1 <= m <= 12 -> 1 <= d <= _days_in_month y m ->
  _ord2ymd (_ymd2ord y m d + 1) = Civil.next_day y m d.
Proof.
  intros Hm Hd.
  destruct (month_day_checked y m d Hm Hd) as (_ & Hn & _ & Hnext & Hlast).
  pose proof (days_in_month_le_31 y m Hm) as H31.
  unfold Civil.next_day. rewrite <- days_in_month_civil by assumption.
  destruct (Z.ltb_spec d (_days_in_month y m)) as [Hlt | Hge].
  - replace (_ymd2ord y m d + 1) with (_ymd2ord y m (d + 1))
      by (unfold _ymd2ord; lia).
    apply ord2ymd_ymd2ord; lia.
  - assert (d = _days_in_month y m) as Hd' by lia.
    destruct (Z.ltb_spec m 12) as [Hm12 | Hm12].
    + replace (_ymd2ord y m d + 1) with (_ymd2ord y (m + 1) 1)
        by (unfold _ymd2ord; specialize (Hnext Hd' Hm12); lia).
      apply ord2ymd_ymd2ord; [lia|].
      pose proof (days_in_month_le_31 y (m + 1) ltac:(lia)). lia.
    + assert (m = 12) as Hm' by lia.
      replace (_ymd2ord y m d + 1) with (_ymd2ord (y + 1) 1 1).
      * apply ord2ymd_ymd2ord; [lia|].
        pose proof (days_in_month_le_31 (y + 1) 1 ltac:(lia)). lia.
      * unfold _ymd2ord. rewrite days_before_year_succ, days_before_month_1.
        specialize (Hlast Hd' Hm'). lia.
Qed.


(** *** [datetime + timedelta] *)

Lemma timedelta_new_normal d s us mi h q :
  0 <= us < 1000000 ->
  86400 * q <= s + mi * 60 + h * 3600 < 86400 * q + 86400 ->
  timedelta_new d s us mi h =
  mk_timedelta (d + q) (s + mi * 60 + h * 3600 - 86400 * q) us.
Proof.
  intros Hus Hs. unfold timedelta_new.
  destruct (div_mod_by us 1000000 0 us) as [-> ->]; [lia | lia |].
  rewrite Z.add_0_r.
  destruct (div_mod_by (s + mi * 60 + h * 3600) 86400 q
              (s + mi * 60 + h * 3600 - 86400 * q)) as [-> ->];
    [lia | lia |].
  reflexivity.
Qed.

Lemma clock_fields h mi s :
  0 <= h < 24 -> 0 <= mi < 60 -> 0 <= s < 60 ->
  let t := s + mi * 60 + h * 3600 in
  t / 3600 = h /\ (t mod 3600) / 60 = mi /\ (t mod 3600) mod 60 = s.
Proof.
  intros Hh Hmi Hs t.
  destruct (div_mod_by t 3600 h (s + mi * 60)) as [-> ->];
    [lia | subst t; lia |].
  destruct (div_mod_by (s + mi * 60) 60 mi s) as [-> ->]; [lia | lia |].
  repeat split; reflexivity.
Qed.

(** Adding [timedelta(hours=0)] leaves the reading as it is. *)
Lemma add_zero now :
  valid now -> add now (timedelta_new 0 0 0 0 0) = Return now.
Proof.
  intros (Hy & Hm & Hd & Hh & Hmi & Hs & Hus).
  destruct now as [y m d h mi s us]. simpl in *.
  unfold add, toordinal, timedelta_add. 
  cbn [year month day hour minute second microsecond].
  rewrite (timedelta_new_normal _ s us mi h 0) by lia.
  change (timedelta_new 0 0 0 0 0) with (mk_timedelta 0 0 0).
  cbn [days seconds microseconds].
  rewrite (timedelta_new_normal _ _ _ 0 0 0) by lia.
  cbn [days seconds microseconds].
  destruct (ymd2ord_range y m d Hy Hm Hd) as [[Hlo Hhi] _].
  replace (_ymd2ord y m d + 0 + 0 + 0) with (_ymd2ord y m d) by lia.
  destruct (Z.ltb_spec 0 (_ymd2ord y m d)); [|lia].
  destruct (Z.leb_spec (_ymd2ord y m d) _MAXORDINAL); [|lia].
  simpl andb. cbv iota.
  rewrite ord2ymd_ymd2ord by assumption.
  destruct (clock_fields h mi s Hh Hmi Hs) as (H1 & H2 & H3).
  replace (s + mi * 60 + h * 3600 - 86400 * 0 + 0 + 0 * 60 + 0 * 3600
           - 86400 * 0) with (s + mi * 60 + h * 3600) by lia.
  rewrite H1, H2, H3. f_equal. f_equal. lia.
Qed.

(** Adding [timedelta(hours=1)] gives the next civil hour, with the
    minutes and seconds of the reading. *)
Lemma add_one_hour now :
  valid now -> has_next_hour now ->
  add now (timedelta_new 0 0 0 0 1) =
  Return (let '(y, m, d, h) :=
            Civil.next_hour (year now) (month now) (day now) (hour now) in
          mk_datetime y m d h (minute now) (second now) (microsecond now)).
Proof.
  intros (Hy & Hm & Hd & Hh & Hmi & Hs & Hus) Hnext.
  destruct now as [y m d h mi s us]. unfold has_next_hour in Hnext.
  simpl in *.
  unfold add, toordinal, timedelta_add. 
  cbn [year month day hour minute second microsecond].
  rewrite (timedelta_new_normal _ s us mi h 0) by lia.
  change (timedelta_new 0 0 0 0 1) with (mk_timedelta 0 3600 0).
  cbn [days seconds microseconds].
  destruct (ymd2ord_range y m d Hy Hm Hd) as [[Hlo Hhi] Hsucc].
  pose proof (days_in_month_le_31 y m Hm) as H31.
  unfold Civil.next_hour.
  destruct (Z.ltb_spec h 23) as [Hlt | Hge].
  - rewrite (timedelta_new_normal _ _ _ 0 0 0) by lia.
    cbn [days seconds microseconds].
    replace (_ymd2ord y m d + 0 + 0 + 0) with (_ymd2ord y m d) by lia.
    destruct (Z.ltb_spec 0 (_ymd2ord y m d)); [|lia].
    destruct (Z.leb_spec (_ymd2ord y m d) _MAXORDINAL); [|lia].
    simpl andb. cbv iota.
    rewrite ord2ymd_ymd2ord by assumption.
    destruct (clock_fields (h + 1) mi s ltac:(lia) Hmi Hs) as (H1 & H2 & H3).
    replace (s + mi * 60 + h * 3600 - 86400 * 0 + 3600 + 0 * 60 + 0 * 3600
             - 86400 * 0) with (s + mi * 60 + (h + 1) * 3600) by lia.
    rewrite H1, H2, H3. f_equal. f_equal. lia.
  - assert (h = 23) as -> by lia.
    rewrite (timedelta_new_normal _ _ _ 0 0 1) by lia.
    cbn [days seconds microseconds].
    replace (_ymd2ord y m d + 0 + 0 + 1) with (_ymd2ord y m d + 1) by lia.
    assert (_ymd2ord y m d + 1 <= _MAXORDINAL) as Hok
      by (apply Hsucc; unfold MAXYEAR in *; lia).
    destruct (Z.ltb_spec 0 (_ymd2ord y m d + 1)); [|lia].
    destruct (Z.leb_spec (_ymd2ord y m d + 1) _MAXORDINAL); [|lia].
    simpl andb. cbv iota.
    rewrite next_day_ordinal by assumption.
    destruct (Civil.next_day y m d) as [[y' m'] d'].
    destruct (clock_fields 0 mi s ltac:(lia) Hmi Hs) as (H1 & H2 & H3).
    replace (s + mi * 60 + 23 * 3600 - 86400 * 0 + 3600 + 0 * 60 + 0 * 3600
             - 86400 * 1) with (s + mi * 60 + 0 * 3600) by lia.
    rewrite H1, H2, H3. f_equal. f_equal. lia.
Qed.

End Calendar.

(** ** [get_ymdh] *)

Section GetYmdh.

Import Datetime.

Lemma numerals4_checked : forallb (numeral_ok 4) (Zrange 0 10000) = true.
Proof. vm_compute. reflexivity. Qed.

Lemma numerals2_checked : forallb (numeral_ok 2) (Zrange 0 100) = true.
Proof. vm_compute. reflexivity. Qed.

Lemma zfill4 n :
  0 <= n < 10000 -> Str.zfill 4 (Str.of_int n) = Civil.numeral 4 n.
Proof.
  intros Hn.
  pose proof (forallb_Zrange _ _ _ numerals4_checked n ltac:(lia)) as H.
  apply bool_decide_eq_true in H. exact H.
Qed.

Lemma zfill2 n :
  0 <= n < 100 -> Str.zfill 2 (Str.of_int n) = Civil.numeral 2 n.
Proof.
  intros Hn.
  pose proof (forallb_Zrange _ _ _ numerals2_checked n ltac:(lia)) as H.
  apply bool_decide_eq_true in H. exact H.
Qed.

Lemma numeral_length w n : length (Civil.numeral w n) = w.
Proof.
  revert n. induction w as [|w IH]; intros n; simpl; [reflexivity|].
  rewrite length_app, IH. simpl. lia.
Qed.

Lemma numeral_digits w n :
  Forall (fun c => Str.isdigit c = true) (Civil.numeral w n).
Proof.
  revert n. induction w as [|w IH]; intros n; simpl; [constructor|].
  apply Forall_app. split; [apply IH|].
  constructor; [|constructor].
  unfold Str.isdigit.
  assert (0 <= n mod 10 < 10) by (apply Z.mod_pos_bound; lia).
  apply andb_true_iff. split; apply N.leb_le; lia.
Qed.

Lemma isdigit_not_space c : Str.isdigit c = true -> Str.isspace c = false.
Proof.
  unfold Str.isdigit, Str.isspace. intros H.
  apply andb_true_iff in H as [H1 H2]. apply N.leb_le in H1, H2.
  repeat match goal with
         | |- context [N.leb ?a ?b] => destruct (N.leb_spec a b); try lia
         | |- context [N.eqb ?a ?b] => destruct (N.eqb_spec a b); try lia
         end; reflexivity.
Qed.

(** [split()] on words separated by single spaces. *)
Lemma split_ws_from_word cur w s :
  Forall (fun c => Str.isspace c = false) w ->
  Str.split_ws_from cur (w ++ s) = Str.split_ws_from (rev w ++ cur) s.
Proof.
  revert cur. induction w as [|c w IH]; intros cur Hw; [reflexivity|].
  inversion Hw as [|? ? Hc Hw']; subst. simpl. rewrite Hc.
  rewrite IH by assumption. rewrite <- app_assoc. reflexivity.
Qed.

Lemma split_ws_word w s :
  Forall (fun c => Str.isspace c = false) w -> w <> [] ->
  Str.split_ws (w ++ SPACE :: s) = w :: Str.split_ws s.
Proof.
  intros Hw Hne. unfold Str.split_ws.
  rewrite split_ws_from_word by assumption. rewrite app_nil_r. simpl.
  destruct (rev w) eqn:E.
  - apply (f_equal (@rev _)) in E. rewrite rev_involutive in E. contradiction.
  - rewrite <- E, rev_involutive. reflexivity.
Qed.

Lemma split_ws_last w :
  Forall (fun c => Str.isspace c = false) w -> w <> [] ->
  Str.split_ws w = [w].
Proof.
  intros Hw Hne. unfold Str.split_ws.
  rewrite <- (app_nil_r w) at 1.
  rewrite split_ws_from_word by assumption. rewrite app_nil_r. simpl.
  destruct (rev w) eqn:E.
  - apply (f_equal (@rev _)) in E. rewrite rev_involutive in E. contradiction.
  - rewrite <- E, rev_involutive. reflexivity.
Qed.

Lemma numeral_word w n :
  (0 < w)%nat ->
  Forall (fun c => Str.isspace c = false) (Civil.numeral w n) /\
  Civil.numeral w n <> [].
Proof.
  intros Hw. split.
  - eapply Forall_impl; [apply numeral_digits|].
    intros c. apply isdigit_not_space.
  - intros E. apply (f_equal (@length _)) in E.
    rewrite numeral_length in E. simpl in E. lia.
Qed.

Lemma strftime_ymdh t :
  strftime t (lit "%Y %m %d %H") =
  Str.zfill 4 (Str.of_int (year t)) ++ SPACE ::
  Str.zfill 2 (Str.of_int (month t)) ++ SPACE ::
  Str.zfill 2 (Str.of_int (day t)) ++ SPACE ::
  Str.zfill 2 (Str.of_int (hour t)).
Proof. unfold strftime. cbn. rewrite app_nil_r. reflexivity. Qed.

(** The strings [get_ymdh] makes of the fields of the time it formats. *)
Lemma get_ymdh_bucket next_hour now t :
  add now (timedelta_new 0 0 0 0 (Z.b2z next_hour)) = Return t ->
  0 <= year t < 10000 -> 0 <= month t < 100 -> 0 <= day t < 100 ->
  0 <= hour t < 100 ->
  get_ymdh next_hour now =
  Return (Civil.bucket (year t, month t, day t, hour t)).
Proof.
  intros Hadd Hy Hm Hd Hh. unfold get_ymdh. rewrite Hadd.
  cbn [mbind result_bind].
  rewrite strftime_ymdh, zfill4, !zfill2 by assumption.
  destruct (numeral_word 4 (year t)) as [? ?]; [lia|].
  destruct (numeral_word 2 (month t)) as [? ?]; [lia|].
  destruct (numeral_word 2 (day t)) as [? ?]; [lia|].
  destruct (numeral_word 2 (hour t)) as [? ?]; [lia|].
  rewrite !split_ws_word, split_ws_last by assumption.
  reflexivity.
Qed.

End GetYmdh.

Section TimeBuckets.

Import Datetime.

Lemma numeral_value w n : Civil.value (Civil.numeral w n) = n mod 10 ^ Z.of_nat w.
Proof.
  unfold Civil.value. revert n.
  induction w as [|w IH]; intros n.
  - simpl. rewrite Z.mod_1_r. reflexivity.
  - cbn [Civil.numeral]. rewrite fold_left_app. cbn [fold_left].
    rewrite IH.
    assert (0 <= n mod 10 < 10) by (apply Z.mod_pos_bound; lia).
    rewrite N2Z.inj_add, Z2N.id by lia.
    replace (Z.of_nat (S w)) with (1 + Z.of_nat w) by lia.
    rewrite Z.pow_add_r by lia. change (10 ^ 1) with 10.
    rewrite Z.rem_mul_r by lia. simpl Z.of_N. lia.
Qed.

Lemma next_hour_fields now :
  valid now -> has_next_hour now ->
  let '(y, m, d, h) :=
    Civil.next_hour (year now) (month now) (day now) (hour now) in
  1 <= y <= 9999 /\ 1 <= m <= 12 /\ 1 <= d <= 31 /\ 0 <= h <= 23.
Proof.
  intros (Hy & Hm & Hd & Hh & _) Hnext.
  unfold has_next_hour, MINYEAR, MAXYEAR in *.
  pose proof (days_in_month_le_31 (year now) (month now) Hm) as H31.
  unfold Civil.next_hour, Civil.next_day.
  rewrite <- days_in_month_civil by assumption.
  destruct (Z.ltb_spec (hour now) 23); [lia|].
  destruct (Z.ltb_spec (day now) (_days_in_month (year now) (month now)));
    [lia|].
  destruct (Z.ltb_spec (month now) 12); [lia|].
  assert (month now = 12) as Hm12 by lia.
  rewrite Hm12 in *.
  change (_days_in_month (year now) 12) with 31 in *. lia.
Qed.

Lemma get_ymdh_now now :
  valid now ->
  get_ymdh false now =
  Return (Civil.bucket (year now, month now, day now, hour now)).
Proof.
  intros Hv. pose proof Hv as (Hy & Hm & Hd & Hh & _).
  unfold MINYEAR, MAXYEAR in *.
  pose proof (days_in_month_le_31 (year now) (month now) Hm) as H31.
  apply get_ymdh_bucket; [apply add_zero; assumption | lia ..].
Qed.

Lemma get_ymdh_next now :
  valid now -> has_next_hour now ->
  get_ymdh true now =
  Return (Civil.bucket
            (Civil.next_hour (year now) (month now) (day now) (hour now))).
Proof.
  intros Hv Hnext.
  pose proof (next_hour_fields now Hv Hnext) as Hf.
  pose proof (add_one_hour now Hv Hnext) as Hadd.
  destruct (Civil.next_hour (year now) (month now) (day now) (hour now))
    as [[[y m] d] h].
  rewrite (get_ymdh_bucket true now _ Hadd); cbn [year month day hour];
    [reflexivity | lia ..].
Qed.


Lemma new_years_eve_valid : valid new_years_eve.
Proof. repeat split; vm_compute; congruence. Defined.

Lemma new_years_eve_has_next : has_next_hour new_years_eve.
Proof. unfold has_next_hour, new_years_eve, MAXYEAR. cbn. lia. Defined.


(** The example of the specification: at 23:59 on 31 December the next
    bucket is hour 00 of 1 January of the next year. *)
Lemma get_ymdh_new_year y s us :
  1 <= y < 9999 -> 0 <= s < 60 -> 0 <= us < 1000000 ->
  get_ymdh true (mk_datetime y 12 31 23 59 s us) =
  Return (Civil.numeral 4 (y + 1), lit "01", lit "01", lit "00").
Proof.
  intros Hy Hs Hus.
  rewrite get_ymdh_next.
  - cbn [year month day hour]. unfold Civil.next_hour, Civil.next_day.
    change (Civil.month_length y 12) with 31. reflexivity.
  - unfold valid, MINYEAR, MAXYEAR. cbn [year month day hour minute second microsecond].
    change (_days_in_month y 12) with 31. lia.
  - left. unfold MAXYEAR. cbn. lia.
Qed.

(** C5.  [get_ymdh] is a function of the reading of the clock and of the
    flag, and what it returns is zero-padded: the year in four decimal
    digits, the month, the day and the hour in two, each the numeral of
    a field of the reading or of the hour after it. *)
Theorem get_ymdh_zero_padded next_hour now :
  valid now -> (next_hour = true -> has_next_hour now) ->
  exists year month day hour : str,
    get_ymdh next_hour now = Return (year, month, day, hour) /\
    (forall now', now' = now ->
       get_ymdh next_hour now' = Return (year, month, day, hour)) /\
    length year = 4%nat /\ length month = 2%nat /\
    length day = 2%nat /\ length hour = 2%nat /\
    Forall (fun c => Str.isdigit c = true) (year ++ month ++ day ++ hour) /\
    1 <= Civil.value year <= 9999 /\ 1 <= Civil.value month <= 12 /\
    1 <= Civil.value day <= 31 /\ 0 <= Civil.value hour <= 23 /\
    (next_hour = false ->
     Civil.value year = Datetime.year now /\
     Civil.value month = Datetime.month now /\
     Civil.value day = Datetime.day now /\
     Civil.value hour = Datetime.hour now).
Proof.
  intros Hv Hnext.
  assert (exists y m d h,
             get_ymdh next_hour now = Return (Civil.bucket (y, m, d, h)) /\
             1 <= y <= 9999 /\ 1 <= m <= 12 /\ 1 <= d <= 31 /\
             0 <= h <= 23 /\
             (next_hour = false ->
              y = Datetime.year now /\ m = Datetime.month now /\
              d = Datetime.day now /\ h = Datetime.hour now))
    as (y & m & d & h & Hget & Hy & Hm & Hd & Hh & Hsame).
  { destruct next_hour.
    - pose proof (next_hour_fields now Hv (Hnext eq_refl)) as Hf.
      pose proof (get_ymdh_next now Hv (Hnext eq_refl)) as Hg.
      destruct (Civil.next_hour _ _ _ _) as [[[y m] d] h].
      exists y, m, d, h. repeat split; try assumption; try lia; discriminate.
    - pose proof Hv as (Hy & Hm & Hd & Hh & _).
      unfold MINYEAR, MAXYEAR in *.
      pose proof (days_in_month_le_31 (Datetime.year now) (Datetime.month now) Hm) as H31.
      exists (Datetime.year now), (Datetime.month now),
        (Datetime.day now), (Datetime.hour now).
      repeat split; try lia. apply get_ymdh_now, Hv. }
  exists (Civil.numeral 4 y), (Civil.numeral 2 m), (Civil.numeral 2 d),
    (Civil.numeral 2 h).
  rewrite !numeral_length, !numeral_value.
  change (10 ^ Z.of_nat 4) with 10000. change (10 ^ Z.of_nat 2) with 100.
  rewrite !Z.mod_small by lia.
  split; [exact Hget|]. split; [intros now' ->; exact Hget|].
  repeat (split; [reflexivity|]).
  split; [rewrite !Forall_app; repeat split; apply numeral_digits|].
  repeat (split; [lia|]). exact Hsame.
Qed.

Lemma get_ymdh_zero_padded_witness :
  exists year month day hour : str,
    get_ymdh true new_years_eve = Return (year, month, day, hour) /\
    (forall now', now' = new_years_eve ->
       get_ymdh true now' = Return (year, month, day, hour)) /\
    length year = 4%nat /\ length month = 2%nat /\
    length day = 2%nat /\ length hour = 2%nat /\
    Forall (fun c => Str.isdigit c = true) (year ++ month ++ day ++ hour) /\
    1 <= Civil.value year <= 9999 /\ 1 <= Civil.value month <= 12 /\
    1 <= Civil.value day <= 31 /\ 0 <= Civil.value hour <= 23 /\
    (true = false ->
     Civil.value year = Datetime.year new_years_eve /\
     Civil.value month = Datetime.month new_years_eve /\
     Civil.value day = Datetime.day new_years_eve /\
     Civil.value hour = Datetime.hour new_years_eve).
Proof.
  exact (get_ymdh_zero_padded true new_years_eve new_years_eve_valid
           (fun _ => new_years_eve_has_next)).
Defined.

End TimeBuckets.

(** ** The zone: instants and readings of the wall clock *)

Section Zone.

Import Datetime.

(** The day after a date is a date, and its ordinal is the next one. *)
Lemma ymd2ord_next_day y m d :
  1 <= m <= 12 -> 1 <= d <= _days_in_month y m ->
  let '(y', m', d') := Civil.next_day y m d in
  _ymd2ord y' m' d' = _ymd2ord y m d + 1 /\
  1 <= m' <= 12 /\ 1 <= d' <= _days_in_month y' m' /\
  y <= y' <= y + 1 /\ (y' = y + 1 -> m = 12 /\ d = 31).
Proof.
  intros Hm Hd.
  destruct (month_day_checked y m d Hm Hd) as (_ & Hn & _ & Hnext & Hlast).
  pose proof (days_in_month_le_31 y m Hm) as H31.
  unfold Civil.next_day. rewrite <- days_in_month_civil by assumption.
  destruct (Z.ltb_spec d (_days_in_month y m)) as [Hlt | Hge].
  - unfold _ymd2ord. repeat split; lia.
  - assert (d = _days_in_month y m) as Hd' by lia.
    destruct (Z.ltb_spec m 12) as [Hm12 | Hm12].
    + pose proof (days_in_month_le_31 y (m + 1) ltac:(lia)) as H31'.
      assert (1 <= _days_in_month y (m + 1)) as Hpos.
      { unfold _days_in_month, item.
        assert (m = 1 \/ m = 2 \/ m = 3 \/ m = 4 \/ m = 5 \/ m = 6 \/ m = 7
                \/ m = 8 \/ m = 9 \/ m = 10 \/ m = 11) as Hc by lia.
        destruct ((m + 1 =? 2) && _is_leap y); [lia|].
        repeat (destruct Hc as [-> | Hc]; [simpl; lia|]). subst. simpl. lia. }
      specialize (Hnext Hd' Hm12). unfold _ymd2ord. repeat split; lia.
    + assert (m = 12) as Hm' by lia. specialize (Hlast Hd' Hm').
      subst m. change (_days_in_month y 12) with 31 in *.
      unfold _ymd2ord. rewrite days_before_year_succ, days_before_month_1.
      change (_days_in_month (y + 1) 1) with 31.
      repeat split; lia.
Qed.

(** Every ordinal of the calendar is the ordinal of a date. *)
Lemma date_of_ordinal n :
  0 < n <= _MAXORDINAL ->
  exists y m d,
    MINYEAR <= y <= MAXYEAR /\ 1 <= m <= 12 /\
    1 <= d <= _days_in_month y m /\ _ymd2ord y m d = n.
Proof.
  intros Hn. replace n with (n - 1 + 1) in * by lia.
  assert (0 <= n - 1) as Hk by lia. revert Hn.
  generalize dependent (n - 1). clear n. intros k Hk.
  pattern k. apply natlike_ind; [| |exact Hk]; clear k Hk.
  - intros _. exists 1, 1, 1. unfold MINYEAR, MAXYEAR.
    change (_days_in_month 1 1) with 31. change (_ymd2ord 1 1 1) with 1.
    repeat split; lia.
  - intros k Hk IH Hn.
    destruct IH as (y & m & d & Hy & Hm & Hd & Hord); [lia|].
    pose proof (ymd2ord_next_day y m d Hm Hd) as Hnext.
    destruct (Civil.next_day y m d) as [[y' m'] d'].
    destruct Hnext as (Hord' & Hm' & Hd' & Hy' & Hroll).
    exists y', m', d'. unfold MINYEAR, MAXYEAR in *.
    repeat split; try lia.
    destruct (Z.eq_dec y' 10000) as [E|]; [|lia].
    destruct Hroll as [-> ->]; [lia|]. assert (y = 9999) as -> by lia.
    change (_ymd2ord 9999 12 31) with _MAXORDINAL in Hord. lia.
Qed.

Lemma toordinal_bounds t :
  valid t ->
  _days_before_year (year t) < toordinal t <= _days_before_year (year t + 1).
Proof.
  intros (Hy & Hm & Hd & _).
  destruct (month_day_checked (year t) (month t) (day t) Hm Hd)
    as (_ & Hn & _).
  unfold toordinal, _ymd2ord. rewrite days_before_year_succ. lia.
Qed.

(** Readings are told apart by their seconds and microseconds. *)
Lemma stamp_inj a b :
  valid a -> valid b -> stamp a = stamp b ->
  microsecond a = microsecond b -> a = b.
Proof.
  intros (_ & Hma & Hda & Hha & Hmia & Hsa & _)
         (_ & Hmb & Hdb & Hhb & Hmib & Hsb & _).
  destruct a as [ya ma da ha mia sa usa], b as [yb mb db hb mib sb usb].
  unfold stamp, toordinal.
  cbn [year month day hour minute second microsecond] in *.
  intros Hstamp ->.
  assert (_ymd2ord ya ma da = _ymd2ord yb mb db) as Hord by lia.
  assert (ha = hb) as -> by lia. assert (mia = mib) as -> by lia.
  assert (sa = sb) as -> by lia.
  pose proof (ord2ymd_ymd2ord ya ma da Hma Hda) as Ea.
  rewrite Hord, (ord2ymd_ymd2ord yb mb db Hmb Hdb) in Ea.
  injection Ea as <- <- <-. reflexivity.
Qed.

(** [t + timedelta(hours=k)] is the reading [k] hours later, while it is
    in the calendar. *)
Lemma add_hours t k :
  valid t ->
  86400 <= stamp t + 3600 * k < (_MAXORDINAL + 1) * 86400 ->
  exists t',
    add t (timedelta_new 0 0 0 0 k) = Return t' /\ valid t'
    /\ stamp t' = stamp t + 3600 * k /\ microsecond t' = microsecond t.
Proof.
  intros (Hy & Hm & Hd & Hh & Hmi & Hs & Hus).
  destruct t as [y m d h mi s us]. unfold stamp, toordinal.
  cbn [year month day hour minute second microsecond] in *.
  intros Hrange.
  unfold add, toordinal, timedelta_add.
  cbn [year month day hour minute second microsecond].
  rewrite (timedelta_new_normal _ s us mi h 0) by lia.
  rewrite (timedelta_new_normal 0 0 0 0 k (k * 3600 / 86400))
    by (Z.div_mod_to_equations; lia).
  cbn [days seconds microseconds].
  set (total := s + mi * 60 + h * 3600 - 86400 * 0
                + (0 + 0 * 60 + k * 3600 - 86400 * (k * 3600 / 86400))).
  rewrite (timedelta_new_normal _ total (us + 0) 0 0 (total / 86400))
    by (Z.div_mod_to_equations; lia).
  cbn [days seconds microseconds].
  set (D := _ymd2ord y m d + 0 + (0 + k * 3600 / 86400) + total / 86400).
  set (S := total + 0 * 60 + 0 * 3600 - 86400 * (total / 86400)).
  assert (0 <= S < 86400) as HS
    by (subst S; Z.div_mod_to_equations; lia).
  assert (D * 86400 + S = _ymd2ord y m d * 86400 + h * 3600 + mi * 60 + s
                          + 3600 * k) as Hsum
    by (subst D S total; Z.div_mod_to_equations; lia).
  assert (0 < D <= _MAXORDINAL) as HD by lia.
  destruct (Z.ltb_spec 0 D); [|lia].
  destruct (Z.leb_spec D _MAXORDINAL); [|lia].
  simpl andb. cbv iota.
  destruct (date_of_ordinal D HD) as (y' & m' & d' & Hy' & Hm' & Hd' & Hord).
  rewrite <- Hord, ord2ymd_ymd2ord by assumption.
  eexists. split; [reflexivity|].
  unfold valid. cbn [year month day hour minute second microsecond].
  split; [|split; [|lia]].
  - repeat split; try lia; Z.div_mod_to_equations; lia.
  - rewrite Hord. Z.div_mod_to_equations. lia.
Qed.

(** The readings of the years the zone covers are well inside the
    calendar. *)
Lemma covers_stamp utc :
  valid utc -> Eastern.covers utc ->
  732677 * 86400 <= stamp utc < 744000 * 86400.
Proof.
  intros Hv [Hlo Hhi]. pose proof (toordinal_bounds utc Hv) as Hord.
  destruct Hv as (_ & _ & _ & Hh & Hmi & Hs & _).
  pose proof (days_before_year_mono 2007 (year utc) Hlo) as H1.
  pose proof (days_before_year_mono (year utc + 1) 2038 ltac:(lia)) as H2.
  change (_days_before_year 2007) with 732676 in H1.
  change (_days_before_year 2038) with 743999 in H2.
  unfold stamp. lia.
Qed.

(** An hour in which the offset of the zone does not change: the
    reading of the wall clock at its end is the reading at its start
    plus [timedelta(hours=1)]. *)
Lemma hour_after_same_offset utc later :
  valid utc -> Eastern.covers utc ->
  hour_after utc = Return later -> Eastern.dst later = Eastern.dst utc ->
  exists now later_now,
    Eastern.fromutc utc = Return now
    /\ Eastern.fromutc later = Return later_now
    /\ valid now /\ valid later_now
    /\ add now (timedelta_new 0 0 0 0 1) = Return later_now.
Proof.
  intros Hv Hcov Hlater Hdst.
  pose proof (covers_stamp utc Hv Hcov) as Hstamp.
  unfold Eastern.fromutc, Eastern.utcoffset. rewrite Hdst.
  set (k := if Eastern.dst utc then -4 else -5).
  assert (-5 <= k <= -4) as Hk by (subst k; destruct (Eastern.dst utc); lia).
  unfold hour_after in Hlater.
  destruct (add_hours utc 1 Hv ltac:(unfold _MAXORDINAL; lia))
    as (later' & Hadd & Hvl & Hsl & Husl).
  rewrite Hadd in Hlater. injection Hlater as ->.
  destruct (add_hours utc k Hv ltac:(unfold _MAXORDINAL; lia))
    as (now & Hnow & Hvn & Hsn & Husn).
  destruct (add_hours later k Hvl ltac:(unfold _MAXORDINAL; lia))
    as (later_now & Hln & Hvln & Hsln & Husln).
  destruct (add_hours now 1 Hvn ltac:(unfold _MAXORDINAL; lia))
    as (next & Hnext & Hvnext & Hsnext & Husnext).
  exists now, later_now.
  split; [exact Hnow|]. split; [exact Hln|]. split; [exact Hvn|].
  split; [exact Hvln|].
  rewrite Hnext. f_equal. apply stamp_inj; [assumption | assumption | lia|].
  congruence.
Qed.


End Zone.

(** ** [str] methods *)

Section StrFacts.

Lemma split_on_nonempty sep s : Str.split_on sep s <> [].
Proof.
  destruct s as [|c s]; simpl; [discriminate|].
  destruct (c =? sep)%N; [discriminate|].
  destruct (Str.split_on sep s); discriminate.
Qed.

(** [sep.join(s.split(sep)) == s]. *)
Lemma join_split_on sep s : Str.join [sep] (Str.split_on sep s) = s.
Proof.
  induction s as [|c s IH]; [reflexivity|]. simpl.
  destruct (N.eqb_spec c sep) as [-> | Hne].
  - pose proof (split_on_nonempty sep s) as Hs.
    destruct (Str.split_on sep s) as [|p ps] eqn:E; [contradiction|].
    cbn [Str.join]. cbn [Str.join] in IH.
    destruct ps; simpl in *; rewrite IH; reflexivity.
  - pose proof (split_on_nonempty sep s) as Hs.
    destruct (Str.split_on sep s) as [|p ps] eqn:E; [contradiction|].
    cbn [Str.join] in *. destruct ps; simpl in *; rewrite IH; reflexivity.
Qed.

(** A split at a character the pieces do not contain gives the pieces
    back. *)
Lemma split_on_join sep p ps :
  Forall (fun l => sep ∉ l) (p :: ps) ->
  Str.split_on sep (Str.join [sep] (p :: ps)) = p :: ps.
Proof.
  revert p. induction ps as [|p' ps IH]; intros p Hall.
  - cbn [Str.join]. inversion Hall as [|? ? Hp _]; subst. clear Hall.
    induction p as [|c p IHp]; [reflexivity|]. simpl.
    destruct (N.eqb_spec c sep) as [-> | Hne]; [exfalso; apply Hp; left|].
    rewrite IHp; [reflexivity|]. intros Hin. apply Hp. right. exact Hin.
  - inversion Hall as [|? ? Hp Hrest]; subst.
    change (Str.join [sep] (p :: p' :: ps))
      with (p ++ [sep] ++ Str.join [sep] (p' :: ps)).
    specialize (IH p' Hrest). clear Hall.
    induction p as [|c p IHp].
    + simpl. rewrite N.eqb_refl. simpl in IH. rewrite IH. reflexivity.
    + simpl. destruct (N.eqb_spec c sep) as [-> | Hne];
        [exfalso; apply Hp; left|].
      simpl in IHp. rewrite IHp; [reflexivity|].
      intros Hin. apply Hp. right. exact Hin.
Qed.

End StrFacts.

(** ** [nvidia_smi] *)

Section CudaProbe.

Import Cuda.

Lemma first_part_major t :
  first_part (Str.split_on DOT t) = Return (major_component t).
Proof.
  assert (exists rest, Str.split_on DOT t = major_component t :: rest)
    as [rest ->]; [|reflexivity].
  induction t as [|c t [rest IH]]; simpl; [eexists; reflexivity|].
  unfold DOT in *. destruct (c =? 46)%N; [eexists; reflexivity|].
  rewrite IH. eexists; reflexivity.
Qed.

Lemma cuda_parts t :
  Str.split_on DOT t = [lit "12"; lit "2"] <-> t = lit "12.2".
Proof.
  split.
  - intros H. rewrite <- (join_split_on DOT t), H. reflexivity.
  - intros ->. reflexivity.
Qed.

Lemma field_parts_text root name :
  field_parts root name =
  match field_text root name with
  | Some t => Return (Str.split_on DOT t)
  | None =>
    Raise (none_has_no (match find root name with
                        | None => "text"
                        | Some _ => "split"
                        end))
  end.
Proof.
  unfold field_parts, field_text.
  destruct (find root name) as [e|]; [|reflexivity].
  destruct (text e); reflexivity.
Qed.

(** C7.  [nvidia_smi] completes without error exactly when the plain
    [nvidia-smi] command exits with code zero, the query command runs and
    its output parses, the major component of the [driver_version] field
    is [535] and the [cuda_version] field is [12.2].  A non-zero exit code
    raises [AssertionError] after that one command, and a field that does
    not match raises [AssertionError] after the two commands: nothing is
    run again. *)
Theorem nvidia_smi_completes_iff env :
  ((nvidia_smi env).2 = Return tt <->
   exists shown queried root driver cuda,
     subprocess_run env smi = Return shown /\ returncode shown = 0 /\
     subprocess_run env smi_query = Return queried /\
     ET_fromstring env (stdout queried) = Return root /\
     field_text root (lit "driver_version") = Some driver /\
     major_component driver = lit "535" /\
     field_text root (lit "cuda_version") = Some cuda /\
     cuda = lit "12.2")
  /\ (forall shown,
        subprocess_run env smi = Return shown -> returncode shown <> 0 ->
        nvidia_smi env = ([smi], Raise assertion_error))
  /\ (forall shown queried root driver cuda,
        subprocess_run env smi = Return shown -> returncode shown = 0 ->
        subprocess_run env smi_query = Return queried ->
        ET_fromstring env (stdout queried) = Return root ->
        field_text root (lit "driver_version") = Some driver ->
        field_text root (lit "cuda_version") = Some cuda ->
        major_component driver <> lit "535" \/ cuda <> lit "12.2" ->
        nvidia_smi env = ([smi; smi_query], Raise assertion_error)).
Proof.
  unfold nvidia_smi. repeat split.
  - (* completes: every step went through *)
    destruct (subprocess_run env smi) as [shown|e] eqn:Hs; [|discriminate].
    destruct (decide (returncode shown = 0)) as [Hrc|Hrc];
      [rewrite bool_decide_eq_true_2 by assumption
      |rewrite bool_decide_eq_false_2 by assumption; discriminate].
    cbn [negb snd mbind result_bind].
    destruct (subprocess_run env smi_query) as [queried|e] eqn:Hq;
      [|discriminate].
    cbn [mbind result_bind].
    destruct (ET_fromstring env (stdout queried)) as [root|e] eqn:Hroot;
      [|discriminate].
    cbn [mbind result_bind]. rewrite !field_parts_text.
    destruct (field_text root (lit "driver_version")) as [driver|] eqn:Hdrv;
      [|discriminate].
    cbn [mbind result_bind]. rewrite first_part_major. cbn [mbind result_bind].
    unfold str_eqb.
    destruct (decide (major_component driver = lit "535")) as [Hd|Hd];
      [rewrite (bool_decide_eq_true_2 _ Hd)
      |rewrite (bool_decide_eq_false_2 _ Hd); discriminate].
    cbn [assert mbind result_bind].
    destruct (field_text root (lit "cuda_version")) as [cuda|] eqn:Hcuda;
      [|discriminate].
    cbn [mbind result_bind].
    destruct (decide (Str.split_on DOT cuda = [lit "12"; lit "2"])) as [Hc|Hc];
      [|rewrite (bool_decide_eq_false_2 _ Hc); discriminate].
    intros _. exists shown, queried, root, driver, cuda.
    repeat split; try assumption; try reflexivity. apply cuda_parts, Hc.
  - intros (shown & queried & root & driver & cuda & -> & Hrc & Hq & Hroot
            & Hd & Hmajor & Hc & ->).
    rewrite bool_decide_eq_true_2 by assumption.
    cbn [negb snd]. rewrite Hq. cbn [mbind result_bind]. rewrite Hroot.
    cbn [mbind result_bind]. rewrite !field_parts_text, Hd, Hc.
    cbn [mbind result_bind]. rewrite first_part_major, Hmajor. reflexivity.
  - intros shown -> Hrc.
    rewrite bool_decide_eq_false_2 by assumption. reflexivity.
  - intros shown queried root driver cuda -> Hrc -> Hroot Hd Hc Hbad.
    rewrite bool_decide_eq_true_2 by assumption.
    cbn [negb mbind result_bind]. rewrite Hroot.
    cbn [mbind result_bind]. rewrite !field_parts_text, Hd, Hc.
    cbn [mbind result_bind]. rewrite first_part_major.
    cbn [mbind result_bind]. unfold str_eqb.
    destruct (decide (major_component driver = lit "535")) as [Hm|Hm];
      [rewrite (bool_decide_eq_true_2 _ Hm)
      |rewrite (bool_decide_eq_false_2 _ Hm); reflexivity].
    cbn [assert mbind result_bind].
    destruct Hbad as [Hbad|Hbad]; [contradiction|].
    rewrite bool_decide_eq_false_2; [reflexivity|].
    intros Hsplit. apply Hbad, cuda_parts, Hsplit.
Qed.

(** The probe completes in the container of [sample_env]. *)
Lemma nvidia_smi_completes_iff_witness :
  (nvidia_smi sample_env).2 = Return tt.
Proof.
  apply (proj1 (nvidia_smi_completes_iff sample_env)).
  exists (mk_completed 0 []), (mk_completed 0 []), sample_document,
    (lit "535.129.03"), (lit "12.2").
  repeat split; reflexivity.
Defined.

End CudaProbe.

(** ** Text and its encoding *)

Section Encoding.

Lemma latin_encodable s : Latin s -> Encodable s.
Proof.
  intros Hs. eapply Forall_impl; [exact Hs|]. clear Hs.
  intros c Hc. cbv beta in Hc. unfold Utf8.encodable, Utf8.is_surrogate.
  apply andb_true_iff. split.
  - apply negb_true_iff, andb_false_iff. left. apply N.leb_gt. lia.
  - apply N.ltb_lt. lia.
Qed.

Lemma lit_latin s : Latin (lit s).
Proof.
  unfold Latin, lit. apply Forall_forall. intros c Hc.
  apply list_elem_of_In, in_map_iff in Hc as (a & <- & _).
  apply N_ascii_bounded.
Qed.

Lemma latin_app s t : Latin s -> Latin t -> Latin (s ++ t).
Proof. intros Hs Ht. apply Forall_app; split; assumption. Qed.

Lemma digits_fuel_latin fuel n acc :
  Latin acc -> Latin (Str.digits_fuel fuel n acc).
Proof.
  revert n acc. induction fuel as [|fuel IH]; intros n acc Hacc; simpl.
  - constructor; [|assumption].
    unfold Str.ZERO. pose proof (N.mod_lt n 10 ltac:(discriminate)). lia.
  - assert (Latin ((Str.ZERO + n mod 10)%N :: acc)) as Hacc'.
    { constructor; [|assumption].
      unfold Str.ZERO. pose proof (N.mod_lt n 10 ltac:(discriminate)). lia. }
    destruct (n / 10 =? 0)%N; [assumption | apply IH, Hacc'].
Qed.

Lemma of_int_latin z : Latin (Str.of_int z).
Proof.
  unfold Str.of_int, Str.digits.
  destruct (z <? 0).
  - apply latin_app; [apply lit_latin | apply digits_fuel_latin; constructor].
  - apply digits_fuel_latin. constructor.
Qed.

Lemma numeral_latin w n : Latin (Civil.numeral w n).
Proof.
  eapply Forall_impl; [apply numeral_digits|].
  intros c Hc. cbv beta in Hc. unfold Str.isdigit in Hc.
  apply andb_true_iff in Hc as [_ Hc]. apply N.leb_le in Hc. lia.
Qed.

Lemma join_latin sep parts :
  Latin sep -> Forall Latin parts -> Latin (Str.join sep parts).
Proof.
  intros Hsep Hparts. induction Hparts as [|p ps Hp Hps IH]; [constructor|].
  destruct ps as [|p' ps]; [exact Hp|].
  change (Latin (p ++ sep ++ Str.join sep (p' :: ps))).
  repeat apply latin_app; assumption.
Qed.

Lemma encode_from_ok pos s :
  Encodable s -> exists data, Utf8.encode_from pos s = Return data.
Proof.
  intros Hs. revert pos.
  induction Hs as [|c s Hc Hs IH]; intros pos; [eexists; reflexivity|].
  simpl. rewrite Hc. destruct (IH (pos + 1)) as [data ->].
  eexists; reflexivity.
Qed.

Lemma encode_ok s : Encodable s -> exists data, Utf8.encode s = Return data.
Proof. apply encode_from_ok. Qed.

Lemma encode_from_raises s :
  forall pos e,
    Utf8.encode_from pos s = Raise e -> exn_cls e = UnicodeEncodeError.
Proof.
  induction s as [|c s IH]; intros pos e; [discriminate|].
  cbn [Utf8.encode_from]. destruct (Utf8.encodable c).
  - destruct (Utf8.encode_from (pos + 1) s) eqn:E; [discriminate|].
    intros [= <-]. exact (IH _ _ E).
  - intros [= <-]. reflexivity.
Qed.

(** What the strict encoder accepts, the escaping one encodes alike. *)
Lemma encode_escaping_from_strict s :
  forall pos data,
    Utf8.encode_from pos s = Return data ->
    Utf8.encode_escaping_from pos s = Return data.
Proof.
  induction s as [|c s IH]; intros pos data; [intros H; exact H|].
  cbn [Utf8.encode_from Utf8.encode_escaping_from].
  destruct (Utf8.encodable c); [|discriminate].
  destruct (Utf8.encode_from (pos + 1) s) as [bs|e] eqn:E; [|discriminate].
  rewrite (IH _ _ E). intros H. exact H.
Qed.

Lemma encode_escaping_from_raises s :
  forall pos e,
    Utf8.encode_escaping_from pos s = Raise e ->
    exn_cls e = UnicodeEncodeError.
Proof.
  induction s as [|c s IH]; intros pos e; [discriminate|].
  cbn [Utf8.encode_escaping_from]. destruct (Utf8.encodable c).
  - destruct (Utf8.encode_escaping_from (pos + 1) s) eqn:E; [discriminate|].
    intros [= <-]. exact (IH _ _ E).
  - destruct (Utf8.escaped c).
    + destruct (Utf8.encode_escaping_from (pos + 1) s) eqn:E;
        [discriminate|].
      intros [= <-]. exact (IH _ _ E).
    + intros [= <-]. reflexivity.
Qed.

Lemma print_ok s w :
  Encodable s -> print s w = (mk_world (vol w) (out w ++ [s]), Return tt).
Proof.
  intros Hs. unfold print, Utf8.encode_escaping.
  destruct (encode_ok s Hs) as [data Hdata].
  rewrite (encode_escaping_from_strict _ _ _ Hdata). reflexivity.
Qed.

(** [print] writes the line or raises a [UnicodeEncodeError] with nothing
    written. *)
Lemma print_cases s w :
  print s w = (mk_world (vol w) (out w ++ [s]), Return tt)
  \/ exists e, print s w = (w, Raise e) /\ exn_cls e = UnicodeEncodeError
                /\ Utf8.encode_escaping s = Raise e.
Proof.
  unfold print. destruct (Utf8.encode_escaping s) as [data|e] eqn:E.
  - left. reflexivity.
  - right. exists e. repeat split.
    exact (encode_escaping_from_raises _ _ _ E).
Qed.

End Encoding.

(** ** Computations that keep to a part of the volume *)

Section Confined.

Context {A B : Type}.

Lemma grows_refl C W v : grows C W v v.
Proof. repeat split; auto. Qed.

Lemma grows_trans C W v v' v'' :
  grows C W v v' -> grows C W v' v'' -> grows C W v v''.
Proof.
  intros (O1 & N1 & K1) (O2 & N2 & K2). repeat split.
  - intros p n Hw Hp. apply O2, O1; assumption.
  - intros p n Hw Hp. destruct (N2 p n Hw Hp) as [Hp' | Hc]; [|right; exact Hc].
    apply N1; assumption.
  - intros p Hp. apply K2, K1, Hp.
Qed.

Lemma grows_mono (C C' W W' : Path -> Prop) v v' :
  (forall p, C p -> C' p) -> (forall p, W p -> W' p) ->
  grows C W v v' -> grows C' W' v v'.
Proof.
  intros HC HW (O & N & K). repeat split; [| |exact K].
  - intros p n Hw. apply O. auto.
  - intros p n Hw Hp. destruct (N p n ltac:(auto) Hp) as [? | [? ?]]; auto.
Qed.

(** Outside [C] and [W] the volume is as before. *)
Lemma grows_frame C W v v' (p : Path) :
  grows C W v v' -> ~ C p -> ~ W p -> v' !! p = v !! p.
Proof.
  intros (O & N & _) Hc Hw.
  destruct (v !! p) as [n|] eqn:E; [apply O; assumption|].
  destruct (v' !! p) as [n|] eqn:E'; [|reflexivity].
  destruct (N p n Hw E') as [H | [H _]]; [congruence | contradiction].
Qed.

Lemma confined_same C W (m : M A) :
  (forall w, vol (m w).1 = vol w) -> confined C W m.
Proof. intros H w. rewrite H. apply grows_refl. Qed.

Lemma confined_mono (C C' W W' : Path -> Prop) (m : M A) :
  (forall p, C p -> C' p) -> (forall p, W p -> W' p) ->
  confined C W m -> confined C' W' m.
Proof. intros HC HW Hm w. eapply grows_mono; [exact HC | exact HW | apply Hm]. Qed.

Lemma confined_ret C W (a : A) : confined C W (mret a).
Proof. apply confined_same. reflexivity. Qed.

Lemma confined_lift C W (r : result A) : confined C W (lift r).
Proof. apply confined_same. reflexivity. Qed.

Lemma confined_raise C W e : confined C W (raise e : M A).
Proof. apply confined_same. reflexivity. Qed.

Lemma confined_bind C W (m : M A) (k : A -> M B) :
  confined C W m -> (forall a, confined C W (k a)) -> confined C W (m ≫= k).
Proof.
  intros Hm Hk w. unfold mbind, M_bind.
  pose proof (Hm w) as H1.
  destruct (m w) as [w' [a|e]]; simpl in *; [|exact H1].
  eapply grows_trans; [exact H1 | apply (Hk a w')].
Qed.

Lemma confined_handle C W (handlers : list (exn_class * (exn -> M A))) e :
  Forall (fun h => forall e, confined C W (h.2 e)) handlers ->
  confined C W (handle handlers e).
Proof.
  intros Hh. induction Hh as [|[c h] hs Hc Hhs IH]; simpl.
  - apply confined_raise.
  - destruct (isinstance e c); [apply Hc | apply IH].
Qed.

Lemma confined_try_except C W (body : M A) handlers :
  confined C W body ->
  Forall (fun h => forall e, confined C W (h.2 e)) handlers ->
  confined C W (try_except body handlers).
Proof.
  intros Hbody Hh w. unfold try_except.
  pose proof (Hbody w) as H1.
  destruct (body w) as [w' [a|e]]; simpl in *; [exact H1|].
  eapply grows_trans; [exact H1 | apply (confined_handle C W handlers e Hh w')].
Qed.

Lemma confined_try_except1 C W (body : M A) c h :
  confined C W body -> (forall e, confined C W (h e)) ->
  confined C W (try_except body [(c, h)]).
Proof.
  intros Hbody Hh. apply confined_try_except; [exact Hbody|].
  apply Forall_cons_2; [exact Hh | apply Forall_nil_2].
Qed.

Lemma confined_try_except2 C W (body : M A) c1 h1 c2 h2 :
  confined C W body -> (forall e, confined C W (h1 e)) ->
  (forall e, confined C W (h2 e)) ->
  confined C W (try_except body [(c1, h1); (c2, h2)]).
Proof.
  intros Hbody H1 H2. apply confined_try_except; [exact Hbody|].
  apply Forall_cons_2; [exact H1|].
  apply Forall_cons_2; [exact H2 | apply Forall_nil_2].
Qed.

End Confined.

Section ConfinedLoops.

Lemma confined_for_each {X St} C W (xs : list X) (body : X -> St -> M St) acc :
  (forall x acc, confined C W (body x acc)) ->
  confined C W (for_each xs body acc).
Proof.
  intros Hbody. revert acc.
  induction xs as [|x xs IH]; intros acc; simpl.
  - apply confined_ret.
  - apply confined_bind; [apply Hbody | intros acc'; apply IH].
Qed.

Lemma confined_print C W s : confined C W (print s).
Proof.
  apply confined_same. intros w. unfold print.
  destruct (Utf8.encode_escaping s); reflexivity.
Qed.

End ConfinedLoops.

(** ** The file system *)

Section FsFacts.

Import Fs.

Lemma parent_snoc (p : Path) c : parent (p ++ [c]) = p.
Proof. apply removelast_last. Qed.

Lemma node_at_outside v (q : Path) :
  ~ q `prefix_of` mount_point -> node_at v q = v !! q.
Proof. intros H. unfold node_at. rewrite bool_decide_eq_false_2; auto. Qed.

Lemma node_at_mount v (q : Path) :
  q `prefix_of` mount_point -> node_at v q = Some Dir.
Proof. intros H. unfold node_at. rewrite bool_decide_eq_true_2; auto. Qed.

(** How the walk down the directories of a path ends. *)
Lemma walk_cases v full (done todo : Path) :
  (walk v full done todo = Return tt /\
   forall q, q <> [] -> q `prefix_of` todo ->
             node_at v (done ++ q) = Some Dir)
  \/ (walk v full done todo = Raise (ENOENT full) /\
      exists q, q <> [] /\ q `prefix_of` todo /\ node_at v (done ++ q) = None)
  \/ (walk v full done todo = Raise (ENOTDIR full) /\
      exists q c, q <> [] /\ q `prefix_of` todo /\
                  node_at v (done ++ q) = Some (File c)).
Proof.
  revert done. induction todo as [|name todo IH]; intros done.
  - left. split; [reflexivity|].
    intros q Hq Hpre. apply prefix_nil_inv in Hpre. contradiction.
  - simpl. destruct (node_at v (done ++ [name])) as [[|c]|] eqn:Hnode.
    + destruct (IH (done ++ [name])) as [[-> Hall] | [[-> Hex] | [-> Hex]]].
      * left. split; [reflexivity|]. intros q Hq Hpre.
        destruct q as [|x q]; [contradiction|].
        apply prefix_cons_inv_1 in Hpre as Hx. subst x.
        apply prefix_cons_inv_2 in Hpre.
        destruct q as [|y q]; [exact Hnode|].
        specialize (Hall (y :: q) ltac:(discriminate) Hpre).
        rewrite <- app_assoc in Hall. exact Hall.
      * right. left. split; [reflexivity|].
        destruct Hex as (q & Hq & Hpre & Hnone).
        exists (name :: q). split; [discriminate|]. split.
        -- apply prefix_cons, Hpre.
        -- rewrite <- app_assoc in Hnone. exact Hnone.
      * right. right. split; [reflexivity|].
        destruct Hex as (q & c & Hq & Hpre & Hfile).
        exists (name :: q), c. split; [discriminate|]. split.
        -- apply prefix_cons, Hpre.
        -- rewrite <- app_assoc in Hfile. exact Hfile.
    + right. right. split; [reflexivity|].
      exists [name], c. split; [discriminate|]. split; [|exact Hnode].
      apply prefix_cons, prefix_nil.
    + right. left. split; [reflexivity|].
      exists [name]. split; [discriminate|]. split; [|exact Hnode].
      apply prefix_cons, prefix_nil.
Qed.

(** *** What each operation may change *)

Lemma confined_read_bytes C W path : confined C W (read_bytes path).
Proof.
  apply confined_same. intros w. unfold read_bytes.
  destruct (walk (vol w) path [] (parent path)); [|reflexivity].
  destruct (node_at (vol w) path) as [[|c]|]; reflexivity.
Qed.

Lemma confined_read_text C W path : confined C W (read_text path).
Proof.
  unfold read_text. apply confined_bind; [apply confined_read_bytes|].
  intros content. apply confined_bind; [apply confined_lift|].
  intros text. apply confined_ret.
Qed.

(** A new directory. *)
Lemma grows_create (path : Path) v :
  v !! path = None -> grows (eq path) nowhere v (<[path := Dir]> v).
Proof.
  intros Hnone. repeat split.
  - intros p n _ Hp. rewrite lookup_insert_ne; [exact Hp|]. congruence.
  - intros p n _ Hp. destruct (decide (path = p)) as [<- | Hne].
    + rewrite lookup_insert_eq in Hp. right. split; congruence.
    + rewrite lookup_insert_ne in Hp by assumption. left. exact Hp.
  - intros p Hp. rewrite lookup_insert_ne; [exact Hp|].
    intros ->. rewrite Hnone in Hp. destruct Hp; discriminate.
Qed.

(** An entry that is written over, or made. *)
Lemma grows_overwrite (path : Path) n v :
  grows nowhere (eq path) v (<[path := n]> v).
Proof.
  repeat split.
  - intros p n' Hne Hp. rewrite lookup_insert_ne; assumption.
  - intros p n' Hne Hp. rewrite lookup_insert_ne in Hp by assumption.
    left. exact Hp.
  - intros p Hp. destruct (decide (path = p)) as [-> | Hne].
    + rewrite lookup_insert_eq. eauto.
    + rewrite lookup_insert_ne by assumption. exact Hp.
Qed.

Lemma node_at_none v (path : Path) :
  node_at v path = None -> v !! path = None.
Proof.
  unfold node_at. destruct (bool_decide (path `prefix_of` mount_point));
    [discriminate | auto].
Qed.

Lemma confined_os_mkdir path : confined (eq path) nowhere (os_mkdir path).
Proof.
  intros w. unfold os_mkdir.
  destruct (walk (vol w) path [] (parent path));
    [|simpl; apply grows_refl].
  destruct (node_at (vol w) path) as [n|] eqn:Hnode;
    [simpl; apply grows_refl|].
  apply grows_create, node_at_none, Hnode.
Qed.

Lemma confined_open_w path : confined nowhere (eq path) (open_w path).
Proof.
  intros w. unfold open_w.
  destruct (walk (vol w) path [] (parent path));
    [|simpl; apply grows_refl].
  destruct (node_at (vol w) path) as [[|c]|];
    [simpl; apply grows_refl
    | apply grows_overwrite | apply grows_overwrite].
Qed.

Lemma confined_write path text : confined nowhere (eq path) (write path text).
Proof.
  intros w. unfold write.
  destruct (Utf8.encode text);
    [apply grows_overwrite
    |simpl; apply grows_refl].
Qed.

Lemma confined_check C W (f : world -> bool) e :
  confined C W (fun w => if f w then (w, Raise e) else (w, Return tt)).
Proof. apply confined_same. intros w. destruct (f w); reflexivity. Qed.

Lemma confined_mkdir_here path exist_ok :
  confined (eq path) nowhere (mkdir_here path exist_ok).
Proof.
  unfold mkdir_here.
  apply confined_try_except2; [apply confined_os_mkdir | ..]; intros e.
  - apply confined_raise.
  - apply (confined_check _ _
             (fun w => negb exist_ok || negb (is_dir (vol w) path))).
Qed.

Lemma confined_mkdir_parents rpath exist_ok :
  confined (fun p => p `prefix_of` rev rpath) nowhere
    (mkdir_parents rpath exist_ok).
Proof.
  revert exist_ok. induction rpath as [|name rparent IH]; intros exist_ok.
  - simpl. apply confined_try_except2; [|intros e ..].
    + eapply confined_mono; [| |apply confined_os_mkdir]; [|auto].
      intros p <-. reflexivity.
    + apply confined_raise.
    + apply (confined_check _ _
               (fun w => negb exist_ok || negb (is_dir (vol w) []))).
  - cbn [mkdir_parents]. apply confined_try_except2; [|intros e ..].
    + eapply confined_mono; [| |apply confined_os_mkdir]; [|auto].
      intros p <-. reflexivity.
    + apply confined_bind.
      * eapply confined_mono; [| |apply IH]; [|auto].
        intros p Hp. simpl. etransitivity; [exact Hp|].
        apply prefix_app_r. reflexivity.
      * intros _. eapply confined_mono; [| |apply confined_mkdir_here]; [|auto].
        intros p <-. reflexivity.
    + apply (confined_check _ _
               (fun w => negb exist_ok
                         || negb (is_dir (vol w) (rev (name :: rparent))))).
Qed.

Lemma confined_mkdir path parents exist_ok :
  confined (fun p => p `prefix_of` path) nowhere
    (mkdir path parents exist_ok).
Proof.
  unfold mkdir. destruct parents.
  - pose proof (confined_mkdir_parents (rev path) exist_ok) as H.
    rewrite rev_involutive in H. exact H.
  - eapply confined_mono; [| |apply confined_mkdir_here]; [|auto].
    intros p <-. reflexivity.
Qed.

(** *** When the operations succeed *)

Lemma prefix_parent (q path : Path) :
  q <> [] -> q `prefix_of` parent path -> q `prefix_of` path /\ q <> path.
Proof.
  intros Hq Hpre. destruct path as [|x path _] using rev_ind.
  - apply prefix_nil_inv in Hpre. contradiction.
  - rewrite parent_snoc in Hpre. split.
    + etransitivity; [exact Hpre | apply prefix_app_r; reflexivity].
    + intros ->. apply prefix_length in Hpre.
      rewrite length_app in Hpre. simpl in Hpre. lia.
Qed.

Lemma prefix_snoc_inv (q path : Path) x :
  q `prefix_of` path ++ [x] -> q <> path ++ [x] -> q `prefix_of` path.
Proof.
  intros [k Hk] Hne. destruct k as [|y k _] using rev_ind.
  - rewrite app_nil_r in Hk. congruence.
  - rewrite app_assoc in Hk. apply app_inj_tail in Hk as [-> _].
    apply prefix_app_r. reflexivity.
Qed.

Lemma walk_parent_ok v path :
  dirs_above v path -> walk v path [] (parent path) = Return tt.
Proof.
  intros Habove.
  destruct (walk_cases v path [] (parent path))
    as [[-> _] | [[_ (q & Hq & Hpre & Hnode)]
                 | [_ (q & c & Hq & Hpre & Hnode)]]];
    [reflexivity | exfalso ..];
    destruct (prefix_parent q path Hq Hpre) as [Hqp Hne];
    simpl in Hnode; rewrite (Habove q Hqp Hne) in Hnode; discriminate.
Qed.

Lemma node_at_insert v (path q : Path) n :
  node_at (<[path := n]> v) q =
  if bool_decide (q `prefix_of` mount_point) then Some Dir
  else if decide (path = q) then Some n else v !! q.
Proof.
  unfold node_at. destruct (bool_decide (q `prefix_of` mount_point));
    [reflexivity|].
  destruct (decide (path = q)) as [-> | Hne].
  - apply lookup_insert_eq.
  - apply lookup_insert_ne, Hne.
Qed.

Lemma node_at_insert_ne v (path q : Path) n :
  path <> q -> node_at (<[path := n]> v) q = node_at v q.
Proof.
  intros Hne. rewrite node_at_insert. unfold node_at.
  destruct (bool_decide (q `prefix_of` mount_point)); [reflexivity|].
  rewrite decide_False by assumption. reflexivity.
Qed.

Lemma node_at_insert_dir v (path : Path) :
  node_at (<[path := Dir]> v) path = Some Dir.
Proof.
  rewrite node_at_insert.
  destruct (bool_decide (path `prefix_of` mount_point)); [reflexivity|].
  rewrite decide_True by reflexivity. reflexivity.
Qed.

Lemma dirs_above_insert v (path q : Path) n :
  dirs_above v q -> ~ path `prefix_of` q \/ path = q ->
  dirs_above (<[path := n]> v) q.
Proof.
  intros Habove Hpath r Hr Hne. rewrite node_at_insert_ne.
  - apply Habove; assumption.
  - intros ->. destruct Hpath as [Hpath | Hpath]; [apply Hpath, Hr | congruence].
Qed.

(** [mkdir] of a directory whose parents exist, when no regular file has
    its name. *)
Lemma mkdir_here_ok path w :
  dirs_above (vol w) path ->
  (forall c, node_at (vol w) path <> Some (File c)) ->
  exists v',
    mkdir_here path true w = (mk_world v' (out w), Return tt) /\
    node_at v' path = Some Dir /\ dirs_above v' path.
Proof.
  intros Habove Hfile. unfold mkdir_here, try_except, os_mkdir.
  rewrite (walk_parent_ok _ _ Habove).
  destruct (node_at (vol w) path) as [[|c]|] eqn:Hnode.
  - exists (vol w). unfold handle.
    change (isinstance (EEXIST path) FileNotFoundError) with false.
    change (isinstance (EEXIST path) OSError) with true. cbv iota.
    unfold is_dir. rewrite (walk_parent_ok _ _ Habove), Hnode.
    destruct w; simpl. auto.
  - exfalso. exact (Hfile c eq_refl).
  - exists (<[path := Dir]> (vol w)). split; [reflexivity|]. split.
    + apply node_at_insert_dir.
    + apply dirs_above_insert; auto.
Qed.

(** [mkdir(parents=True, exist_ok=True)], when no regular file stands at
    the path or above it: the directories of the path all exist after. *)
Lemma mkdir_parents_ok rpath w :
  no_file_upto (vol w) (rev rpath) ->
  exists v',
    mkdir_parents rpath true w = (mk_world v' (out w), Return tt) /\
    node_at v' (rev rpath) = Some Dir /\ dirs_above v' (rev rpath).
Proof.
  revert w. induction rpath as [|name rparent IH]; intros w Hclear.
  - exists (vol w). cbn [mkdir_parents rev]. unfold try_except, os_mkdir.
    cbn [parent removelast walk].
    rewrite (node_at_mount _ [] (prefix_nil _)). unfold handle.
    change (isinstance (EEXIST []) FileNotFoundError) with false.
    change (isinstance (EEXIST []) OSError) with true. cbv iota.
    unfold is_dir. cbn [parent removelast walk].
    rewrite (node_at_mount _ [] (prefix_nil _)).
    destruct w; simpl. split; [reflexivity|]. split; [reflexivity|].
    intros q Hq Hne. apply prefix_nil_inv in Hq. contradiction.
  - set (path := rev (name :: rparent)) in *.
    assert (path = rev rparent ++ [name]) as Hpath by reflexivity.
    assert (parent path = rev rparent) as Hparent
      by (rewrite Hpath; apply parent_snoc).
    cbn [mkdir_parents]. fold path. unfold try_except at 1.
    destruct (walk_cases (vol w) path [] (parent path))
      as [[Hwalk Hall] | [[Hwalk _] | [_ (q & c & Hq & Hpre & Hnode)]]].
    + (* the parents exist *)
      assert (dirs_above (vol w) path) as Habove.
      { intros q Hq Hne. rewrite Hpath in Hq, Hne.
        apply prefix_snoc_inv in Hq; [|exact Hne].
        destruct q as [|x q]; [apply node_at_mount, prefix_nil|].
        rewrite Hparent in Hall. apply (Hall (x :: q)); [discriminate|exact Hq]. }
      destruct (mkdir_here_ok path w Habove) as (v' & Hhere & Hdir & Hab').
      { intros c. apply Hclear. reflexivity. }
      exists v'. split; [|split; assumption].
      unfold mkdir_here, try_except in Hhere.
      unfold os_mkdir in *. rewrite Hwalk in *.
      destruct (node_at (vol w) path) as [n|]; [|exact Hhere].
      unfold handle in *.
      change (isinstance (EEXIST path) FileNotFoundError) with false in *.
      exact Hhere.
    + (* a parent is missing *)
      unfold os_mkdir at 1. rewrite Hwalk. unfold handle.
      change (isinstance (ENOENT path) FileNotFoundError) with true.
      cbv iota. unfold mbind, M_bind.
      destruct (IH w) as (v1 & Heq & Hdir1 & Habove1).
      { intros q c Hq. apply Hclear. rewrite Hpath.
        etransitivity; [exact Hq | apply prefix_app_r; reflexivity]. }
      assert (node_at v1 path = node_at (vol w) path) as Hsame.
      { pose proof (confined_mkdir_parents rparent true w) as Hgrows.
        rewrite Heq in Hgrows. simpl in Hgrows. unfold node_at.
        rewrite (grows_frame _ _ _ _ path Hgrows); [reflexivity| |tauto].
        intros Hp. apply prefix_length in Hp. rewrite Hpath in Hp.
        rewrite length_app in Hp. simpl in Hp. lia. }
      rewrite Heq.
      destruct (mkdir_here_ok path (mk_world v1 (out w)))
        as (v' & Hhere & Hdir & Hab').
      * intros q Hq Hne. rewrite Hpath in Hq, Hne.
        apply prefix_snoc_inv in Hq; [|exact Hne]. simpl.
        destruct (decide (q = rev rparent)) as [-> | Hne'];
          [exact Hdir1 | apply Habove1; assumption].
      * intros c. simpl. rewrite Hsame. apply Hclear. reflexivity.
      * exists v'. split; [exact Hhere | split; assumption].
    + exfalso. destruct (prefix_parent q path Hq Hpre) as [Hqp _].
      simpl in Hnode. exact (Hclear q c Hqp Hnode).
Qed.

End FsFacts.

(** ** The paths of the buckets *)

Section Paths.

Import Fs.

Lemma split_on_absent sep s : sep ∉ s -> Str.split_on sep s = [s].
Proof.
  intros Hs. apply (split_on_join sep s []). constructor; [exact Hs|constructor].
Qed.

Lemma div_component (p : Path) s :
  s <> [] -> SLASH ∉ s -> s <> [DOT] -> div p s = p ++ [s].
Proof.
  intros Hne Hslash Hdot. unfold div.
  destruct s as [|c s'] eqn:E; [contradiction|]. rewrite <- E in *.
  destruct (N.eqb_spec c SLASH) as [-> | _].
  - exfalso. apply Hslash. rewrite E. left.
  - unfold parse_parts. rewrite split_on_absent by assumption.
    rewrite filter_cons_True by (split; assumption). reflexivity.
Qed.

Lemma digits_component s :
  s <> [] -> Forall (fun c => Str.isdigit c = true) s ->
  s <> [] /\ (SLASH ∉ s) /\ s <> [DOT].
Proof.
  intros Hne Hd. split; [exact Hne|]. split.
  - intros Hin. rewrite Forall_forall in Hd. specialize (Hd _ Hin).
    discriminate.
  - intros ->. inversion Hd as [|? ? Hc _]. discriminate.
Qed.

Lemma numeral_component w n :
  (0 < w)%nat ->
  Civil.numeral w n <> [] /\ (SLASH ∉ Civil.numeral w n)
  /\ Civil.numeral w n <> [DOT].
Proof.
  intros Hw. apply digits_component; [|apply numeral_digits].
  apply numeral_word, Hw.
Qed.

Lemma poems_path_eq : poems_path = [lit "root"; lit "poems"].
Proof. reflexivity. Qed.

(** The path [poem] and [write_poem] build for a bucket of numerals is
    the path of the layout. *)
Lemma bucket_poem_file b :
  let '(year, month, day, hour) := Civil.bucket b in
  bucket_dir year month day hour = parent (poem_file (Civil.bucket b)) /\
  div (bucket_dir year month day hour) (lit "poem.txt")
  = poem_file (Civil.bucket b).
Proof.
  destruct b as [[[y m] d] h]. cbn [Civil.bucket poem_file].
  unfold bucket_dir.
  destruct (numeral_component 4 y) as (? & ? & ?); [lia|].
  destruct (numeral_component 2 m) as (? & ? & ?); [lia|].
  destruct (numeral_component 2 d) as (? & ? & ?); [lia|].
  destruct (numeral_component 2 h) as (? & ? & ?); [lia|].
  rewrite !div_component by assumption. rewrite poems_path_eq. split.
  - reflexivity.
  - reflexivity.
Qed.

Lemma to_str_poem_file b : to_str (poem_file b) = poem_file_name b.
Proof.
  destruct b as [[[y m] d] h]. reflexivity.
Qed.

Lemma poem_file_name_encodable b :
  Encodable (poem_file_name (Civil.bucket b)).
Proof.
  destruct b as [[[y m] d] h]. apply latin_encodable.
  unfold poem_file_name, Civil.bucket, Latin. rewrite !Forall_app.
  repeat split; first [apply lit_latin | apply numeral_latin].
Qed.

End Paths.

(** ** The web endpoint [poem] *)

Section PoemEndpoint.

Import Fs.

Lemma bind_ret_r {A} (m : M A) w : (x ← m; mret x) w = m w.
Proof.
  unfold mbind, M_bind. destruct (m w) as [w' [a|e]]; reflexivity.
Qed.

(** What [poem] does once the bucket is known: it prints the path of the
    layout and reads the file there. *)
Lemma poem_reads now w :
  Datetime.valid now ->
  poem now w =
  try_except (read_text (poem_file (bucket_now now))) poem_handlers
    (mk_world (vol w)
       (out w ++ [lit "retrieving poem from "
                  ++ poem_file_name (bucket_now now)])).
Proof.
  intros Hv. unfold poem. rewrite (get_ymdh_now now Hv).
  pose proof (bucket_poem_file
                (Datetime.year now, Datetime.month now, Datetime.day now,
                 Datetime.hour now)) as Hpath.
  pose proof (poem_file_name_encodable
                (Datetime.year now, Datetime.month now, Datetime.day now,
                 Datetime.hour now)) as Henc.
  fold (bucket_now now) in Hpath, Henc |- *.
  destruct (bucket_now now) as [[[y m] d] h].
  destruct Hpath as [_ Hfile].
  unfold mbind at 1, M_bind at 1, lift. cbv iota beta.
  unfold mbind at 1, M_bind at 1, Volume.reload, mret, M_ret. cbv iota beta zeta.
  rewrite Hfile, to_str_poem_file.
  unfold mbind at 1, M_bind at 1.
  rewrite print_ok
    by (apply Forall_app; split;
        [apply latin_encodable, lit_latin | exact Henc]).
  cbv iota beta. apply bind_ret_r.
Qed.

Lemma decode_from_raises pos data e :
  Utf8.decode_from pos data = Raise e -> exn_cls e = UnicodeDecodeError.
Proof.
  remember (length data) as n eqn:Hn.
  assert (length data <= n)%nat as Hlen by lia. clear Hn.
  revert pos data Hlen. induction n as [|n IH]; intros pos data Hlen.
  - destruct data; [discriminate | simpl in Hlen; lia].
  - assert (forall c pos' rest,
               (length rest <= n)%nat ->
               Utf8.cons_to c (Utf8.decode_from pos' rest) = Raise e ->
               exn_cls e = UnicodeDecodeError) as Hstep.
    { intros c pos' rest Hrest H. unfold Utf8.cons_to in H.
      destruct (Utf8.decode_from pos' rest) eqn:E; [discriminate|].
      cbn in H. injection H as <-. eapply IH; eassumption. }
    destruct data as [|b0 r0]; [discriminate|]. simpl in Hlen. simpl.
    repeat match goal with
           | |- context [if ?c then _ else _] => destruct c
           | |- context [match ?l with [] => _ | _ :: _ => _ end] =>
             destruct l; simpl in Hlen
           | |- Raise _ = Raise _ -> _ => intros [= <-]; reflexivity
           | |- Utf8.cons_to _ _ = Raise _ -> _ =>
             apply Hstep; lia
           end.
Qed.

(** How [read_text] ends: with the text, or with one of four errors. *)
Lemma read_text_cases path w :
  (exists text, read_text path w = (w, Return text))
  \/ (read_text path w = (w, Raise (ENOENT path)))
  \/ (exists e, read_text path w = (w, Raise e) /\
                exn_cls e ∈ [NotADirectoryError; IsADirectoryError;
                             UnicodeDecodeError]).
Proof.
  unfold read_text, read_bytes, mbind, M_bind.
  destruct (walk_cases (vol w) path [] (parent path))
    as [[-> _] | [[-> _] | [-> _]]].
  - destruct (node_at (vol w) path) as [[|content]|].
    + right. right. eexists. split; [reflexivity|]. set_solver.
    + unfold lift. destruct (Utf8.decode content) as [text|e] eqn:E.
      * left. eexists. reflexivity.
      * right. right. exists e. split; [reflexivity|].
        apply decode_from_raises in E. rewrite E. set_solver.
    + right. left. reflexivity.
  - right. left. reflexivity.
  - right. right. eexists. split; [reflexivity|]. set_solver.
Qed.

(** C9.  Whatever the volume holds, [poem] returns a string: every
    exception that reading the poem file raises is caught by one of the
    two clauses and turned into a verse. *)
Theorem poem_total now w :
  Datetime.valid now ->
  (exists w' text,
     poem now w = (w', Return text) /\
     (forall e,
        read_text (poem_file (bucket_now now)) w' = (w', Raise e) ->
        text = not_found_verse e \/ text = unknown_verse e))
  /\ (forall e w',
        isinstance e Exception = true ->
        handle poem_handlers e w' = (w', Return (not_found_verse e)) \/
        handle poem_handlers e w' = (w', Return (unknown_verse e))).
Proof.
  intros Hv. split.
  2: { intros e w' He. unfold handle, poem_handlers. rewrite He.
       destruct (isinstance e FileNotFoundError); [left | right];
         reflexivity. }
  rewrite (poem_reads now w Hv).
  set (w1 := mk_world _ _). exists w1.
  unfold try_except.
  destruct (read_text_cases (poem_file (bucket_now now)) w1)
    as [[text ->] | [-> | (e & -> & He)]].
  - exists text. split; [reflexivity|]. intros e [=].
  - eexists. split; [reflexivity|]. intros e [= <-]. left. reflexivity.
  - assert (handle poem_handlers e w1 = (w1, Return (unknown_verse e))) as ->.
    { unfold handle, poem_handlers, isinstance.
      destruct e as [c s]. simpl in He. cbn [exn_cls].
      rewrite !elem_of_cons, elem_of_nil in He.
      destruct He as [-> | [-> | [-> | []]]]; reflexivity. }
    eexists. split; [reflexivity|]. intros e' [= <-]. right. reflexivity.
Qed.


Lemma poem_total_witness :
  (exists w' text,
     poem new_years_eve (mk_world ∅ []) = (w', Return text) /\
     (forall e,
        read_text (poem_file (bucket_now new_years_eve)) w' = (w', Raise e) ->
        text = not_found_verse e \/ text = unknown_verse e))
  /\ (forall e w',
        isinstance e Exception = true ->
        handle poem_handlers e w' = (w', Return (not_found_verse e)) \/
        handle poem_handlers e w' = (w', Return (unknown_verse e))).
Proof. exact (poem_total new_years_eve (mk_world ∅ []) new_years_eve_valid). Defined.

(** The file of a bucket is missing: nothing is at its path and no
    regular file stands on the way to it. *)
Lemma read_text_missing path w :
  ~ path `prefix_of` mount_point ->
  clear_way (vol w) path -> vol w !! path = None ->
  read_text path w = (w, Raise (ENOENT path)).
Proof.
  intros Hout Hclear Hnone.
  unfold read_text, read_bytes, mbind, M_bind.
  destruct (walk_cases (vol w) path [] (parent path))
    as [[-> _] | [[-> _] | [_ (q & c & Hq & Hpre & Hfile)]]].
  - rewrite node_at_outside, Hnone by assumption. reflexivity.
  - reflexivity.
  - exfalso. simpl in Hfile.
    assert (q `prefix_of` path /\ q <> path) as [Hqp Hne].
    { destruct path as [|x path] using rev_ind.
      - apply prefix_nil_inv in Hpre. contradiction.
      - rewrite parent_snoc in Hpre. split.
        + etransitivity; [exact Hpre | apply prefix_app_r; reflexivity].
        + intros ->. apply prefix_length in Hpre.
          rewrite length_app in Hpre. simpl in Hpre. lia. }
    unfold node_at in Hfile.
    destruct (bool_decide (q `prefix_of` mount_point)); [discriminate|].
    exact (Hclear q c Hqp Hne Hfile).
Qed.

Lemma poem_file_outside b : ~ poem_file b `prefix_of` mount_point.
Proof.
  destruct b as [[[y m] d] h]. intros H. apply prefix_length in H.
  simpl in H. lia.
Qed.

(** C4.  When the poem file of the current bucket does not exist on the
    volume, [poem] returns the verse that names the [FileNotFoundError]
    and the path, and raises nothing. *)
Theorem poem_file_not_found now w :
  Datetime.valid now ->
  clear_way (vol w) (poem_file (bucket_now now)) ->
  vol w !! poem_file (bucket_now now) = None ->
  exists w',
    poem now w =
    (w', Return (lit "A message in red, so sudden and abrupt," ++ [LF]
                 ++ lit "File not found, a poem corrupt?" ++ [LF]
                 ++ lit "FIleNotFoundError: [Errno 2] No such file or directory: '"
                 ++ poem_file_name (bucket_now now) ++ lit "'")).
Proof.
  intros Hv Hclear Hnone. rewrite (poem_reads now w Hv).
  set (w1 := mk_world _ _). exists w1. unfold try_except.
  rewrite (read_text_missing _ w1 (poem_file_outside _) Hclear Hnone).
  unfold handle, poem_handlers, mret, M_ret.
  change (isinstance (ENOENT (poem_file (bucket_now now))) FileNotFoundError)
    with true. cbv iota.
  unfold not_found_verse, ENOENT, os_error, repr. cbn [exn_str].
  rewrite to_str_poem_file. change (Str.of_int 2) with (lit "2").
  reflexivity.
Qed.

Lemma clear_way_empty path : clear_way ∅ path.
Proof. intros q c _ _ H. rewrite lookup_empty in H. discriminate. Defined.

Lemma poem_file_not_found_witness :
  exists w',
    poem new_years_eve (mk_world ∅ []) =
    (w', Return (lit "A message in red, so sudden and abrupt," ++ [LF]
                 ++ lit "File not found, a poem corrupt?" ++ [LF]
                 ++ lit "FIleNotFoundError: [Errno 2] No such file or directory: '"
                 ++ poem_file_name (bucket_now new_years_eve) ++ lit "'")).
Proof.
  exact (poem_file_not_found new_years_eve (mk_world ∅ []) new_years_eve_valid
           (clear_way_empty _) (lookup_empty _)).
Defined.

(** [poem] changes nothing on the volume. *)
Lemma poem_confined now : confined nowhere nowhere (poem now).
Proof.
  unfold poem. apply confined_bind; [apply confined_lift|].
  intros [[[y m] d] h]. apply confined_bind; [apply confined_ret|].
  intros _. apply confined_bind; [apply confined_print|].
  intros _. apply confined_bind; [|intros text; apply confined_ret].
  apply confined_try_except2; [apply confined_read_text | ..];
    intros e; apply confined_ret.
Qed.

Lemma poem_keeps_volume now w : vol (poem now w).1 = vol w.
Proof.
  apply map_eq. intros p.
  apply (grows_frame nowhere nowhere); [apply poem_confined | tauto ..].
Qed.

End PoemEndpoint.

(** ** The UTF-8 decoder yields text that can be encoded again *)

Section Utf8Facts.

Import Utf8.

Lemma to_N_lt b : (Byte.to_N b < 256)%N.
Proof. pose proof (Byte.to_N_bounded b). lia. Qed.

Lemma continuation_range c :
  is_continuation c = true -> (128 <= c < 192)%N.
Proof.
  unfold is_continuation. intros H. apply andb_true_iff in H as [H1 H2].
  apply N.leb_le in H1. apply N.ltb_lt in H2. lia.
Qed.

Lemma encodable_iff c :
  encodable c = true <-> (c < 55296 \/ 57344 <= c < 1114112)%N.
Proof.
  unfold encodable, is_surrogate.
  rewrite andb_true_iff, negb_true_iff, andb_false_iff, N.leb_gt, N.ltb_ge,
    N.ltb_lt. lia.
Qed.

Lemma second_of_3_range c0 c1 :
  second_of_3 c0 c1 = true ->
  (128 <= c1 < 192 /\ (c0 = 224 -> 160 <= c1) /\ (c0 = 237 -> c1 < 160))%N.
Proof.
  unfold second_of_3. intros H. apply andb_true_iff in H as [H1 H2].
  apply continuation_range in H1. apply negb_true_iff in H2.
  destruct (N.ltb_spec c1 160); apply N.eqb_neq in H2; lia.
Qed.

Lemma second_of_4_range c0 c1 :
  second_of_4 c0 c1 = true ->
  (128 <= c1 < 192 /\ (c0 = 240 -> 144 <= c1) /\ (c0 = 244 -> c1 < 144))%N.
Proof.
  unfold second_of_4. intros H. apply andb_true_iff in H as [H1 H2].
  apply continuation_range in H1. apply negb_true_iff in H2.
  destruct (N.ltb_spec c1 144); apply N.eqb_neq in H2; lia.
Qed.

Lemma decode_from_encodable pos data s :
  decode_from pos data = Return s -> Encodable s.
Proof.
  remember (length data) as n eqn:Hn.
  assert (length data <= n)%nat as Hlen by lia. clear Hn.
  revert pos data s Hlen. induction n as [|n IH]; intros pos data s Hlen.
  - destruct data; [intros [= <-]; constructor | simpl in Hlen; lia].
  - assert (forall c pos' rest,
               (length rest <= n)%nat -> encodable c = true ->
               cons_to c (decode_from pos' rest) = Return s ->
               Encodable s) as Hstep.
    { intros c pos' rest Hrest Hc H. unfold cons_to in H.
      destruct (decode_from pos' rest) as [s'|] eqn:E; [|discriminate].
      cbn in H. injection H as <-.
      constructor; [exact Hc | eapply IH; eassumption]. }
    destruct data as [|b0 r0]; [intros [= <-]; constructor|].
    simpl in Hlen. simpl.
    pose proof (to_N_lt b0) as Hb0.
    destruct (N.ltb_spec (Byte.to_N b0) 128) as [H128|H128].
    { apply Hstep; [lia | apply encodable_iff; lia]. }
    destruct (N.ltb_spec (Byte.to_N b0) 194) as [H194|H194]; [discriminate|].
    destruct (N.ltb_spec (Byte.to_N b0) 224) as [H224|H224].
    { destruct r0 as [|b1 r1]; [discriminate|]. simpl in Hlen.
      destruct (is_continuation (Byte.to_N b1)) eqn:Hc1; [|discriminate].
      apply continuation_range in Hc1.
      apply Hstep; [lia|]. apply encodable_iff.
      rewrite N.shiftl_mul_pow2. change (2 ^ 6)%N with 64%N. lia. }
    destruct (N.ltb_spec (Byte.to_N b0) 240) as [H240|H240].
    { destruct r0 as [|b1 r1]; [discriminate|]. simpl in Hlen.
      destruct (second_of_3 (Byte.to_N b0) (Byte.to_N b1)) eqn:Hc1;
        [|discriminate].
      apply second_of_3_range in Hc1. cbn [negb].
      destruct r1 as [|b2 r2]; [discriminate|]. simpl in Hlen.
      destruct (is_continuation (Byte.to_N b2)) eqn:Hc2; [|discriminate].
      apply continuation_range in Hc2.
      apply Hstep; [lia|]. apply encodable_iff.
      rewrite !N.shiftl_mul_pow2.
      change (2 ^ 12)%N with 4096%N. change (2 ^ 6)%N with 64%N. lia. }
    destruct (N.ltb_spec (Byte.to_N b0) 245) as [H245|H245]; [|discriminate].
    destruct r0 as [|b1 r1]; [discriminate|]. simpl in Hlen.
    destruct (second_of_4 (Byte.to_N b0) (Byte.to_N b1)) eqn:Hc1;
      [|discriminate].
    apply second_of_4_range in Hc1. cbn [negb].
    destruct r1 as [|b2 r2]; [discriminate|]. simpl in Hlen.
    destruct (is_continuation (Byte.to_N b2)) eqn:Hc2; [|discriminate].
    apply continuation_range in Hc2. cbn [negb].
    destruct r2 as [|b3 r3]; [discriminate|]. simpl in Hlen.
    destruct (is_continuation (Byte.to_N b3)) eqn:Hc3; [|discriminate].
    apply continuation_range in Hc3.
    apply Hstep; [lia|]. apply encodable_iff.
    rewrite !N.shiftl_mul_pow2.
    change (2 ^ 18)%N with 262144%N. change (2 ^ 12)%N with 4096%N.
    change (2 ^ 6)%N with 64%N. lia.
Qed.

Lemma decode_encodable data s : decode data = Return s -> Encodable s.
Proof. apply decode_from_encodable. Qed.

End Utf8Facts.

(** ** Lines: [strip], [split] and [join] *)

Section LinesFacts.

Lemma join_cons sep (l l' : str) ls :
  Str.join sep (l :: l' :: ls) = l ++ sep ++ Str.join sep (l' :: ls).
Proof. reflexivity. Qed.

Lemma join_snoc sep (ls : list str) (l : str) :
  ls <> [] -> Str.join sep (ls ++ [l]) = Str.join sep ls ++ sep ++ l.
Proof.
  induction ls as [|a ls IH]; [contradiction|]. intros _.
  destruct ls as [|b ls]; [reflexivity|].
  change ((a :: b :: ls) ++ [l]) with (a :: (b :: ls) ++ [l]).
  change ((b :: ls) ++ [l]) with (b :: ls ++ [l]) at 1.
  rewrite join_cons. change (b :: ls ++ [l]) with ((b :: ls) ++ [l]).
  rewrite IH by discriminate. rewrite join_cons, <- !app_assoc. reflexivity.
Qed.

Lemma rev_join (ls : list str) :
  rev (Str.join [LF] ls) = Str.join [LF] (rev (map (@rev N) ls)).
Proof.
  induction ls as [|l ls IH]; [reflexivity|].
  destruct ls as [|l' ls]; [reflexivity|].
  rewrite join_cons, !rev_app_distr, IH. change (rev [LF]) with [LF].
  change (rev (map (@rev N) (l :: l' :: ls)))
    with (rev (map (@rev N) (l' :: ls)) ++ [rev l]).
  rewrite join_snoc, <- !app_assoc; [reflexivity|].
  intros H. apply (f_equal (@length _)) in H.
  rewrite length_rev, length_map in H. discriminate.
Qed.

Lemma lstrip_join ls :
  match drop_blank ls with
  | l :: _ => head_ok l
  | [] => True
  end ->
  Str.lstrip (Str.join [LF] ls) = Str.join [LF] (drop_blank ls).
Proof.
  induction ls as [|l ls IH]; [reflexivity|].
  destruct l as [|c l].
  - cbn [drop_blank]. intros Hls.
    destruct ls as [|l' ls]; [reflexivity|].
    rewrite join_cons. exact (IH Hls).
  - cbn [drop_blank]. intros Hl. destruct ls as [|l' ls].
    + cbn [Str.join Str.lstrip]. simpl in Hl. rewrite Hl. reflexivity.
    + rewrite join_cons. cbn [app Str.lstrip]. simpl in Hl. rewrite Hl.
      reflexivity.
Qed.

Lemma drop_blank_map_rev ls :
  drop_blank (map (@rev N) ls) = map (@rev N) (drop_blank ls).
Proof.
  induction ls as [|l ls IH]; [reflexivity|].
  destruct l as [|c l]; [exact IH|].
  cbn [map drop_blank]. destruct (rev (c :: l)) eqn:E; [|reflexivity].
  apply (f_equal (@length _)) in E. rewrite length_rev in E. discriminate.
Qed.

Lemma drop_blank_suffix ls : drop_blank ls `suffix_of` ls.
Proof.
  induction ls as [|l ls IH]; [reflexivity|].
  destruct l; [|reflexivity]. cbn [drop_blank].
  apply suffix_cons_r, IH.
Qed.

Lemma Forall_suffix {X} (P : X -> Prop) (xs ys : list X) :
  xs `suffix_of` ys -> Forall P ys -> Forall P xs.
Proof.
  intros [k ->] H. apply Forall_app in H as [_ H]. exact H.
Qed.

Lemma filter_drop_blank ls :
  filter (fun l : str => l <> []) (drop_blank ls)
  = filter (fun l : str => l <> []) ls.
Proof.
  induction ls as [|l ls IH]; [reflexivity|].
  destruct l; [|reflexivity]. cbn [drop_blank].
  rewrite filter_cons_False by (intros H; apply H; reflexivity). exact IH.
Qed.

Lemma filter_nonblank_rev (ls : list str) :
  filter (fun l : str => l <> []) (rev ls)
  = rev (filter (fun l : str => l <> []) ls).
Proof.
  induction ls as [|l ls IH]; [reflexivity|].
  cbn [rev]. rewrite filter_app, IH.
  destruct (decide (l <> [])) as [Hl | Hl].
  - rewrite !filter_cons_True by assumption. reflexivity.
  - rewrite !filter_cons_False by assumption. apply app_nil_r.
Qed.

Lemma drop_blank_snoc_blank ls :
  hd_error (drop_blank (ls ++ [[]])) = hd_error (drop_blank ls).
Proof.
  induction ls as [|l ls IH]; [reflexivity|].
  destruct l; [exact IH | reflexivity].
Qed.

(** The last line that is not empty, of the lines and of the lines
    without the empty ones at their head. *)
Lemma drop_blank_rev_drop_blank ls :
  hd_error (drop_blank (rev (drop_blank ls)))
  = hd_error (drop_blank (rev ls)).
Proof.
  induction ls as [|l ls IH]; [reflexivity|].
  destruct l; [|reflexivity]. cbn [drop_blank rev].
  rewrite drop_blank_snoc_blank. exact IH.
Qed.

Lemma head_ok_map_rev (xs ys : list str) :
  hd_error xs = hd_error ys ->
  match ys with
  | l :: _ => head_ok (rev l)
  | [] => True
  end ->
  match map (@rev N) xs with
  | l :: _ => head_ok l
  | [] => True
  end.
Proof.
  destruct xs as [|x xs], ys as [|y ys]; cbn [hd_error map];
    try discriminate; [intros _ _; exact I|].
  intros [= ->] H. exact H.
Qed.

Lemma trimmed_ends ls : Forall trimmed ls -> ends_trimmed ls.
Proof.
  intros Hls. split.
  - pose proof (Forall_suffix _ _ _ (drop_blank_suffix ls) Hls) as H.
    destruct (drop_blank ls); [exact I|].
    inversion H as [|? ? [Hl _] _]; subst. exact Hl.
  - apply Forall_rev in Hls.
    pose proof (Forall_suffix _ _ _ (drop_blank_suffix (rev ls)) Hls) as H.
    destruct (drop_blank (rev ls)); [exact I|].
    inversion H as [|? ? [_ Hl] _]; subst. exact Hl.
Qed.

(** The lines [strip] leaves of a text: the blank lines at both ends are
    gone. *)
Lemma strip_join ls :
  ends_trimmed ls ->
  Str.strip (Str.join [LF] ls)
  = Str.join [LF] (rev (drop_blank (rev (drop_blank ls)))).
Proof.
  intros [Hhead Hlast]. unfold Str.strip, Str.rstrip.
  rewrite lstrip_join by exact Hhead.
  rewrite rev_join, <- map_rev, lstrip_join.
  - rewrite drop_blank_map_rev, rev_join, map_map, <- map_rev.
    rewrite (map_ext _ id) by (intros l; apply rev_involutive).
    rewrite map_id. reflexivity.
  - rewrite drop_blank_map_rev.
    exact (head_ok_map_rev _ _ (drop_blank_rev_drop_blank ls) Hlast).
Qed.

Lemma split_on_join_lines ls :
  Forall (fun l => LF ∉ l) ls ->
  filter (fun l : str => l <> []) (Str.split_on LF (Str.join [LF] ls))
  = filter (fun l : str => l <> []) ls.
Proof.
  intros Hls. destruct ls as [|l ls].
  - reflexivity.
  - rewrite split_on_join by assumption. reflexivity.
Qed.

(** The lines the loop of [write_poem] sees of a chunk of whole lines. *)
Lemma chunk_lines ls :
  Forall (fun l => LF ∉ l) ls -> ends_trimmed ls ->
  filter (fun l : str => l <> [])
    (Str.split_on LF (Str.strip (Str.join [LF] ls)))
  = filter (fun l : str => l <> []) ls.
Proof.
  intros Hlf Htrim. rewrite strip_join by assumption.
  rewrite split_on_join_lines.
  - rewrite filter_nonblank_rev, filter_drop_blank, filter_nonblank_rev,
      filter_drop_blank, rev_involutive. reflexivity.
  - apply Forall_rev. eapply Forall_suffix; [apply drop_blank_suffix|].
    apply Forall_rev. eapply Forall_suffix; [apply drop_blank_suffix|].
    exact Hlf.
Qed.

End LinesFacts.

(** ** The assembly of the poem from the stream *)

Section Assemble.

Lemma emit_nil w : emit w [] = w.
Proof. destruct w. unfold emit. simpl. rewrite app_nil_r. reflexivity. Qed.

Lemma emit_emit w a b : emit (emit w a) b = emit w (a ++ b).
Proof. unfold emit. simpl. rewrite app_assoc. reflexivity. Qed.

Lemma loads_error_latin doc e : Json.loads doc = Raise e -> Latin (exn_str e).
Proof.
  assert (forall msg pos, Latin (exn_str (Json.decode_error msg doc pos)))
    as Hdec.
  { intros msg pos. unfold Json.decode_error.
    destruct (Json.line_column doc (Z.to_nat pos) 1 1) as [line col].
    cbn [exn_str]. unfold Latin. rewrite !Forall_app.
    repeat split; first [apply lit_latin | apply of_int_latin]. }
  unfold Json.loads.
  destruct (Json.starts_with [65279%N] doc); [intros [= <-]; apply Hdec|].
  destruct (Json.scan_once _ _) as [[v cur]|[msg pos|what]].
  - destruct (Json.skip_whitespace cur).2; [discriminate|].
    intros [= <-]. apply Hdec.
  - intros [= <-]. apply Hdec.
  - intros [= <-]. unfold Json.recursion_error. cbn [exn_str]. unfold Latin.
    rewrite !Forall_app. repeat split; apply lit_latin.
Qed.

Lemma add_line_blank poem w : add_line [] poem w = (w, Return poem).
Proof. reflexivity. Qed.

Lemma text_field_getitem data t :
  text_field data = Some t -> getitem_text data = Return (Json.JStr t).
Proof.
  unfold text_field, getitem_text.
  destruct data as [| | | | |items|items]; try discriminate.
  destruct (Json.dict_get items (lit "text")) as [[| | | |s| |]|];
    try discriminate.
  intros [= ->]. reflexivity.
Qed.

(** A line whose remainder is an object with a [text]: the text is
    appended. *)
Lemma add_line_text line poem w data t :
  line <> [] -> Json.loads (drop 6 line) = Return data ->
  text_field data = Some t ->
  add_line line poem w = (w, Return (poem ++ t)).
Proof.
  intros Hne Hloads Ht. destruct line as [|c line]; [contradiction|].
  unfold add_line, try_except, mbind, M_bind, lift.
  rewrite Hloads, (text_field_getitem _ _ Ht). reflexivity.
Qed.

(** A line whose remainder does not parse: two lines are printed and the
    poem is as before. *)
Lemma add_line_garbled line poem w e :
  line <> [] -> Json.loads (drop 6 line) = Raise e ->
  exn_cls e = JSONDecodeError -> Encodable line ->
  add_line line poem w
  = (emit w [lit "Error decoding JSON: " ++ exn_str e; line], Return poem).
Proof.
  intros Hne Hloads Hcls Henc. destruct line as [|c line]; [contradiction|].
  unfold add_line, try_except, mbind at 1, M_bind at 1, lift.
  rewrite Hloads. unfold handle, isinstance. rewrite Hcls.
  change (issubclass JSONDecodeError JSONDecodeError) with true. cbv iota.
  unfold mbind, M_bind.
  rewrite print_ok.
  2: { apply Forall_app. split; [apply latin_encodable, lit_latin|].
       apply latin_encodable. eapply loads_error_latin, Hloads. }
  rewrite print_ok by exact Henc.
  unfold emit, mret, M_ret. simpl. rewrite <- app_assoc. reflexivity.
Qed.

Lemma for_each_nonblank lines poem w :
  for_each lines add_line poem w
  = for_each (filter (fun l : str => l <> []) lines) add_line poem w.
Proof.
  revert poem w. induction lines as [|l lines IH]; intros poem w;
    [reflexivity|].
  destruct l as [|c l].
  - rewrite filter_cons_False by (intros H; apply H; reflexivity).
    cbn [for_each]. unfold mbind, M_bind. rewrite add_line_blank. apply IH.
  - rewrite filter_cons_True by discriminate.
    cbn [for_each]. unfold mbind, M_bind.
    destruct (add_line (c :: l) poem w) as [w' [poem'|e]];
      [apply IH | reflexivity].
Qed.

(** The loop over the lines of well-formed fragments. *)
Lemma for_each_fragments fs poem w :
  Forall well_formed fs -> Forall (fun f => Encodable (fragment_line f)) fs ->
  for_each (map fragment_line fs) add_line poem w
  = (emit w (diagnostics fs), Return (poem ++ texts fs)).
Proof.
  intros Hfs Henc. revert poem w.
  induction Hfs as [|f fs Hf Hfs IH]; intros poem w.
  - cbn. rewrite emit_nil, app_nil_r. reflexivity.
  - inversion Henc as [|? ? Hfenc Henc']; subst. specialize (IH Henc').
    cbn [map for_each]. unfold mbind, M_bind.
    destruct f as [|p r t|p r e]; cbn [fragment_line] in *.
    + rewrite add_line_blank, IH. reflexivity.
    + destruct Hf as (Hp & _ & data & Hloads & Ht).
      rewrite (add_line_text (p ++ r) poem w data t).
      * rewrite IH. unfold texts. cbn [map concat].
        rewrite app_assoc. reflexivity.
      * destruct p; discriminate.
      * rewrite <- Hp, drop_app_length. exact Hloads.
      * exact Ht.
    + destruct Hf as (Hp & _ & Hloads & Hcls).
      rewrite (add_line_garbled (p ++ r) poem w e).
      * rewrite IH, emit_emit. reflexivity.
      * destruct p; discriminate.
      * rewrite <- Hp, drop_app_length. exact Hloads.
      * exact Hcls.
      * exact Hfenc.
Qed.

Lemma well_formed_line f : well_formed f -> LF ∉ fragment_line f.
Proof.
  destruct f as [|p r t|p r e]; cbn [well_formed fragment_line].
  - intros _. apply not_elem_of_nil.
  - intros (_ & Hlf & _). exact Hlf.
  - intros (_ & Hlf & _). exact Hlf.
Qed.

Lemma join_encodable sep ls :
  Encodable (Str.join sep ls) -> Forall Encodable ls.
Proof.
  induction ls as [|l ls IH]; [constructor|].
  destruct ls as [|l' ls].
  - intros H. constructor; [exact H | constructor].
  - rewrite join_cons. unfold Encodable at 1. rewrite !Forall_app.
    intros (Hl & _ & Hrest). constructor; [exact Hl | apply IH, Hrest].
Qed.

(** A chunk of whole fragments. *)
Lemma add_chunk_fragments chunk fs poem w :
  Utf8.decode chunk = Return (stream_text fs) -> Forall well_formed fs ->
  ends_trimmed (map fragment_line fs) ->
  add_chunk chunk poem w
  = (emit w (diagnostics fs), Return (poem ++ texts fs)).
Proof.
  intros Hdec Hfs Hends. unfold add_chunk, mbind, M_bind, lift. rewrite Hdec.
  rewrite for_each_nonblank. unfold stream_text. rewrite chunk_lines.
  - rewrite <- for_each_nonblank. apply for_each_fragments; [exact Hfs|].
    apply decode_encodable, join_encodable in Hdec.
    exact (proj1 (List.Forall_map _ _ _) Hdec).
  - apply (proj2 (List.Forall_map _ _ _)). eapply Forall_impl; [exact Hfs|].
    intros f Hf. apply well_formed_line, Hf.
  - exact Hends.
Qed.

Lemma texts_app a b : texts (a ++ b) = texts a ++ texts b.
Proof. unfold texts. rewrite map_app, concat_app. reflexivity. Qed.

Lemma diagnostics_app a b : diagnostics (a ++ b) = diagnostics a ++ diagnostics b.
Proof. unfold diagnostics. rewrite map_app, concat_app. reflexivity. Qed.

Lemma for_each_chunks chunks fss poem w :
  Forall2 (fun chunk fs =>
             Utf8.decode chunk = Return (stream_text fs)
             /\ Forall well_formed fs
             /\ ends_trimmed (map fragment_line fs)) chunks fss ->
  for_each chunks add_chunk poem w
  = (emit w (diagnostics (concat fss)), Return (poem ++ texts (concat fss))).
Proof.
  intros H. revert poem w.
  induction H as [|chunk fs chunks fss (Hdec & Hfs & Hends) _ IH];
    intros poem w.
  - cbn. rewrite emit_nil, app_nil_r. reflexivity.
  - cbn [for_each concat]. unfold mbind, M_bind.
    rewrite (add_chunk_fragments chunk fs poem w Hdec Hfs Hends), IH.
    rewrite emit_emit, texts_app, diagnostics_app, app_assoc. reflexivity.
Qed.

End Assemble.

(** ** The scheduled job [write_poem] *)

Section WritePoem.

Import Fs.

Lemma completion_url_ok b :
  let '(year, month, day, hour) := Civil.bucket b in
  completion_url month day hour = Return (poem_url (Civil.bucket b)).
Proof.
  destruct b as [[[y m] d] h]. cbn [Civil.bucket poem_url].
  unfold completion_url, Http.quote.
  destruct (encode_ok (poem_request (Civil.numeral 2 m) (Civil.numeral 2 d)
                         (Civil.numeral 2 h))) as [data ->]; [|reflexivity].
  apply latin_encodable. unfold poem_request, Latin. rewrite !Forall_app.
  repeat split; first [apply lit_latin | apply numeral_latin].
Qed.

Lemma add_line_confined line poem : confined nowhere nowhere (add_line line poem).
Proof.
  destruct line as [|c line]; [apply confined_ret|]. unfold add_line.
  apply confined_try_except1.
  - apply confined_bind; [apply confined_lift|]. intros data.
    apply confined_bind; [apply confined_lift|]. intros v.
    apply confined_lift.
  - intros e. apply confined_bind; [apply confined_print|]. intros _.
    apply confined_bind; [apply confined_print|]. intros _.
    apply confined_ret.
Qed.

Lemma assemble_confined response : confined nowhere nowhere (assemble response).
Proof.
  unfold assemble. destruct (Http.status_code response =? 200);
    [|apply confined_ret].
  apply confined_for_each. intros chunk poem. unfold add_chunk.
  apply confined_bind; [apply confined_lift|]. intros text.
  apply confined_for_each. intros line poem'. apply add_line_confined.
Qed.

Lemma assemble_keeps_volume response w : vol (assemble response w).1 = vol w.
Proof.
  apply map_eq. intros p.
  apply (grows_frame nowhere nowhere); [apply assemble_confined | tauto ..].
Qed.

(** [write_poem] only makes the directories of its bucket and only writes
    the poem file of its bucket. *)
Lemma write_poem_confined now requests_get :
  Datetime.valid now -> has_next_hour now ->
  confined (fun p => p `prefix_of` parent (poem_file (bucket_next now)))
           (eq (poem_file (bucket_next now)))
           (write_poem now requests_get).
Proof.
  intros Hv Hnext. unfold write_poem.
  rewrite (get_ymdh_next now Hv Hnext).
  pose proof (bucket_poem_file
                (Civil.next_hour (Datetime.year now) (Datetime.month now)
                   (Datetime.day now) (Datetime.hour now))) as Hpath.
  fold (bucket_next now) in Hpath |- *.
  destruct (bucket_next now) as [[[y m] d] h]. destruct Hpath as [Hdir Hfile].
  intros w. unfold mbind at 1, M_bind at 1, lift. cbv iota beta.
  revert w. change (confined
    (fun p => p `prefix_of` parent (poem_file (y, m, d, h)))
    (eq (poem_file (y, m, d, h)))
    (url ← lift (completion_url m d h);
     poem ← assemble (requests_get url);
     _ ← print (first_three_lines poem);
     _ ← mkdir (bucket_dir y m d h) true true;
     _ ← open_w (div (bucket_dir y m d h) (lit "poem.txt"));
     _ ← write (div (bucket_dir y m d h) (lit "poem.txt"))
           (first_three_lines poem);
     _ ← Volume.commit;
     mret (first_three_lines poem))).
  rewrite Hfile, Hdir.
  apply confined_bind; [apply confined_lift|]. intros url.
  apply confined_bind.
  { eapply confined_mono; [| |apply assemble_confined]; intros p []. }
  intros poem. apply confined_bind; [apply confined_print|]. intros _.
  apply confined_bind.
  { eapply confined_mono; [| |apply confined_mkdir]; [auto | intros p []]. }
  intros _. apply confined_bind.
  { eapply confined_mono; [| |apply confined_open_w]; [intros p [] | auto]. }
  intros _. apply confined_bind.
  { eapply confined_mono; [| |apply confined_write]; [intros p [] | auto]. }
  intros _. apply confined_bind; apply confined_ret.
Qed.


Lemma clear_way_no_file v (file : Path) :
  clear_way v file -> no_file_upto v (parent file).
Proof.
  intros Hclear q c Hq Hnode.
  destruct q as [|x q]; [rewrite node_at_mount in Hnode by apply prefix_nil;
                         discriminate|].
  destruct (prefix_parent (x :: q) file ltac:(discriminate) Hq) as [Hqf Hne].
  unfold node_at in Hnode.
  destruct (bool_decide (x :: q `prefix_of` mount_point)); [discriminate|].
  exact (Hclear _ c Hqf Hne Hnode).
Qed.

(** Opening the file of a directory that exists: it is created, or
    emptied. *)
Lemma open_w_ok (file : Path) w :
  file <> [] -> ~ file `prefix_of` mount_point ->
  node_at (vol w) (parent file) = Some Dir -> dirs_above (vol w) (parent file) ->
  vol w !! file <> Some Dir ->
  open_w file w = (mk_world (<[file := File []]> (vol w)) (out w), Return tt).
Proof.
  intros Hne Hout Hparent Habove Hnotdir.
  unfold open_w. rewrite walk_parent_ok.
  2: { intros q Hq Hqne.
       destruct file as [|x file _] using rev_ind; [contradiction|].
       rewrite parent_snoc in *. apply prefix_snoc_inv in Hq; [|exact Hqne].
       destruct (decide (q = file)) as [-> | Hne']; [exact Hparent|].
       apply Habove; assumption. }
  rewrite node_at_outside by assumption.
  destruct (vol w !! file) as [[|c]|]; [contradiction | reflexivity ..].
Qed.

(** Writing the file of a directory that exists. *)
Lemma write_file_ok (file : Path) text data w :
  file <> [] -> ~ file `prefix_of` mount_point ->
  node_at (vol w) (parent file) = Some Dir -> dirs_above (vol w) (parent file) ->
  vol w !! file <> Some Dir -> Utf8.encode text = Return data ->
  open_w file w = (mk_world (<[file := File []]> (vol w)) (out w), Return tt)
  /\ write file text (mk_world (<[file := File []]> (vol w)) (out w))
     = (mk_world (<[file := File data]> (vol w)) (out w), Return tt).
Proof.
  intros Hne Hout Hparent Habove Hnotdir Henc. split.
  - apply open_w_ok; assumption.
  - unfold write. rewrite Henc. simpl. rewrite insert_insert_eq. reflexivity.
Qed.

(** [write_poem] from the text assembled on, when [print] takes its first
    three lines: the directories of the next bucket are made and the poem
    file is opened, which empties it; then the text is written, or the
    [UnicodeEncodeError] of [f.write] is raised. *)
Lemma write_poem_printed now requests_get w w1 poem :
  Datetime.valid now -> has_next_hour now ->
  clear_way (vol w) (poem_file (bucket_next now)) ->
  vol w !! poem_file (bucket_next now) <> Some Dir ->
  assemble (requests_get (poem_url (bucket_next now))) w = (w1, Return poem) ->
  print (first_three_lines poem) w1
  = (mk_world (vol w1) (out w1 ++ [first_three_lines poem]), Return tt) ->
  exists v3,
    node_at v3 (parent (poem_file (bucket_next now))) = Some Dir /\
    poem_file (bucket_next now) <> parent (poem_file (bucket_next now)) /\
    write_poem now requests_get w
    = match Utf8.encode (first_three_lines poem) with
      | Return data =>
        (mk_world (<[poem_file (bucket_next now) := File data]> v3)
           (out w1 ++ [first_three_lines poem]),
         Return (first_three_lines poem))
      | Raise e =>
        (mk_world (<[poem_file (bucket_next now) := File []]> v3)
           (out w1 ++ [first_three_lines poem]), Raise e)
      end.
Proof.
  intros Hv Hnext Hclear Hnotdir Hasm Hprint.
  pose proof (assemble_keeps_volume
                (requests_get (poem_url (bucket_next now))) w) as Hvol.
  rewrite Hasm in Hvol. simpl in Hvol.
  unfold write_poem. rewrite (get_ymdh_next now Hv Hnext).
  pose proof (bucket_poem_file
                (Civil.next_hour (Datetime.year now) (Datetime.month now)
                   (Datetime.day now) (Datetime.hour now))) as Hpath.
  pose proof (completion_url_ok
                (Civil.next_hour (Datetime.year now) (Datetime.month now)
                   (Datetime.day now) (Datetime.hour now))) as Hurl.
  pose proof (poem_file_outside (bucket_next now)) as Hout.
  fold (bucket_next now) in Hpath, Hurl |- *.
  destruct (bucket_next now) as [[[y m] d] h] eqn:Hb.
  destruct Hpath as [Hdir Hfile].
  unfold mbind at 1, M_bind at 1, lift. cbv iota beta.
  unfold mbind at 1, M_bind at 1. rewrite Hurl. cbv iota beta.
  unfold mbind at 1, M_bind at 1. rewrite Hasm. cbv iota beta zeta.
  unfold mbind at 1, M_bind at 1. rewrite Hprint. cbv iota beta.
  rewrite Hfile, Hdir.
  set (file := poem_file (y, m, d, h)) in *.
  set (w2 := mk_world (vol w1) (out w1 ++ [first_three_lines poem])).
  destruct (mkdir_parents_ok (rev (parent file)) w2)
    as (v3 & Hmk & Hdir3 & Habove3).
  { rewrite rev_involutive. subst w2. cbn [vol]. rewrite Hvol.
    apply clear_way_no_file, Hclear. }
  rewrite rev_involutive in Hdir3, Habove3.
  unfold mbind at 1, M_bind at 1. unfold mkdir. rewrite Hmk. cbv iota beta.
  assert (v3 !! file = vol w !! file) as Hsame.
  { pose proof (confined_mkdir_parents (rev (parent file)) true w2)
      as Hgrows.
    rewrite Hmk in Hgrows. simpl in Hgrows. rewrite <- Hvol.
    apply (grows_frame _ _ _ _ file Hgrows); [|unfold nowhere; tauto].
    intros Hp. apply prefix_length in Hp.
    subst file. simpl in Hp. lia. }
  assert (file <> []) as Hfne by (subst file; discriminate).
  assert (vol (mk_world v3 (out w2)) !! file <> Some Dir) as Hnd
    by (cbn [vol]; rewrite Hsame; exact Hnotdir).
  pose proof (open_w_ok file (mk_world v3 (out w2)) Hfne Hout Hdir3 Habove3
                Hnd) as Hopen.
  exists v3. split; [exact Hdir3|]. split.
  { subst file. intros E. apply (f_equal (@length _)) in E. simpl in E. lia. }
  unfold mbind, M_bind. rewrite Hopen. cbv iota beta. unfold write.
  destruct (Utf8.encode (first_three_lines poem)) as [data|e].
  - unfold Volume.commit, mret, M_ret. cbn [vol out].
    rewrite insert_insert_eq. reflexivity.
  - reflexivity.
Qed.

(** [write_poem] from the text assembled on: it prints the first three
    lines, makes the directories of the next bucket and writes the poem
    file there. *)
Lemma write_poem_runs now requests_get w w1 poem :
  Datetime.valid now -> has_next_hour now ->
  clear_way (vol w) (poem_file (bucket_next now)) ->
  vol w !! poem_file (bucket_next now) <> Some Dir ->
  assemble (requests_get (poem_url (bucket_next now))) w = (w1, Return poem) ->
  Encodable (first_three_lines poem) ->
  exists v' data,
    Utf8.encode (first_three_lines poem) = Return data /\
    write_poem now requests_get w
    = (mk_world v' (out w1 ++ [first_three_lines poem]),
       Return (first_three_lines poem)) /\
    v' !! poem_file (bucket_next now) = Some (File data) /\
    node_at v' (parent (poem_file (bucket_next now))) = Some Dir.
Proof.
  intros Hv Hnext Hclear Hnotdir Hasm Henc.
  destruct (encode_ok _ Henc) as [data Hdata].
  destruct (write_poem_printed now requests_get w w1 poem Hv Hnext Hclear
              Hnotdir Hasm (print_ok _ _ Henc)) as (v3 & Hdir3 & Hne & Hrun).
  rewrite Hdata in Hrun.
  exists (<[poem_file (bucket_next now) := File data]> v3), data.
  split; [exact Hdata|]. split; [exact Hrun|]. split.
  - apply lookup_insert_eq.
  - rewrite node_at_insert_ne; [exact Hdir3|]. exact Hne.
Qed.

End WritePoem.

(** ** The stream and the lines of the poem *)

Section StreamClaims.

Import Fs.

(** C1, for a response that arrives in chunks of whole fragments: when
    each chunk of 1024 bytes that [iter_content] hands over is the text of
    some fragments, empty lines and non-empty lines with a prefix of six
    characters whose remainder is an object with a [text] or is rejected
    with a [JSONDecodeError], and the first line of the chunk that is not
    empty does not begin with white space nor the last one end with it,
    the text assembled is the concatenation of the [text] fields of the
    fragments that parse, in the order of arrival, and each fragment
    that does not parse is skipped after its two lines of diagnostics
    have been printed; the loop goes on to the last fragment. *)
Theorem assemble_whole_fragments response fss w :
  Http.status_code response = 200 ->
  Forall2 (fun chunk fs =>
             Utf8.decode chunk = Return (stream_text fs)
             /\ Forall well_formed fs
             /\ ends_trimmed (map fragment_line fs))
          (Http.iter_content response 1024) fss ->
  assemble response w
  = (emit w (diagnostics (concat fss)), Return (texts (concat fss))).
Proof.
  intros Hstatus Hchunks. unfold assemble. rewrite Hstatus.
  change (200 =? 200) with true. cbv iota.
  apply (for_each_chunks _ fss [] w Hchunks).
Qed.

Lemma sample_text_ok prefix escaped text :
  length prefix = 6%nat ->
  bool_decide (LF ∉ prefix ++ text_object escaped) = true ->
  Json.loads (text_object escaped)
  = Return (Json.JDict [(lit "text", Json.JStr text)]) ->
  well_formed (Text prefix (text_object escaped) text).
Proof.
  intros Hp Hlf Hloads. cbn [well_formed].
  split; [exact Hp|]. split; [exact (bool_decide_eq_true_1 _ Hlf)|].
  eexists. split; [exact Hloads | reflexivity].
Defined.

Lemma sample_garbled_ok prefix remainder e :
  length prefix = 6%nat ->
  bool_decide (LF ∉ prefix ++ remainder) = true ->
  Json.loads remainder = Raise e -> exn_cls e = JSONDecodeError ->
  well_formed (Garbled prefix remainder e).
Proof.
  intros Hp Hlf Hloads Hcls. cbn [well_formed].
  split; [exact Hp|]. split; [exact (bool_decide_eq_true_1 _ Hlf)|].
  split; assumption.
Defined.

Lemma sample_fragments_ok :
  Forall2 (fun chunk fs =>
             Utf8.decode chunk = Return (stream_text fs)
             /\ Forall well_formed fs
             /\ ends_trimmed (map fragment_line fs))
          (Http.iter_content sample_response 1024) sample_fragments.
Proof.
  constructor; [split; [reflexivity | split; [|split; reflexivity]] |
    constructor; [split; [reflexivity | split; [|split; reflexivity]] |
                  constructor]].
  - constructor; [apply sample_text_ok; reflexivity|].
    constructor; [exact I|]. constructor; [exact I|]. constructor.
  - constructor; [apply sample_garbled_ok; reflexivity|].
    constructor; [exact I|].
    constructor; [apply sample_text_ok; reflexivity|].
    constructor; [exact I|]. constructor; [exact I|]. constructor.
Defined.

Lemma assemble_whole_fragments_witness :
  assemble sample_response fresh
  = (emit fresh
       [lit "Error decoding JSON: Expecting value: line 1 column 2 (char 1)";
        lit "data: [DONE]"],
     Return sample_poem).
Proof.
  exact (assemble_whole_fragments sample_response sample_fragments fresh
           eq_refl sample_fragments_ok).
Defined.

(** C1 as it is written fails in three ways.

    A fragment need not arrive in one chunk.  The body of
    [long_response] is one well-formed fragment of 1118 bytes and a
    newline; [iter_content] cuts it after 1024 bytes, the two halves are
    parsed on their own, neither is JSON, and the text assembled is empty
    although the fragment has a [text] of 1100 letters.

    A chunk of whole fragments may begin with white space.  The body of
    [indented_response] is one fragment whose prefix is six spaces;
    [strip] removes them, [line[6:]] cuts into the object, what is left
    is no JSON, and the text assembled is empty although the fragment
    has the [text] [Snow].

    A remainder can fail to parse without a [JSONDecodeError].  Of the
    thousand opening brackets of [nested_line] the scanner enters more
    arrays than the interpreter has frames for, and the [RecursionError],
    which the loop does not catch, ends the aggregation. *)
Lemma assemble_loses_fragments :
  (Http.status_code long_response = 200 /\
   Utf8.decode (concat (Http.raw long_response))
   = Return (stream_text [long_fragment; Blank]) /\
   Forall well_formed [long_fragment; Blank] /\
   ends_trimmed (map fragment_line [long_fragment; Blank]) /\
   texts [long_fragment; Blank] = long_text /\
   map (@length _) (Http.iter_content long_response 1024)
   = [1024%nat; 95%nat] /\
   (assemble long_response fresh).2 = Return [] /\
   length (out (assemble long_response fresh).1) = 4%nat)
  /\
  (Http.status_code indented_response = 200 /\
   Forall2 (fun chunk fs =>
              Utf8.decode chunk = Return (stream_text fs)
              /\ Forall well_formed fs)
           (Http.iter_content indented_response 1024)
           [[indented_fragment; Blank]] /\
   texts [indented_fragment; Blank] = lit "Snow" /\
   assemble indented_response fresh
   = (emit fresh
        [lit "Error decoding JSON: Extra data: line 1 column 5 (char 4)";
         text_object (lit "Snow")],
      Return []))
  /\
  (Http.status_code nested_response = 200 /\
   Utf8.decode (concat (Http.raw nested_response))
   = Return (Str.join [LF] [nested_line; []]) /\
   Json.loads (drop 6 nested_line)
   = Raise (Json.recursion_error Json.an_array) /\
   exn_cls (Json.recursion_error Json.an_array) = RecursionError /\
   map (@length _) (Http.iter_content nested_response 1024) = [1007%nat] /\
   assemble nested_response fresh
   = (fresh, Raise (Json.recursion_error Json.an_array))).
Proof.
  split; [|split].
  - split; [reflexivity|]. split; [vm_compute; reflexivity|].
    split.
    { constructor; [|constructor; [exact I | constructor]].
      apply sample_text_ok; vm_compute; reflexivity. }
    split; [vm_compute; split; reflexivity|].
    split; [vm_compute; reflexivity|]. split; [vm_compute; reflexivity|].
    split; vm_compute; reflexivity.
  - split; [reflexivity|]. split.
    { constructor; [|constructor]. split; [vm_compute; reflexivity|].
      constructor; [|constructor; [exact I | constructor]].
      apply sample_text_ok; vm_compute; reflexivity. }
    split; vm_compute; reflexivity.
  - repeat split; vm_compute; reflexivity.
Qed.

End StreamClaims.

(** ** What [write_poem] leaves behind *)

Section WriteClaims.

Import Fs.

Lemma splitlines_from_no_break s :
  forall cur, no_break cur -> Forall no_break (Lines.splitlines_from cur s).
Proof.
  induction s as [s IH] using (induction_ltof1 _ (@length _)).
  unfold ltof in IH. intros cur Hcur.
  destruct s as [|c s']; cbn [Lines.splitlines_from].
  - destruct cur as [|x cur]; [constructor|].
    constructor; [apply List.Forall_rev, Hcur | constructor].
  - destruct (Lines.is_linebreak c) eqn:Hc.
    + constructor; [apply List.Forall_rev, Hcur|].
      destruct s' as [|c' s'']; [constructor|].
      destruct ((c =? CR)%N && (c' =? LF)%N);
        (apply IH; [simpl; lia | constructor]).
    + apply IH; [simpl; lia|]. constructor; assumption.
Qed.

Lemma splitlines_from_line l :
  forall cur rest, no_break l ->
  Lines.splitlines_from cur (l ++ rest)
  = Lines.splitlines_from (rev l ++ cur) rest.
Proof.
  induction l as [|c l IH]; intros cur rest Hl; [reflexivity|].
  inversion Hl as [|? ? Hc Hl']; subst.
  cbn [app Lines.splitlines_from rev]. rewrite Hc, IH by assumption.
  rewrite <- app_assoc. reflexivity.
Qed.

(** Lines joined by newlines are not more lines than before. *)
Lemma splitlines_join ls :
  Forall no_break ls ->
  (length (Lines.splitlines (Str.join [LF] ls)) <= length ls)%nat.
Proof.
  induction 1 as [|l ls Hl Hls IH]; [simpl; lia|].
  destruct ls as [|l' ls].
  - pose proof (splitlines_from_line l [] [] Hl) as E.
    rewrite !app_nil_r in E. cbn [Str.join]. unfold Lines.splitlines.
    rewrite E. cbn [Lines.splitlines_from].
    destruct (rev l); simpl; lia.
  - rewrite join_cons. unfold Lines.splitlines.
    rewrite splitlines_from_line by assumption. rewrite app_nil_r.
    cbn [app Lines.splitlines_from].
    change (Lines.is_linebreak LF) with true. cbv iota.
    destruct (Str.join [LF] (l' :: ls)) as [|c' s''] eqn:Ej.
    + simpl. lia.
    + change ((LF =? CR)%N) with false. cbn [andb].
      unfold Lines.splitlines in IH. cbn [length] in IH |- *. lia.
Qed.

Lemma first_three_lines_count poem :
  (length (Lines.splitlines (first_three_lines poem)) <= 3)%nat.
Proof.
  unfold first_three_lines.
  etransitivity; [apply splitlines_join|].
  - apply Forall_take. apply splitlines_from_no_break. constructor.
  - rewrite length_take. lia.
Qed.

(** C3.  Whatever the text assembled, the first three lines of the
    stripped aggregate, joined by newlines, are a text of at most three
    lines; and from the text assembled [write_poem] prints, writes to the
    poem file of the next bucket and returns this one text. *)
Theorem write_poem_three_lines now requests_get w w1 poem :
  let final := Str.join [LF] (take 3 (Lines.splitlines (Str.strip poem))) in
  (length (Lines.splitlines final) <= 3)%nat /\
  (Datetime.valid now -> has_next_hour now ->
   clear_way (vol w) (poem_file (bucket_next now)) ->
   vol w !! poem_file (bucket_next now) <> Some Dir ->
   assemble (requests_get (poem_url (bucket_next now))) w
   = (w1, Return poem) ->
   Encodable final ->
   exists w' data,
     write_poem now requests_get w = (w', Return final) /\
     out w' = out w1 ++ [final] /\
     Utf8.encode final = Return data /\
     vol w' !! poem_file (bucket_next now) = Some (File data)).
Proof.
  intros final. split; [apply first_three_lines_count|].
  intros Hv Hnext Hclear Hnotdir Hasm Henc.
  destruct (write_poem_runs now requests_get w w1 poem Hv Hnext Hclear
              Hnotdir Hasm Henc) as (v' & data & Hdata & Hrun & Hfile & _).
  eexists; exists data. split; [exact Hrun|]. cbn [out vol].
  split; [reflexivity|]. split; assumption.
Qed.

Lemma fresh_no_dir path : vol fresh !! path <> Some Dir.
Proof. unfold fresh. cbn [vol]. rewrite lookup_empty. discriminate. Defined.

Lemma sample_assembled :
  assemble (sample_network (poem_url (bucket_next new_years_eve))) fresh
  = (emit fresh
       [lit "Error decoding JSON: Expecting value: line 1 column 2 (char 1)";
        lit "data: [DONE]"],
     Return sample_poem).
Proof. vm_compute. reflexivity. Defined.

Lemma sample_final_encodable :
  Encodable (Str.join [LF] (take 3 (Lines.splitlines (Str.strip sample_poem)))).
Proof. apply latin_encodable. vm_compute. repeat constructor. Defined.

Lemma write_poem_three_lines_witness :
  let final :=
    Str.join [LF] (take 3 (Lines.splitlines (Str.strip sample_poem))) in
  (length (Lines.splitlines final) <= 3)%nat /\
  exists w' data,
    write_poem new_years_eve sample_network fresh = (w', Return final) /\
    out w' = out (emit fresh
                    [lit "Error decoding JSON: Expecting value: line 1 column 2 (char 1)";
                     lit "data: [DONE]"]) ++ [final] /\
    Utf8.encode final = Return data /\
    vol w' !! poem_file (bucket_next new_years_eve) = Some (File data).
Proof.
  pose proof (write_poem_three_lines new_years_eve sample_network fresh
                (emit fresh
                   [lit "Error decoding JSON: Expecting value: line 1 column 2 (char 1)";
                    lit "data: [DONE]"])
                sample_poem) as [Hcount Hrun].
  split; [exact Hcount|].
  exact (Hrun new_years_eve_valid new_years_eve_has_next
           (clear_way_empty _) (fresh_no_dir _) sample_assembled
           sample_final_encodable).
Defined.

(** *** A fetch that brings nothing *)










End WriteClaims.

(** ** The layout of the volume and what stays as it is *)

Section LayoutClaims.

Import Fs.


Lemma poem_file_not_above b b' :
  ~ poem_file b `prefix_of` parent (poem_file b').
Proof.
  destruct b as [[[y m] d] h], b' as [[[y' m'] d'] h'].
  intros H. apply prefix_length in H. simpl in H. lia.
Qed.

(** A successful run of [write_poem] leaves the text it returns, encoded,
    in the poem file of the next bucket. *)
Lemma write_poem_returns now requests_get w w' text :
  Datetime.valid now -> has_next_hour now ->
  write_poem now requests_get w = (w', Return text) ->
  exists data,
    Utf8.encode text = Return data
    /\ vol w' !! poem_file (bucket_next now) = Some (File data).
Proof.
  intros Hv Hnext. unfold write_poem. rewrite (get_ymdh_next now Hv Hnext).
  pose proof (bucket_poem_file
                (Civil.next_hour (Datetime.year now) (Datetime.month now)
                   (Datetime.day now) (Datetime.hour now))) as Hpath.
  fold (bucket_next now) in Hpath |- *.
  destruct (bucket_next now) as [[[y m] d] h]. destruct Hpath as [_ Hfile].
  unfold mbind, M_bind, lift. cbv iota beta. rewrite Hfile.
  destruct (completion_url m d h) as [url|e]; [|discriminate].
  destruct (assemble _ w) as [w1 [poem|e]]; [|discriminate].
  destruct (print _ w1) as [w2 [[]|e]]; [|discriminate].
  destruct (mkdir _ true true w2) as [w3 [[]|e]]; [|discriminate].
  destruct (open_w _ w3) as [w4 [[]|e]]; [|discriminate].
  unfold write.
  destruct (Utf8.encode (first_three_lines poem)) as [data|e] eqn:Henc;
    [|discriminate].
  unfold Volume.commit, mret, M_ret. intros [= <- <-].
  exists data. split; [exact Henc|]. cbn [vol]. apply lookup_insert_eq.
Qed.



(** C6.  The buckets are those of [get_ymdh], of the current hour for
    [poem] and of the next hour for [write_poem]; the path of a bucket
    reads [/root/poems/{year}/{month}/{day}/{hour}/poem.txt]; [poem] prints
    that path for the current bucket and reads the file there; a run of
    [write_poem] that returns has left the text it returns in the file at
    that path for the next bucket, and any other file on the volume was
    there before. *)
Theorem poem_path_layout now requests_get w :
  Datetime.valid now -> has_next_hour now ->
  get_ymdh false now = Return (bucket_now now) /\
  get_ymdh true now = Return (bucket_next now) /\
  (forall year month day hour,
     to_str (poem_file (year, month, day, hour))
     = lit "/root/poems/" ++ year ++ lit "/" ++ month ++ lit "/" ++ day
       ++ lit "/" ++ hour ++ lit "/poem.txt") /\
  poem now w
  = try_except (read_text (poem_file (bucket_now now))) poem_handlers
      (emit w [lit "retrieving poem from "
               ++ to_str (poem_file (bucket_now now))]) /\
  (forall w' text,
     write_poem now requests_get w = (w', Return text) ->
     exists data,
       Utf8.encode text = Return data
       /\ vol w' !! poem_file (bucket_next now) = Some (File data)) /\
  (forall p c,
     vol (write_poem now requests_get w).1 !! p = Some (File c) ->
     p = poem_file (bucket_next now) \/ vol w !! p = Some (File c)).
Proof.
  intros Hv Hnext.
  split; [apply get_ymdh_now, Hv|].
  split; [apply get_ymdh_next; assumption|].
  split; [reflexivity|].
  split; [rewrite to_str_poem_file; apply poem_reads, Hv|].
  split; [intros w' text; apply write_poem_returns; assumption|].
  intros p c Hfile.
  destruct (decide (p = poem_file (bucket_next now))) as [E | E];
    [left; exact E | right].
  destruct (write_poem_confined now requests_get Hv Hnext w) as (_ & Hnew & _).
  destruct (Hnew p (File c) ltac:(congruence) Hfile) as [H | [_ H]];
    [exact H | discriminate].
Qed.

Lemma poem_path_layout_witness :
  get_ymdh false new_years_eve = Return (bucket_now new_years_eve) /\
  get_ymdh true new_years_eve = Return (bucket_next new_years_eve) /\
  (forall year month day hour,
     to_str (poem_file (year, month, day, hour))
     = lit "/root/poems/" ++ year ++ lit "/" ++ month ++ lit "/" ++ day
       ++ lit "/" ++ hour ++ lit "/poem.txt") /\
  poem new_years_eve fresh
  = try_except (read_text (poem_file (bucket_now new_years_eve)))
      poem_handlers
      (emit fresh [lit "retrieving poem from "
                   ++ to_str (poem_file (bucket_now new_years_eve))]) /\
  (forall w' text,
     write_poem new_years_eve sample_network fresh = (w', Return text) ->
     exists data,
       Utf8.encode text = Return data
       /\ vol w' !! poem_file (bucket_next new_years_eve)
          = Some (File data)) /\
  (forall p c,
     vol (write_poem new_years_eve sample_network fresh).1 !! p
     = Some (File c) ->
     p = poem_file (bucket_next new_years_eve)
     \/ vol fresh !! p = Some (File c)).
Proof.
  exact (poem_path_layout new_years_eve sample_network fresh
           new_years_eve_valid new_years_eve_has_next).
Defined.

End LayoutClaims.

(** ** What is written as UTF-8 is read back *)

Section Utf8RoundTrip.

Import Utf8.

Lemma byte_of_to_N n : (n < 256)%N -> Byte.to_N (byte_of n) = n.
Proof.
  intros H. unfold byte_of. rewrite N.mod_small by exact H.
  destruct (Byte.of_N n) as [b|] eqn:E.
  - apply Byte.to_of_N, E.
  - apply Byte.of_N_None_iff in E. lia.
Qed.

Ltac ndiv := zify; Z.to_euclidean_division_equations; lia.

Lemma continuation_byte n :
  (n < 64)%N -> is_continuation (128 + n) = true.
Proof.
  intros H. unfold is_continuation.
  apply andb_true_iff. split; [apply N.leb_le | apply N.ltb_lt]; lia.
Qed.

Lemma decode_1 pos b0 r :
  (Byte.to_N b0 < 128)%N ->
  decode_from pos (b0 :: r)
  = cons_to (Byte.to_N b0) (decode_from (pos + 1) r).
Proof.
  intros H. simpl. destruct (N.ltb_spec (Byte.to_N b0) 128); [|lia].
  reflexivity.
Qed.

Lemma decode_2 pos b0 b1 r :
  (194 <= Byte.to_N b0 < 224)%N -> is_continuation (Byte.to_N b1) = true ->
  decode_from pos (b0 :: b1 :: r)
  = cons_to (N.shiftl (Byte.to_N b0) 6 + Byte.to_N b1 - 12416)%N
            (decode_from (pos + 2) r).
Proof.
  intros H0 H1. simpl.
  destruct (N.ltb_spec (Byte.to_N b0) 128); [lia|].
  destruct (N.ltb_spec (Byte.to_N b0) 194); [lia|].
  destruct (N.ltb_spec (Byte.to_N b0) 224); [|lia].
  rewrite H1. reflexivity.
Qed.

Lemma decode_3 pos b0 b1 b2 r :
  (224 <= Byte.to_N b0 < 240)%N ->
  second_of_3 (Byte.to_N b0) (Byte.to_N b1) = true ->
  is_continuation (Byte.to_N b2) = true ->
  decode_from pos (b0 :: b1 :: b2 :: r)
  = cons_to (N.shiftl (Byte.to_N b0) 12 + N.shiftl (Byte.to_N b1) 6
             + Byte.to_N b2 - 925824)%N
            (decode_from (pos + 3) r).
Proof.
  intros H0 H1 H2. simpl.
  destruct (N.ltb_spec (Byte.to_N b0) 128); [lia|].
  destruct (N.ltb_spec (Byte.to_N b0) 194); [lia|].
  destruct (N.ltb_spec (Byte.to_N b0) 224); [lia|].
  destruct (N.ltb_spec (Byte.to_N b0) 240); [|lia].
  rewrite H1, H2. reflexivity.
Qed.

Lemma decode_4 pos b0 b1 b2 b3 r :
  (240 <= Byte.to_N b0 < 245)%N ->
  second_of_4 (Byte.to_N b0) (Byte.to_N b1) = true ->
  is_continuation (Byte.to_N b2) = true ->
  is_continuation (Byte.to_N b3) = true ->
  decode_from pos (b0 :: b1 :: b2 :: b3 :: r)
  = cons_to (N.shiftl (Byte.to_N b0) 18 + N.shiftl (Byte.to_N b1) 12
             + N.shiftl (Byte.to_N b2) 6 + Byte.to_N b3 - 63447168)%N
            (decode_from (pos + 4) r).
Proof.
  intros H0 H1 H2 H3. simpl.
  destruct (N.ltb_spec (Byte.to_N b0) 128); [lia|].
  destruct (N.ltb_spec (Byte.to_N b0) 194); [lia|].
  destruct (N.ltb_spec (Byte.to_N b0) 224); [lia|].
  destruct (N.ltb_spec (Byte.to_N b0) 240); [lia|].
  destruct (N.ltb_spec (Byte.to_N b0) 245); [|lia].
  rewrite H1, H2, H3. reflexivity.
Qed.

(** The bytes of one character are decoded to it. *)
Lemma decode_encode_char c pos rest :
  encodable c = true ->
  exists k,
    decode_from pos (encode_char c ++ rest)
    = cons_to c (decode_from (pos + k) rest).
Proof.
  intros Hc. apply encodable_iff in Hc. unfold encode_char.
  destruct (N.ltb_spec c 128) as [H1|H1].
  { exists 1. cbn [app]. rewrite decode_1; rewrite byte_of_to_N by lia;
      [reflexivity | lia]. }
  destruct (N.ltb_spec c 2048) as [H2|H2].
  { exists 2. cbn [app].
    assert (c / 64 < 32 /\ c mod 64 < 64 /\ 2 <= c / 64)%N as (? & ? & ?)
      by ndiv.
    rewrite decode_2; rewrite ?byte_of_to_N by ndiv.
    - f_equal. rewrite N.shiftl_mul_pow2. change (2 ^ 6)%N with 64%N. ndiv.
    - ndiv.
    - apply continuation_byte. ndiv. }
  destruct (N.ltb_spec c 65536) as [H3|H3].
  { exists 3. cbn [app].
    assert (c / 4096 < 16 /\ (c / 64) mod 64 < 64 /\ c mod 64 < 64)%N
      as (? & ? & ?) by ndiv.
    rewrite decode_3; rewrite ?byte_of_to_N by ndiv.
    - f_equal. rewrite !N.shiftl_mul_pow2.
      change (2 ^ 12)%N with 4096%N. change (2 ^ 6)%N with 64%N. ndiv.
    - ndiv.
    - unfold second_of_3. rewrite continuation_byte by ndiv. cbn [andb].
      apply negb_true_iff.
      destruct (N.ltb_spec (128 + (c / 64) mod 64) 160);
        apply N.eqb_neq; ndiv.
    - apply continuation_byte. ndiv. }
  exists 4. cbn [app].
  assert (c / 262144 < 5 /\ (c / 4096) mod 64 < 64
          /\ (c / 64) mod 64 < 64 /\ c mod 64 < 64)%N
    as (? & ? & ? & ?) by ndiv.
  rewrite decode_4; rewrite ?byte_of_to_N by ndiv.
  - f_equal. rewrite !N.shiftl_mul_pow2.
    change (2 ^ 18)%N with 262144%N. change (2 ^ 12)%N with 4096%N.
    change (2 ^ 6)%N with 64%N. ndiv.
  - ndiv.
  - unfold second_of_4. rewrite continuation_byte by ndiv. cbn [andb].
    apply negb_true_iff.
    destruct (N.ltb_spec (128 + (c / 4096) mod 64) 144);
      apply N.eqb_neq; ndiv.
  - apply continuation_byte. ndiv.
  - apply continuation_byte. ndiv.
Qed.

Lemma decode_encode_from s :
  forall pos pos' data,
    encode_from pos' s = Return data -> decode_from pos data = Return s.
Proof.
  induction s as [|c s IH]; intros pos pos' data.
  - intros [= <-]. reflexivity.
  - cbn [encode_from]. destruct (encodable c) eqn:Hc; [|discriminate].
    destruct (encode_from (pos' + 1) s) as [bs|e] eqn:Hbs; [|discriminate].
    intros [= <-].
    destruct (decode_encode_char c pos bs Hc) as [k ->].
    rewrite (IH _ _ _ Hbs). reflexivity.
Qed.

Lemma decode_encode s data :
  encode s = Return data -> decode data = Return s.
Proof. apply decode_encode_from. Qed.

End Utf8RoundTrip.

(** ** More on [poem] *)

Section PoemCases.

Import Fs.

Lemma strict_prefixes_spec (q path : Path) :
  q `prefix_of` path -> q <> path -> q ∈ strict_prefixes path.
Proof.
  revert q. induction path as [|x path IH]; intros q Hq Hne.
  - apply prefix_nil_inv in Hq. contradiction.
  - cbn [strict_prefixes]. destruct q as [|y q]; [left|].
    destruct Hq as [k Hk]. injection Hk as <- ->.
    right. apply list_elem_of_fmap. exists q. split; [reflexivity|].
    apply IH; [eexists; reflexivity | congruence].
Qed.

Lemma dirs_check_ok v path : dirs_check v path = true -> dirs_above v path.
Proof.
  unfold dirs_check. rewrite forallb_forall. intros H q Hq Hne.
  specialize (H q). rewrite <- list_elem_of_In in H.
  specialize (H (strict_prefixes_spec q path Hq Hne)).
  destruct (node_at v q) as [[|c]|]; [reflexivity | discriminate ..].
Qed.

(** The walk stops at the first component that is a regular file. *)
Lemma walk_stops_at_file v full todo1 :
  forall done name todo2 c,
    (forall q, q <> [] -> q `prefix_of` todo1 ->
               node_at v (done ++ q) = Some Dir) ->
    node_at v (done ++ todo1 ++ [name]) = Some (File c) ->
    walk v full done (todo1 ++ name :: todo2) = Raise (ENOTDIR full).
Proof.
  induction todo1 as [|x todo1 IH]; intros done name todo2 c Hdirs Hfile.
  - cbn [app walk] in *. rewrite Hfile. reflexivity.
  - cbn [app walk].
    rewrite (Hdirs [x]); [|discriminate | apply prefix_cons, prefix_nil].
    apply (IH _ _ _ c).
    + intros q Hq Hpre. rewrite <- app_assoc. apply Hdirs; [discriminate|].
      apply prefix_cons, Hpre.
    + rewrite <- app_assoc. exact Hfile.
Qed.

Lemma read_text_not_a_directory (file q : Path) c w :
  q `prefix_of` file -> q <> file ->
  node_at (vol w) q = Some (File c) -> dirs_above (vol w) q ->
  read_text file w = (w, Raise (ENOTDIR file)).
Proof.
  intros [k ->] Hne Hfile Habove.
  destruct q as [|name q _] using rev_ind.
  { rewrite node_at_mount in Hfile by apply prefix_nil. discriminate. }
  assert (k <> []) as Hk by (intros ->; apply Hne; rewrite app_nil_r; reflexivity).
  unfold read_text, read_bytes, mbind, M_bind, parent.
  rewrite removelast_app by exact Hk.
  replace ((q ++ [name]) ++ removelast k) with (q ++ name :: removelast k)
    by (rewrite <- app_assoc; reflexivity).
  rewrite (walk_stops_at_file _ _ q [] name _ c); [reflexivity| |exact Hfile].
  intros q' Hq' Hpre. cbn [app]. apply Habove.
  - etransitivity; [exact Hpre | apply prefix_app_r; reflexivity].
  - intros ->. apply prefix_length in Hpre. rewrite length_app in Hpre.
    simpl in Hpre. lia.
Qed.

(** The line [poem] prints before it reads. *)
Lemma poem_reads_emit now w :
  Datetime.valid now ->
  poem now w =
  try_except (read_text (poem_file (bucket_now now))) poem_handlers
    (emit w [lit "retrieving poem from " ++ poem_file_name (bucket_now now)]).
Proof. apply poem_reads. Qed.

(** X1.  With the directories of the current bucket in place and a poem
    file there whose bytes are UTF-8, [poem] prints the path and returns
    the text of the file, with [\r\n] and [\r] turned into [\n]; the
    volume is as before. *)
Theorem poem_returns_stored now w data text :
  Datetime.valid now ->
  dirs_above (vol w) (poem_file (bucket_now now)) ->
  vol w !! poem_file (bucket_now now) = Some (File data) ->
  Utf8.decode data = Return text ->
  poem now w
  = (emit w [lit "retrieving poem from " ++ poem_file_name (bucket_now now)],
     Return (Lines.universal_newlines text)).
Proof.
  intros Hv Habove Hfile Hdec. rewrite (poem_reads_emit now w Hv).
  unfold try_except, read_text, read_bytes, mbind, M_bind, lift.
  cbn [emit vol]. rewrite (walk_parent_ok _ _ Habove).
  rewrite node_at_outside by apply poem_file_outside.
  rewrite Hfile, Hdec. reflexivity.
Qed.

Lemma after_write_dirs :
  dirs_above (vol after_write) (poem_file (bucket_now new_year)).
Proof. apply dirs_check_ok. vm_compute. reflexivity. Defined.

Lemma new_year_valid : Datetime.valid new_year.
Proof. repeat split; vm_compute; congruence. Defined.

Lemma poem_returns_stored_witness :
  poem new_year after_write
  = (emit after_write
       [lit "retrieving poem from /root/poems/2024/01/01/00/poem.txt"],
     Return (lit "Old year ends" ++ [LF] ++ lit "Bells ring" ++ [LF]
             ++ lit "New dawn")).
Proof.
  exact (poem_returns_stored new_year after_write
           (map Utf8.byte_of
              (lit "Old year ends" ++ [LF] ++ lit "Bells ring" ++ [LF]
               ++ lit "New dawn"))
           _ new_year_valid after_write_dirs eq_refl eq_refl).
Defined.

(** X2.  With a directory where the poem file should be, [poem] returns
    the second verse, which shows the [IsADirectoryError]. *)
Theorem poem_is_a_directory now w :
  Datetime.valid now ->
  dirs_above (vol w) (poem_file (bucket_now now)) ->
  vol w !! poem_file (bucket_now now) = Some Dir ->
  poem now w
  = (emit w [lit "retrieving poem from " ++ poem_file_name (bucket_now now)],
     Return (lit "An unknown exception, caught by surprise," ++ [LF]
             ++ lit "Silent code fails, under the user's eyes." ++ [LF]
             ++ lit "Exception: [Errno 21] Is a directory: '"
             ++ poem_file_name (bucket_now now) ++ lit "'")).
Proof.
  intros Hv Habove Hdir. rewrite (poem_reads_emit now w Hv).
  unfold try_except, read_text, read_bytes, mbind, M_bind, lift.
  cbn [emit vol]. rewrite (walk_parent_ok _ _ Habove).
  rewrite node_at_outside by apply poem_file_outside.
  rewrite Hdir.
  unfold handle, poem_handlers, mret, M_ret.
  change (isinstance (EISDIR (poem_file (bucket_now now))) FileNotFoundError)
    with false.
  change (isinstance (EISDIR (poem_file (bucket_now now))) Exception)
    with true. cbv iota.
  unfold unknown_verse, EISDIR, os_error, repr. cbn [exn_str].
  rewrite to_str_poem_file. change (Str.of_int 21) with (lit "21").
  reflexivity.
Qed.

Lemma dir_for_poem_dirs :
  dirs_above (vol dir_for_poem) (poem_file (bucket_now new_year)).
Proof. apply dirs_check_ok. vm_compute. reflexivity. Defined.

Lemma poem_is_a_directory_witness :
  poem new_year dir_for_poem
  = (emit dir_for_poem
       [lit "retrieving poem from " ++ poem_file_name (bucket_now new_year)],
     Return (lit "An unknown exception, caught by surprise," ++ [LF]
             ++ lit "Silent code fails, under the user's eyes." ++ [LF]
             ++ lit "Exception: [Errno 21] Is a directory: '"
             ++ poem_file_name (bucket_now new_year) ++ lit "'")).
Proof.
  exact (poem_is_a_directory new_year dir_for_poem new_year_valid
           dir_for_poem_dirs eq_refl).
Defined.

(** X3.  With a regular file where a directory of the bucket should be,
    [poem] returns the second verse, which shows the
    [NotADirectoryError] for the path of the poem file. *)
Theorem poem_not_a_directory now w q c :
  Datetime.valid now ->
  q `prefix_of` poem_file (bucket_now now) ->
  q <> poem_file (bucket_now now) ->
  node_at (vol w) q = Some (File c) -> dirs_above (vol w) q ->
  poem now w
  = (emit w [lit "retrieving poem from " ++ poem_file_name (bucket_now now)],
     Return (lit "An unknown exception, caught by surprise," ++ [LF]
             ++ lit "Silent code fails, under the user's eyes." ++ [LF]
             ++ lit "Exception: [Errno 20] Not a directory: '"
             ++ poem_file_name (bucket_now now) ++ lit "'")).
Proof.
  intros Hv Hpre Hne Hfile Habove. rewrite (poem_reads_emit now w Hv).
  unfold try_except.
  rewrite (read_text_not_a_directory _ q c (emit w _) Hpre Hne Hfile Habove).
  unfold handle, poem_handlers, mret, M_ret.
  change (isinstance (ENOTDIR (poem_file (bucket_now now))) FileNotFoundError)
    with false.
  change (isinstance (ENOTDIR (poem_file (bucket_now now))) Exception)
    with true. cbv iota.
  unfold unknown_verse, ENOTDIR, os_error, repr. cbn [exn_str].
  rewrite to_str_poem_file. change (Str.of_int 20) with (lit "20").
  reflexivity.
Qed.

Lemma file_for_year_prefix :
  [lit "root"; lit "poems"; lit "2024"]
  `prefix_of` poem_file (bucket_now new_year).
Proof. eexists. reflexivity. Defined.

Lemma file_for_year_dirs :
  dirs_above (vol file_for_year) [lit "root"; lit "poems"; lit "2024"].
Proof. apply dirs_check_ok. vm_compute. reflexivity. Defined.

Lemma poem_not_a_directory_witness :
  poem new_year file_for_year
  = (emit file_for_year
       [lit "retrieving poem from " ++ poem_file_name (bucket_now new_year)],
     Return (lit "An unknown exception, caught by surprise," ++ [LF]
             ++ lit "Silent code fails, under the user's eyes." ++ [LF]
             ++ lit "Exception: [Errno 20] Not a directory: '"
             ++ poem_file_name (bucket_now new_year) ++ lit "'")).
Proof.
  exact (poem_not_a_directory new_year file_for_year
           [lit "root"; lit "poems"; lit "2024"] [] new_year_valid
           file_for_year_prefix ltac:(discriminate) eq_refl
           file_for_year_dirs).
Defined.

(** X4.  With bytes in the poem file that are no UTF-8, [poem] returns
    the second verse with the message of the [UnicodeDecodeError]. *)
Theorem poem_undecodable now w data e :
  Datetime.valid now ->
  dirs_above (vol w) (poem_file (bucket_now now)) ->
  vol w !! poem_file (bucket_now now) = Some (File data) ->
  Utf8.decode data = Raise e ->
  exn_cls e = UnicodeDecodeError /\
  poem now w
  = (emit w [lit "retrieving poem from " ++ poem_file_name (bucket_now now)],
     Return (lit "An unknown exception, caught by surprise," ++ [LF]
             ++ lit "Silent code fails, under the user's eyes." ++ [LF]
             ++ lit "Exception: " ++ exn_str e)).
Proof.
  intros Hv Habove Hfile Hdec.
  pose proof (decode_from_raises _ _ _ Hdec) as Hcls.
  split; [exact Hcls|]. rewrite (poem_reads_emit now w Hv).
  unfold try_except, read_text, read_bytes, mbind, M_bind, lift.
  cbn [emit vol]. rewrite (walk_parent_ok _ _ Habove).
  rewrite node_at_outside by apply poem_file_outside.
  rewrite Hfile, Hdec.
  unfold handle, poem_handlers, isinstance. rewrite Hcls. reflexivity.
Qed.

Lemma garbage_poem_dirs :
  dirs_above (vol garbage_poem) (poem_file (bucket_now new_year)).
Proof. apply dirs_check_ok. vm_compute. reflexivity. Defined.

Lemma poem_undecodable_witness :
  exn_cls (Utf8.decode_error 255 0 1 Utf8.invalid_start) = UnicodeDecodeError
  /\ poem new_year garbage_poem
  = (emit garbage_poem
       [lit "retrieving poem from " ++ poem_file_name (bucket_now new_year)],
     Return (lit "An unknown exception, caught by surprise," ++ [LF]
             ++ lit "Silent code fails, under the user's eyes." ++ [LF]
             ++ lit "Exception: "
             ++ lit "'utf-8' codec can't decode byte 0xff in position 0: invalid start byte")).
Proof.
  exact (poem_undecodable new_year garbage_poem [xff; xfe]
           (Utf8.decode_error 255 0 1 Utf8.invalid_start) new_year_valid
           garbage_poem_dirs eq_refl eq_refl).
Defined.

End PoemCases.

(** ** More on [write_poem] *)

Section WriteExtras.

Import Fs.

Lemma print_vol s w : vol (print s w).1 = vol w.
Proof. unfold print. destruct (Utf8.encode_escaping s); reflexivity. Qed.

Lemma encode_from_encodable s :
  forall pos data, Utf8.encode_from pos s = Return data -> Encodable s.
Proof.
  induction s as [|c s IH]; intros pos data; [constructor|].
  cbn [Utf8.encode_from]. destruct (Utf8.encodable c) eqn:Hc; [|discriminate].
  destruct (Utf8.encode_from (pos + 1) s) as [bs|e] eqn:Hbs; [|discriminate].
  intros _. constructor; [exact Hc | exact (IH _ _ Hbs)].
Qed.

Lemma parent_shorter (path : Path) :
  path <> [] -> (length (parent path) < length path)%nat.
Proof.
  destruct path as [|x path _] using rev_ind; [contradiction|]. intros _.
  rewrite parent_snoc, length_app. simpl. lia.
Qed.

(** An entry at a path does not matter for the walk to paths that are
    not longer. *)
Lemma walk_insert v (file : Path) n full todo :
  forall done,
    (length (done ++ todo) < length file)%nat ->
    walk (<[file := n]> v) full done todo = walk v full done todo.
Proof.
  induction todo as [|name todo IH]; intros done Hlen; [reflexivity|].
  cbn [walk]. rewrite node_at_insert_ne.
  - destruct (node_at v (done ++ [name])) as [[|c]|]; try reflexivity.
    apply IH. rewrite <- app_assoc. exact Hlen.
  - intros ->. rewrite !length_app in Hlen. simpl in Hlen. lia.
Qed.

Lemma open_w_returns path w w' :
  open_w path w = (w', Return tt) ->
  walk (vol w) path [] (parent path) = Return tt
  /\ vol w' = <[path := File []]> (vol w).
Proof.
  unfold open_w.
  destruct (walk (vol w) path [] (parent path)) as [[]|e]; [|discriminate].
  destruct (node_at (vol w) path) as [[|c]|]; [discriminate | ..];
    intros [= <-]; split; reflexivity.
Qed.

(** A run of [write_poem] that returns: the text is the first three
    lines of some text, it is in the poem file of the next bucket, and
    the directories down to this file are there. *)
Lemma write_poem_returns_inv now requests_get w w' text :
  Datetime.valid now -> has_next_hour now ->
  write_poem now requests_get w = (w', Return text) ->
  exists poem data,
    text = first_three_lines poem
    /\ Utf8.encode text = Return data
    /\ vol w' !! poem_file (bucket_next now) = Some (File data)
    /\ walk (vol w') (poem_file (bucket_next now)) []
         (parent (poem_file (bucket_next now))) = Return tt.
Proof.
  intros Hv Hnext. unfold write_poem. rewrite (get_ymdh_next now Hv Hnext).
  pose proof (bucket_poem_file
                (Civil.next_hour (Datetime.year now) (Datetime.month now)
                   (Datetime.day now) (Datetime.hour now))) as Hpath.
  fold (bucket_next now) in Hpath |- *.
  destruct (bucket_next now) as [[[y m] d] h]. destruct Hpath as [_ Hfile].
  unfold mbind, M_bind, lift. cbv iota beta. rewrite Hfile.
  set (file := poem_file (y, m, d, h)).
  destruct (completion_url m d h) as [url|e]; [|discriminate].
  destruct (assemble _ w) as [w1 [poem|e]]; [|discriminate].
  destruct (print _ w1) as [w2 [[]|e]]; [|discriminate].
  destruct (mkdir _ true true w2) as [w3 [[]|e]]; [|discriminate].
  destruct (open_w file w3) as [w4 [[]|e]] eqn:Hopen; [|discriminate].
  apply open_w_returns in Hopen as [Hwalk Hvol4].
  unfold write.
  destruct (Utf8.encode (first_three_lines poem)) as [data|e] eqn:Henc;
    [|discriminate].
  unfold Volume.commit, mret, M_ret. intros [= <- <-].
  exists poem, data. split; [reflexivity|]. split; [exact Henc|].
  cbn [vol]. split; [apply lookup_insert_eq|].
  rewrite Hvol4, insert_insert_eq.
  rewrite walk_insert; [exact Hwalk|].
  apply parent_shorter. discriminate.
Qed.

Lemma universal_newlines_id s :
  CR ∉ s -> Lines.universal_newlines s = s.
Proof.
  induction s as [|c s IH]; [reflexivity|]. intros H.
  apply not_elem_of_cons in H as [Hc Hs]. cbn [Lines.universal_newlines].
  destruct (N.eqb_spec c CR); [congruence|]. rewrite IH by exact Hs.
  reflexivity.
Qed.

(** In lines joined by newlines the newlines are the only characters
    that end a line. *)
Lemma join_line_ends ls :
  Forall no_break ls ->
  Forall (fun c => Lines.is_linebreak c = true -> c = LF) (Str.join [LF] ls).
Proof.
  induction 1 as [|l ls Hl Hls IH]; [constructor|].
  assert (Forall (fun c => Lines.is_linebreak c = true -> c = LF) l) as Hl'.
  { eapply Forall_impl; [exact Hl|]. intros c Hc Hb. congruence. }
  destruct ls as [|l' ls]; [exact Hl'|].
  rewrite join_cons. rewrite !Forall_app. split; [exact Hl'|].
  split; [|exact IH]. constructor; [reflexivity | constructor].
Qed.

Lemma first_three_lines_ends poem :
  Forall (fun c => Lines.is_linebreak c = true -> c = LF)
         (first_three_lines poem).
Proof.
  unfold first_three_lines. apply join_line_ends, Forall_take.
  apply splitlines_from_no_break. constructor.
Qed.

Lemma first_three_lines_no_cr poem : CR ∉ first_three_lines poem.
Proof.
  intros H. pose proof (first_three_lines_ends poem) as Hends.
  rewrite Forall_forall in Hends. specialize (Hends CR H eq_refl).
  discriminate.
Qed.

(** X5.  What [write_poem] returns, [poem] returns in the hour it was
    written for: after a run of [write_poem] that returns a text, [poem]
    at any reading of the clock in the next hour's bucket returns this
    very text. *)
Theorem poem_after_write_poem now later requests_get w w' text :
  Datetime.valid now -> has_next_hour now ->
  Datetime.valid later -> bucket_now later = bucket_next now ->
  write_poem now requests_get w = (w', Return text) ->
  poem later w'
  = (emit w' [lit "retrieving poem from " ++ poem_file_name (bucket_next now)],
     Return text).
Proof.
  intros Hv Hnext Hlater Hbucket Hrun.
  destruct (write_poem_returns_inv now requests_get w w' text Hv Hnext Hrun)
    as (poem0 & data & -> & Henc & Hfile & Hwalk).
  rewrite (poem_reads_emit later w' Hlater), Hbucket.
  unfold try_except, read_text, read_bytes, mbind, M_bind, lift.
  cbn [emit vol]. rewrite Hwalk.
  rewrite node_at_outside by apply poem_file_outside.
  rewrite Hfile, (decode_encode _ _ Henc).
  unfold mret, M_ret.
  rewrite universal_newlines_id by apply first_three_lines_no_cr.
  reflexivity.
Qed.

Lemma returned {A} (x : world * result A) a :
  x.2 = Return a -> x = (x.1, Return a).
Proof. destruct x as [w r]. cbn. intros ->. reflexivity. Defined.

Lemma sample_run :
  write_poem new_years_eve sample_network fresh
  = (after_write,
     Return (lit "Old year ends" ++ [LF] ++ lit "Bells ring" ++ [LF]
             ++ lit "New dawn")).
Proof.
  unfold after_write.
  apply (returned (write_poem new_years_eve sample_network fresh)).
  vm_compute. reflexivity.
Defined.

Lemma poem_after_write_poem_witness :
  poem new_year after_write
  = (emit after_write
       [lit "retrieving poem from "
        ++ poem_file_name (bucket_next new_years_eve)],
     Return (lit "Old year ends" ++ [LF] ++ lit "Bells ring" ++ [LF]
             ++ lit "New dawn")).
Proof.
  exact (poem_after_write_poem new_years_eve new_year sample_network fresh
           after_write _ new_years_eve_valid new_years_eve_has_next
           new_year_valid eq_refl sample_run).
Defined.

(** X6.  The text [write_poem] settles on has no line end but [\n]:
    whatever was assembled, a character of [first_three_lines] at which
    [splitlines] breaks is a newline, there is no carriage return in it,
    and reading it in text mode changes nothing. *)
Theorem final_text_line_ends poem :
  let final := Str.join [LF] (take 3 (Lines.splitlines (Str.strip poem))) in
  Forall (fun c => Lines.is_linebreak c = true -> c = LF) final
  /\ (CR ∉ final)
  /\ Lines.universal_newlines final = final.
Proof.
  intros final. split; [apply first_three_lines_ends|].
  split; [apply first_three_lines_no_cr|].
  apply universal_newlines_id, first_three_lines_no_cr.
Qed.

(** The entry at the poem file after a run of [write_poem], however it
    ends: the entry before the run, or a regular file. *)
Lemma write_poem_file_entry now requests_get w :
  Datetime.valid now -> has_next_hour now ->
  let v' := vol (write_poem now requests_get w).1 in
  v' !! poem_file (bucket_next now) = vol w !! poem_file (bucket_next now)
  \/ exists c, v' !! poem_file (bucket_next now) = Some (File c).
Proof.
  intros Hv Hnext. unfold write_poem. rewrite (get_ymdh_next now Hv Hnext).
  pose proof (bucket_poem_file
                (Civil.next_hour (Datetime.year now) (Datetime.month now)
                   (Datetime.day now) (Datetime.hour now))) as Hpath.
  fold (bucket_next now) in Hpath |- *.
  destruct (bucket_next now) as [[[y m] d] h]. destruct Hpath as [Hdir Hfile].
  unfold mbind, M_bind, lift. cbv iota beta zeta. rewrite Hfile, Hdir.
  set (file := poem_file (y, m, d, h)).
  destruct (completion_url m d h) as [url|e]; [|left; reflexivity].
  pose proof (assemble_keeps_volume (requests_get url) w) as Hvol1.
  destruct (assemble _ w) as [w1 [poem|e]]; cbn [fst] in Hvol1;
    [|left; cbn [fst]; rewrite Hvol1; reflexivity].
  pose proof (print_vol (first_three_lines poem) w1) as Hvol2.
  destruct (print _ w1) as [w2 [[]|e]]; cbn [fst] in Hvol2;
    [|left; cbn [fst]; rewrite Hvol2, Hvol1; reflexivity].
  assert (vol (mkdir (parent file) true true w2).1 !! file = vol w !! file)
    as Hvol3.
  { rewrite <- Hvol1, <- Hvol2.
    apply (grows_frame _ _ _ _ file (confined_mkdir _ true true w2));
      [|unfold nowhere; tauto].
    intros Hp. apply prefix_length in Hp.
    pose proof (parent_shorter file ltac:(discriminate)). lia. }
  destruct (mkdir _ true true w2) as [w3 [[]|e]]; cbn [fst] in Hvol3;
    [|left; exact Hvol3].
  unfold open_w.
  destruct (walk (vol w3) file [] (parent file)) as [[]|e];
    [|left; exact Hvol3].
  destruct (node_at (vol w3) file) as [[|c]|]; [left; exact Hvol3 | ..];
    (right; unfold write; destruct (Utf8.encode _) as [data|e];
     eexists; cbn [fst vol]; rewrite ?insert_insert_eq;
     apply lookup_insert_eq).
Qed.

Lemma layout_write_poem now requests_get w :
  Datetime.valid now -> has_next_hour now ->
  layout (vol w) -> layout (vol (write_poem now requests_get w).1).
Proof.
  intros Hv Hnext Hlay b.
  pose proof (write_poem_confined now requests_get Hv Hnext w)
    as (Hold & Hnew & _).
  destruct (Hlay b) as [Hclear Hnodir].
  assert (forall p, (length p < 7)%nat -> p <> poem_file (bucket_next now))
    as Hshort.
  { intros p Hp ->. destruct (bucket_next now) as [[[? ?] ?] ?].
    simpl in Hp. lia. }
  split.
  - intros q c Hq Hne Hfile.
    assert (length q < 7)%nat as Hlen.
    { pose proof (prefix_length _ _ Hq) as Hle.
      destruct (decide (length q = 7%nat)) as [E|E].
      - exfalso. apply Hne. destruct Hq as [k Hk].
        destruct b as [[[? ?] ?] ?]. rewrite Hk in *.
        rewrite length_app in Hle.
        assert (length k = 0%nat) as Hk0
          by (apply (f_equal (@length _)) in Hk; rewrite length_app in Hk;
              simpl in Hk; lia).
        destruct k; [rewrite app_nil_r; reflexivity | discriminate].
      - destruct b as [[[? ?] ?] ?]. simpl in Hle. lia. }
    destruct (Hnew q (File c)) as [H | [_ H]];
      [intros E; symmetry in E; exact (Hshort q Hlen E) | exact Hfile
      | exact (Hclear q c Hq Hne H) | discriminate].
  - intros Hdir.
    destruct (decide (poem_file b = poem_file (bucket_next now))) as [E|E].
    + rewrite E in *.
      destruct (write_poem_file_entry now requests_get w Hv Hnext)
        as [H | [c H]]; cbv zeta in H; rewrite H in Hdir;
        [contradiction | discriminate].
    + destruct (Hnew (poem_file b) Dir) as [H | [H _]];
        [congruence | exact Hdir | contradiction |].
      exact (poem_file_not_above _ _ H).
Qed.

Lemma layout_run_calls calls :
  forall w,
    Forall (fun c => Datetime.valid (call_time c)
                     /\ has_next_hour (call_time c)) calls ->
    layout (vol w) -> layout (vol (run_calls w calls)).
Proof.
  induction calls as [|c calls IH]; intros w Hcalls Hlay; [exact Hlay|].
  inversion Hcalls as [|? ? [Hv Hnext] Hrest]; subst.
  cbn [run_calls fold_left]. apply IH; [exact Hrest|].
  destruct c as [now requests_get | now]; cbn [run_call call_time] in *.
  - apply layout_write_poem; assumption.
  - rewrite poem_keeps_volume. exact Hlay.
Qed.

Lemma layout_empty : layout ∅.
Proof.
  intros b. split; [apply clear_way_empty|].
  rewrite lookup_empty. discriminate.
Qed.

(** X7.  From the empty volume, whatever calls of [write_poem] and [poem]
    have run and however each ended, the volume keeps its layout: where a
    poem file goes, in whatever bucket, no regular file stands on the way
    and no directory in its place. *)
Theorem layout_reachable calls :
  Forall (fun c => Datetime.valid (call_time c)
                   /\ has_next_hour (call_time c)) calls ->
  layout (vol (run_calls fresh calls)).
Proof.
  intros Hcalls. apply layout_run_calls; [exact Hcalls | apply layout_empty].
Qed.

Lemma new_year_has_next : has_next_hour new_year.
Proof. left. vm_compute. reflexivity. Defined.

Lemma sample_calls_timely :
  Forall (fun c => Datetime.valid (call_time c)
                   /\ has_next_hour (call_time c))
         [Read new_years_eve; Write new_years_eve sample_network;
          Write new_years_eve failing_network; Read new_year].
Proof.
  pose proof (conj new_years_eve_valid new_years_eve_has_next) as Heve.
  pose proof (conj new_year_valid new_year_has_next) as Hnew.
  apply Forall_cons_2; [exact Heve|]. apply Forall_cons_2; [exact Heve|].
  apply Forall_cons_2; [exact Heve|]. apply Forall_cons_2; [exact Hnew|].
  apply Forall_nil_2.
Defined.

Lemma layout_reachable_witness :
  layout (vol (run_calls fresh
                 [Read new_years_eve; Write new_years_eve sample_network;
                  Write new_years_eve failing_network; Read new_year])).
Proof. exact (layout_reachable _ sample_calls_timely). Defined.

Lemma layout_fresh : layout (vol fresh).
Proof.
  intros b. split; [apply clear_way_empty | apply fresh_no_dir].
Defined.

(** X8.  On a volume with the layout a run of [write_poem] ends in one
    of three ways: it returns, with the text it returns in the poem file
    of the next bucket; or it raises and leaves the volume as it was; or
    the first three lines hold a lone surrogate that standard output
    escapes and the file does not take, and it raises the
    [UnicodeEncodeError] of [f.write] with the directories of the bucket
    made and the poem file empty. *)
Theorem write_poem_outcomes now requests_get w :
  Datetime.valid now -> has_next_hour now -> layout (vol w) ->
  (exists w' text data,
     write_poem now requests_get w = (w', Return text)
     /\ Utf8.encode text = Return data
     /\ vol w' !! poem_file (bucket_next now) = Some (File data))
  \/ (exists w' e,
        write_poem now requests_get w = (w', Raise e) /\ vol w' = vol w)
  \/ (exists w' e poem sent,
        write_poem now requests_get w = (w', Raise e)
        /\ exn_cls e = UnicodeEncodeError
        /\ Utf8.encode_escaping (first_three_lines poem) = Return sent
        /\ Utf8.encode (first_three_lines poem) = Raise e
        /\ vol w' !! poem_file (bucket_next now) = Some (File [])
        /\ node_at (vol w') (parent (poem_file (bucket_next now)))
           = Some Dir).
Proof.
  intros Hv Hnext Hlay. destruct (Hlay (bucket_next now)) as [Hclear Hnodir].
  pose proof (assemble_keeps_volume
                (requests_get (poem_url (bucket_next now))) w) as Hvol.
  destruct (assemble (requests_get (poem_url (bucket_next now))) w)
    as [w1 [poem|e]] eqn:Hasm; cbn [fst] in Hvol.
  - destruct (print_cases (first_three_lines poem) w1)
      as [Hprint | (e & Hprint & He & Hesc)].
    + destruct (write_poem_printed now requests_get w w1 poem Hv Hnext
                  Hclear Hnodir Hasm Hprint) as (v3 & Hdir3 & Hne & Hrun).
      destruct (Utf8.encode (first_three_lines poem)) as [data|e] eqn:Henc.
      * left. eexists _, _, data. split; [exact Hrun|].
        split; [exact Henc|]. apply lookup_insert_eq.
      * right. right.
        unfold print in Hprint.
        destruct (Utf8.encode_escaping (first_three_lines poem))
          as [sent|e'] eqn:Hsent; [|discriminate].
        eexists _, e, poem, sent. split; [exact Hrun|].
        split; [exact (encode_from_raises _ _ _ Henc)|].
        split; [exact Hsent|]. split; [exact Henc|]. cbn [vol].
        split; [apply lookup_insert_eq|].
        rewrite node_at_insert_ne; [exact Hdir3 | exact Hne].
    + right. left. exists w1, e. split; [|exact Hvol].
      unfold write_poem. rewrite (get_ymdh_next now Hv Hnext).
      pose proof (completion_url_ok
                    (Civil.next_hour (Datetime.year now) (Datetime.month now)
                       (Datetime.day now) (Datetime.hour now))) as Hurl.
      fold (bucket_next now) in Hurl |- *.
      destruct (bucket_next now) as [[[y m] d] h].
      unfold mbind, M_bind, lift. cbv iota beta. rewrite Hurl, Hasm.
      cbv iota beta zeta. rewrite Hprint. reflexivity.
  - right. left. exists w1, e. split; [|exact Hvol].
    unfold write_poem. rewrite (get_ymdh_next now Hv Hnext).
    pose proof (completion_url_ok
                  (Civil.next_hour (Datetime.year now) (Datetime.month now)
                     (Datetime.day now) (Datetime.hour now))) as Hurl.
    fold (bucket_next now) in Hurl |- *.
    destruct (bucket_next now) as [[[y m] d] h].
    unfold mbind, M_bind, lift. cbv iota beta. rewrite Hurl, Hasm.
    reflexivity.
Qed.

Lemma write_poem_outcomes_witness :
  (exists w' text data,
     write_poem new_years_eve sample_network fresh = (w', Return text)
     /\ Utf8.encode text = Return data
     /\ vol w' !! poem_file (bucket_next new_years_eve) = Some (File data))
  \/ (exists w' e,
        write_poem new_years_eve sample_network fresh = (w', Raise e)
        /\ vol w' = vol fresh)
  \/ (exists w' e poem sent,
        write_poem new_years_eve sample_network fresh = (w', Raise e)
        /\ exn_cls e = UnicodeEncodeError
        /\ Utf8.encode_escaping (first_three_lines poem) = Return sent
        /\ Utf8.encode (first_three_lines poem) = Raise e
        /\ vol w' !! poem_file (bucket_next new_years_eve) = Some (File [])
        /\ node_at (vol w') (parent (poem_file (bucket_next new_years_eve)))
           = Some Dir).
Proof.
  exact (write_poem_outcomes new_years_eve sample_network fresh
           new_years_eve_valid new_years_eve_has_next layout_fresh).
Defined.

End WriteExtras.

(** ** More on [get_ymdh] and on the request *)

Section TimeExtras.

Import Datetime.

Lemma numeral_inj w a b :
  0 <= a < 10 ^ Z.of_nat w -> 0 <= b < 10 ^ Z.of_nat w ->
  Civil.numeral w a = Civil.numeral w b -> a = b.
Proof.
  intros Ha Hb E. apply (f_equal Civil.value) in E.
  rewrite !numeral_value in E. rewrite !Z.mod_small in E by assumption.
  exact E.
Qed.

(** X9.  The four strings name the hour: at two readings of the clock
    [get_ymdh()] returns the same strings exactly when the readings lie
    in the same hour of the same day, so the poems of two different
    hours never share a file. *)
Theorem get_ymdh_same_hour a b :
  valid a -> valid b ->
  (get_ymdh false a = get_ymdh false b <->
   (year a, month a, day a, hour a) = (year b, month b, day b, hour b)).
Proof.
  intros Ha Hb. rewrite (get_ymdh_now a Ha), (get_ymdh_now b Hb).
  pose proof Ha as (Hya & Hma & Hda & Hha & _).
  pose proof Hb as (Hyb & Hmb & Hdb & Hhb & _).
  pose proof (days_in_month_le_31 (year a) (month a) Hma).
  pose proof (days_in_month_le_31 (year b) (month b) Hmb).
  unfold MINYEAR, MAXYEAR in *. split.
  - intros E.
    assert (Civil.bucket (year a, month a, day a, hour a)
            = Civil.bucket (year b, month b, day b, hour b)) as E'
      by congruence.
    clear E. rename E' into E.
    pose proof (f_equal (fun t => fst (fst (fst t))) E) as Ey.
    pose proof (f_equal (fun t => snd (fst (fst t))) E) as Em.
    pose proof (f_equal (fun t => snd (fst t)) E) as Ed.
    pose proof (f_equal snd E) as Eh.
    cbn [fst snd Civil.bucket] in Ey, Em, Ed, Eh.
    apply numeral_inj in Ey; [|simpl; lia ..].
    apply numeral_inj in Em; [|simpl; lia ..].
    apply numeral_inj in Ed; [|simpl; lia ..].
    apply numeral_inj in Eh; [|simpl; lia ..].
    congruence.
  - intros ->. reflexivity.
Qed.

Lemma get_ymdh_same_hour_witness :
  get_ymdh false new_years_eve = get_ymdh false new_year <->
  (2023, 12, 31, 23) = (2024, 1, 1, 0).
Proof.
  exact (get_ymdh_same_hour new_years_eve new_year new_years_eve_valid
           new_year_valid).
Defined.

(** X10.  In the last hour of the year 9999 there is no next hour:
    [get_ymdh(next_hour=True)] raises the [OverflowError] of the
    addition, [date value out of range]. *)
Theorem get_ymdh_last_hour now :
  valid now -> ~ has_next_hour now ->
  get_ymdh true now
  = Raise (mk_exn OverflowError (lit "date value out of range")).
Proof.
  intros (Hy & Hm & Hd & Hh & Hmi & Hs & Hus) Hlast.
  destruct now as [y m d h mi s us]. unfold has_next_hour in Hlast.
  simpl in *. unfold MINYEAR, MAXYEAR in *.
  pose proof (days_in_month_le_31 y m Hm) as H31.
  assert (y = 9999) as -> by lia. assert (m = 12) as -> by lia.
  assert (d = 31) as -> by lia. assert (h = 23) as -> by lia.
  unfold get_ymdh, add, toordinal, timedelta_add.
  cbn [year month day hour minute second microsecond Z.b2z].
  rewrite (timedelta_new_normal _ s us mi 23 0) by lia.
  change (timedelta_new 0 0 0 0 1) with (mk_timedelta 0 3600 0).
  cbn [days seconds microseconds].
  rewrite (timedelta_new_normal _ _ _ 0 0 1) by lia.
  cbn [days seconds microseconds].
  change (_ymd2ord 9999 12 31) with _MAXORDINAL.
  destruct (Z.leb_spec (_MAXORDINAL + 0 + 0 + 1) _MAXORDINAL) as [Hle|Hgt];
    [lia|].
  rewrite andb_false_r. reflexivity.
Qed.

Lemma last_hour_valid : valid last_hour.
Proof. repeat split; vm_compute; congruence. Defined.

Lemma last_hour_has_no_next : ~ has_next_hour last_hour.
Proof. intros [H | [H | [H | H]]]; vm_compute in H; discriminate. Defined.

Lemma get_ymdh_last_hour_witness :
  get_ymdh true last_hour
  = Raise (mk_exn OverflowError (lit "date value out of range")).
Proof.
  exact (get_ymdh_last_hour last_hour last_hour_valid last_hour_has_no_next).
Defined.

Lemma month_length_december y : Civil.month_length y 12 = 31.
Proof. reflexivity. Qed.

(** The hour after a reading is a reading. *)
Lemma next_hour_valid now :
  valid now -> has_next_hour now ->
  valid (let '(y, m, d, h) :=
           Civil.next_hour (year now) (month now) (day now) (hour now) in
         mk_datetime y m d h (minute now) (second now) (microsecond now)).
Proof.
  intros (Hy & Hm & Hd & Hh & Hrest) Hnext.
  unfold has_next_hour, MINYEAR, MAXYEAR in *.
  pose proof (days_in_month_le_31 (year now) (month now) Hm) as H31.
  pose proof (days_in_month_civil (year now) (month now) Hm) as Hciv.
  unfold Civil.next_hour, Civil.next_day. rewrite <- Hciv.
  destruct (Z.ltb_spec (hour now) 23).
  { unfold valid, MINYEAR, MAXYEAR. cbn [year month day hour minute second
                                          microsecond]. repeat split; lia || apply Hrest. }
  destruct (Z.ltb_spec (day now) (_days_in_month (year now) (month now))).
  { unfold valid, MINYEAR, MAXYEAR. cbn [year month day hour minute second
                                          microsecond]. repeat split; lia || apply Hrest. }
  destruct (Z.ltb_spec (month now) 12).
  { pose proof (days_in_month_le_31 (year now) (month now + 1) ltac:(lia)).
    unfold valid, MINYEAR, MAXYEAR. cbn [year month day hour minute second
                                          microsecond]. repeat split; lia || apply Hrest. }
  assert (month now = 12) as E by lia. rewrite E in *.
  rewrite month_length_december in Hciv.
  pose proof (days_in_month_le_31 (year now + 1) 1 ltac:(lia)).
  unfold valid, MINYEAR, MAXYEAR. cbn [year month day hour minute second
                                        microsecond]. repeat split; lia || apply Hrest.
Qed.

(** The reading an hour later on the wall clock: [get_ymdh(True)] at a
    reading returns what [get_ymdh()] returns at the reading plus
    [timedelta(hours=1)]. *)
Lemma get_ymdh_wall_clock now later :
  valid now -> valid later ->
  add now (timedelta_new 0 0 0 0 1) = Return later ->
  get_ymdh true now = Return (bucket_now later)
  /\ get_ymdh false later = Return (bucket_now later).
Proof.
  intros Hv Hlater Hadd.
  pose proof (get_ymdh_now later Hlater) as Hnow. fold (bucket_now later) in Hnow.
  split; [|exact Hnow]. rewrite <- Hnow. unfold get_ymdh.
  change (Z.b2z true) with 1. change (Z.b2z false) with 0.
  rewrite Hadd, (add_zero later Hlater). reflexivity.
Qed.

(** X19.  Away from a change of the clocks the bucket [write_poem] fills
    is the bucket [poem] resolves one hour later: when the offset of the
    zone is the same at an instant and one hour after it,
    [get_ymdh(True)] at the reading of the first returns what
    [get_ymdh()] returns at the reading of the second. *)
Theorem get_ymdh_hour_later utc later :
  valid utc -> Eastern.covers utc ->
  hour_after utc = Return later -> Eastern.dst later = Eastern.dst utc ->
  exists now later_now,
    Eastern.fromutc utc = Return now
    /\ Eastern.fromutc later = Return later_now
    /\ get_ymdh true now = Return (bucket_now later_now)
    /\ get_ymdh false later_now = Return (bucket_now later_now).
Proof.
  intros Hv Hcov Hlater Hdst.
  destruct (hour_after_same_offset utc later Hv Hcov Hlater Hdst)
    as (now & later_now & Hnow & Hln & Hvn & Hvln & Hadd).
  exists now, later_now. split; [exact Hnow|]. split; [exact Hln|].
  exact (get_ymdh_wall_clock now later_now Hvn Hvln Hadd).
Qed.

Lemma new_year_utc_valid : valid (mk_datetime 2024 1 1 4 59 59 0).
Proof. repeat split; vm_compute; congruence. Defined.

Lemma get_ymdh_hour_later_witness :
  exists now later_now,
    Eastern.fromutc (mk_datetime 2024 1 1 4 59 59 0) = Return now
    /\ Eastern.fromutc (mk_datetime 2024 1 1 5 59 59 0) = Return later_now
    /\ get_ymdh true now = Return (bucket_now later_now)
    /\ get_ymdh false later_now = Return (bucket_now later_now).
Proof.
  refine (get_ymdh_hour_later (mk_datetime 2024 1 1 4 59 59 0)
            (mk_datetime 2024 1 1 5 59 59 0) new_year_utc_valid _
            eq_refl eq_refl).
  split; vm_compute; congruence.
Defined.

Lemma quote_byte_chars b : forallb url_char (Http.quote_byte b) = true.
Proof. destruct b; reflexivity. Qed.

(** X11.  The URL [write_poem] requests is the fixed prefix followed by
    the quoted request: after the prefix stand only letters, digits,
    [_], [.], [-], [~], [/] and percent escapes, so the spaces, the
    commas and the [#] of the request text do not reach the URL as they
    are. *)
Theorem completion_url_quoted month day hour :
  Encodable month -> Encodable day -> Encodable hour ->
  exists quoted,
    completion_url month day hour
    = Return (lit "https://modal-labs--vllm-mixtral.modal.run/completion/"
              ++ quoted)
    /\ Forall (fun c => url_char c = true) quoted.
Proof.
  intros Hm Hd Hh. unfold completion_url, Http.quote.
  destruct (encode_ok (poem_request month day hour)) as [data ->].
  { unfold poem_request, Encodable. rewrite !Forall_app.
    repeat split; first [assumption | apply latin_encodable, lit_latin]. }
  eexists. split; [reflexivity|].
  apply Forall_concat, Forall_fmap, Forall_forall. intros b _.
  apply Forall_forall. intros c Hc.
  pose proof (quote_byte_chars b) as Hall.
  rewrite forallb_forall in Hall. apply Hall, list_elem_of_In, Hc.
Qed.

Lemma completion_url_quoted_witness :
  exists quoted,
    completion_url (lit "01") (lit "01") (lit "00")
    = Return (lit "https://modal-labs--vllm-mixtral.modal.run/completion/"
              ++ quoted)
    /\ Forall (fun c => url_char c = true) quoted.
Proof.
  exact (completion_url_quoted (lit "01") (lit "01") (lit "00")
           (latin_encodable _ (lit_latin _))
           (latin_encodable _ (lit_latin _))
           (latin_encodable _ (lit_latin _))).
Defined.

(** X12.  A line that is not empty and has at most six characters is all
    prefix: nothing is left to parse, the two lines of diagnostics are
    printed and the poem is as before. *)
Theorem add_line_short line poem w :
  line <> [] -> (length line <= 6)%nat -> Encodable line ->
  add_line line poem w
  = (emit w [lit "Error decoding JSON: Expecting value: line 1 column 1 (char 0)";
             line],
     Return poem).
Proof.
  intros Hne Hlen Henc.
  apply (add_line_garbled line poem w
           (mk_exn JSONDecodeError
              (lit "Expecting value: line 1 column 1 (char 0)")));
    [exact Hne | | reflexivity | exact Henc].
  rewrite drop_ge by exact Hlen. reflexivity.
Qed.

Lemma add_line_short_witness :
  add_line (lit "data:") [] fresh
  = (emit fresh
       [lit "Error decoding JSON: Expecting value: line 1 column 1 (char 0)";
        lit "data:"],
     Return []).
Proof.
  exact (add_line_short (lit "data:") [] fresh ltac:(discriminate)
           ltac:(vm_compute; lia) (latin_encodable _ (lit_latin _))).
Defined.

End TimeExtras.

(** ** How [write_poem] fails *)

Section Failures.

Import Fs.

Lemma for_each_app {X St} (xs ys : list X) (body : X -> St -> M St) acc w :
  for_each (xs ++ ys) body acc w
  = match for_each xs body acc w with
    | (w', Return acc') => for_each ys body acc' w'
    | (w', Raise e) => (w', Raise e)
    end.
Proof.
  revert acc w. induction xs as [|x xs IH]; intros acc w; [reflexivity|].
  cbn [app for_each]. unfold mbind, M_bind.
  destruct (body x acc w) as [w' [acc'|e]]; [apply IH | reflexivity].
Qed.

(** [write_poem] up to the assembly of the text: what the assembly
    raises, [write_poem] raises. *)
Lemma write_poem_assemble_raises now requests_get w w1 e :
  Datetime.valid now -> has_next_hour now ->
  assemble (requests_get (poem_url (bucket_next now))) w = (w1, Raise e) ->
  write_poem now requests_get w = (w1, Raise e) /\ vol w1 = vol w.
Proof.
  intros Hv Hnext Hasm.
  pose proof (assemble_keeps_volume
                (requests_get (poem_url (bucket_next now))) w) as Hvol.
  rewrite Hasm in Hvol. split; [|exact Hvol].
  unfold write_poem. rewrite (get_ymdh_next now Hv Hnext).
  pose proof (completion_url_ok
                (Civil.next_hour (Datetime.year now) (Datetime.month now)
                   (Datetime.day now) (Datetime.hour now))) as Hurl.
  fold (bucket_next now) in Hurl |- *.
  destruct (bucket_next now) as [[[y m] d] h].
  unfold mbind, M_bind, lift. cbv iota beta. rewrite Hurl, Hasm.
  reflexivity.
Qed.

(** X13.  When a chunk of the body is no UTF-8 on its own, as when a
    character of several bytes is cut by the end of a chunk, [write_poem]
    raises the [UnicodeDecodeError] of that chunk after the chunks before
    it have been read, and the volume is as before. *)
Theorem write_poem_undecodable_chunk now requests_get w chunks1 chunk chunks2
    w1 poem1 e :
  Datetime.valid now -> has_next_hour now ->
  Http.status_code (requests_get (poem_url (bucket_next now))) = 200 ->
  Http.iter_content (requests_get (poem_url (bucket_next now))) 1024
  = chunks1 ++ chunk :: chunks2 ->
  for_each chunks1 add_chunk [] w = (w1, Return poem1) ->
  Utf8.decode chunk = Raise e ->
  write_poem now requests_get w = (w1, Raise e)
  /\ exn_cls e = UnicodeDecodeError /\ vol w1 = vol w.
Proof.
  intros Hv Hnext Hstatus Hchunks Hbefore Hdec.
  assert (assemble (requests_get (poem_url (bucket_next now))) w
          = (w1, Raise e)) as Hasm.
  { unfold assemble. rewrite Hstatus, Hchunks.
    change (200 =? 200) with true. cbv iota.
    rewrite for_each_app, Hbefore. cbn [for_each].
    unfold mbind, M_bind, add_chunk, lift. unfold mbind, M_bind.
    rewrite Hdec. reflexivity. }
  destruct (write_poem_assemble_raises now requests_get w w1 e Hv Hnext Hasm)
    as [Hrun Hvol].
  split; [exact Hrun|]. split; [|exact Hvol].
  exact (decode_from_raises _ _ _ Hdec).
Qed.

Lemma write_poem_undecodable_chunk_witness :
  write_poem new_years_eve cut_network fresh
  = (fresh, Raise (Utf8.decode_error 195 0 1 Utf8.unexpected_end))
  /\ exn_cls (Utf8.decode_error 195 0 1 Utf8.unexpected_end)
     = UnicodeDecodeError
  /\ vol fresh = vol fresh.
Proof.
  exact (write_poem_undecodable_chunk new_years_eve cut_network fresh
           [] [xc3] [[xa9]] fresh [] _ new_years_eve_valid
           new_years_eve_has_next eq_refl eq_refl eq_refl eq_refl).
Defined.

Lemma add_line_missing_text line poem w data :
  line <> [] -> Json.loads (drop 6 line) = Return data ->
  text_field data = None ->
  exists e, add_line line poem w = (w, Raise e)
            /\ exn_cls e = missing_text_class data.
Proof.
  intros Hne Hloads Hnone. destruct line as [|c line]; [contradiction|].
  unfold add_line, try_except, mbind, M_bind, lift. rewrite Hloads.
  unfold text_field in Hnone. unfold getitem_text, missing_text_class.
  destruct data as [| | | | |items|items];
    try (eexists; split; reflexivity).
  destruct (Json.dict_get items (lit "text")) as [v|];
    [|eexists; split; reflexivity].
  destruct v; try discriminate; eexists; split; reflexivity.
Qed.

(** X14.  When a line of the stream is JSON after its prefix but has no
    string under [text], [write_poem] raises at this line, [KeyError] for
    an object without the key and [TypeError] otherwise; the lines before
    it have been read, the lines after it are not, and the volume is as
    before. *)
Theorem write_poem_missing_text now requests_get w chunks1 chunk chunks2
    w1 poem1 text lines1 line lines2 w2 poem2 data :
  Datetime.valid now -> has_next_hour now ->
  Http.status_code (requests_get (poem_url (bucket_next now))) = 200 ->
  Http.iter_content (requests_get (poem_url (bucket_next now))) 1024
  = chunks1 ++ chunk :: chunks2 ->
  for_each chunks1 add_chunk [] w = (w1, Return poem1) ->
  Utf8.decode chunk = Return text ->
  Str.split_on LF (Str.strip text) = lines1 ++ line :: lines2 ->
  for_each lines1 add_line poem1 w1 = (w2, Return poem2) ->
  line <> [] -> Json.loads (drop 6 line) = Return data ->
  text_field data = None ->
  exists e,
    write_poem now requests_get w = (w2, Raise e)
    /\ exn_cls e = missing_text_class data /\ vol w2 = vol w.
Proof.
  intros Hv Hnext Hstatus Hchunks Hbefore Hdec Hlines Hlines1 Hne Hloads
    Hnone.
  destruct (add_line_missing_text line poem2 w2 data Hne Hloads Hnone)
    as (e & Hline & Hcls).
  exists e.
  assert (assemble (requests_get (poem_url (bucket_next now))) w
          = (w2, Raise e)) as Hasm.
  { unfold assemble. rewrite Hstatus, Hchunks.
    change (200 =? 200) with true. cbv iota.
    rewrite for_each_app, Hbefore. cbn [for_each].
    unfold mbind at 1, M_bind at 1, add_chunk.
    unfold mbind at 1, M_bind at 1, lift. rewrite Hdec, Hlines.
    rewrite for_each_app, Hlines1. cbn [for_each].
    unfold mbind, M_bind. rewrite Hline. reflexivity. }
  destruct (write_poem_assemble_raises now requests_get w w2 e Hv Hnext Hasm)
    as [Hrun Hvol].
  split; [exact Hrun|]. split; [exact Hcls | exact Hvol].
Qed.

Lemma write_poem_missing_text_witness :
  exists e,
    write_poem new_years_eve error_network fresh = (fresh, Raise e)
    /\ exn_cls e = KeyError /\ vol fresh = vol fresh.
Proof.
  exact (write_poem_missing_text new_years_eve error_network fresh
           [] (map Utf8.byte_of error_line) [] fresh [] error_line
           [] error_line [] fresh []
           (Json.JDict [(lit "error", Json.JStr (lit "overloaded"))])
           new_years_eve_valid new_years_eve_has_next eq_refl eq_refl
           eq_refl eq_refl eq_refl eq_refl ltac:(discriminate) eq_refl
           eq_refl).
Defined.

(** X15.  When standard output cannot take the text settled on, as with
    the half of a surrogate pair left by a [\u] escape, which is not one
    of the surrogates U+DC80 to U+DCFF that its error handler escapes,
    [write_poem] raises the [UnicodeEncodeError] of [print]: nothing more
    is printed, no directory is made and no file is written. *)
Theorem write_poem_unencodable now requests_get w w1 poem e :
  Datetime.valid now -> has_next_hour now ->
  assemble (requests_get (poem_url (bucket_next now))) w = (w1, Return poem) ->
  Utf8.encode_escaping
    (Str.join [LF] (take 3 (Lines.splitlines (Str.strip poem))))
  = Raise e ->
  write_poem now requests_get w = (w1, Raise e)
  /\ exn_cls e = UnicodeEncodeError /\ vol w1 = vol w.
Proof.
  intros Hv Hnext Hasm Henc.
  pose proof (assemble_keeps_volume
                (requests_get (poem_url (bucket_next now))) w) as Hvol.
  rewrite Hasm in Hvol. split; [|split; [|exact Hvol]].
  - unfold write_poem. rewrite (get_ymdh_next now Hv Hnext).
    pose proof (completion_url_ok
                  (Civil.next_hour (Datetime.year now) (Datetime.month now)
                     (Datetime.day now) (Datetime.hour now))) as Hurl.
    fold (bucket_next now) in Hurl |- *.
    destruct (bucket_next now) as [[[y m] d] h].
    unfold mbind, M_bind, lift. cbv iota beta. rewrite Hurl, Hasm.
    cbv iota beta zeta. unfold print, first_three_lines. rewrite Henc.
    reflexivity.
  - exact (encode_escaping_from_raises _ _ _ Henc).
Qed.

Lemma write_poem_unencodable_witness :
  write_poem new_years_eve surrogate_network fresh
  = (fresh, Raise (Utf8.encode_error 55357 0 1))
  /\ exn_cls (Utf8.encode_error 55357 0 1) = UnicodeEncodeError
  /\ vol fresh = vol fresh.
Proof.
  exact (write_poem_unencodable new_years_eve surrogate_network fresh fresh
           [55357%N] _ new_years_eve_valid new_years_eve_has_next eq_refl
           eq_refl).
Defined.

(** A text of the one character U+DC80: standard output escapes it, the
    run goes on to the file, and [f.write] raises with the directories
    of the bucket made and the poem file empty. *)
Lemma write_poem_escaped_surrogate :
  let file := poem_file (bucket_next new_years_eve) in
  let run := write_poem new_years_eve escaped_network fresh in
  run.2 = Raise (Utf8.encode_error 56448 0 1)
  /\ out run.1 = [[56448%N]]
  /\ map (fun path => vol run.1 !! path)
       [take 3 file; take 4 file; take 5 file; take 6 file; file]
     = [Some Dir; Some Dir; Some Dir; Some Dir; Some (File [])].
Proof. vm_compute. repeat split. Qed.

End Failures.

(** ** [render] and [nvcc] *)

Section Processes.

Lemma push_is_not_render device_id api_key :
  Render.push_command device_id api_key <> Render.render_command.
Proof. unfold Render.push_command, Render.render_command. discriminate. Qed.

(** X16.  [render] ends without an exception exactly when both variables
    are set, the rendering command ends with status zero and then the
    push command, made of the two values, ends with status zero.  The
    push command runs only after the rendering has succeeded, and with
    a variable missing no command runs at all. *)
Theorem render_completes_iff c :
  ((Render.render c).2 = inr tt <->
   exists device_id api_key,
     Render.environ c !! lit "TIDBYT_DEVICE_ID" = Some device_id /\
     Render.environ c !! lit "TIDBYT_API_KEY" = Some api_key /\
     Render.shell c [] Render.render_command = 0 /\
     Render.shell c [Render.render_command]
       (Render.push_command device_id api_key) = 0)
  /\ (forall device_id api_key,
        Render.push_command device_id api_key ∈ (Render.render c).1 ->
        Render.shell c [] Render.render_command = 0)
  /\ (Render.environ c !! lit "TIDBYT_DEVICE_ID" = None
      \/ Render.environ c !! lit "TIDBYT_API_KEY" = None ->
      (Render.render c).1 = []).
Proof.
  unfold Render.render, Render.getitem, Render.run_checked.
  destruct (Render.environ c !! lit "TIDBYT_DEVICE_ID") as [id|] eqn:Hid.
  2: { split; [split; [discriminate | intros (? & ? & [=] & _)]|].
       split; [intros ? ? H; cbn in H; apply elem_of_nil in H; contradiction|].
       reflexivity. }
  destruct (Render.environ c !! lit "TIDBYT_API_KEY") as [key|] eqn:Hkey.
  2: { split; [split; [discriminate | intros (? & ? & _ & [=] & _)]|].
       split; [intros ? ? H; cbn in H; apply elem_of_nil in H; contradiction|].
       reflexivity. }
  cbn [app].
  destruct (Z.eqb_spec (Render.shell c [] Render.render_command) 0)
    as [Hr|Hr].
  - split; [|split; [intros; exact Hr | intros [[=] | [=]]]].
    cbn [snd].
    destruct (Z.eqb_spec (Render.shell c [Render.render_command]
                            (Render.push_command id key)) 0) as [Hp|Hp].
    + split; [|reflexivity]. intros _. exists id, key. repeat split;
        assumption.
    + split; [discriminate|].
      intros (id' & key' & [= <-] & [= <-] & _ & Hp'). contradiction.
  - split; [split; [discriminate|]|split; [|intros [[=] | [=]]]].
    + intros (? & ? & _ & _ & Hr' & _). contradiction.
    + intros id' key' H. cbn [fst] in H.
      apply list_elem_of_singleton in H.
      exfalso. exact (push_is_not_render _ _ H).
Qed.

Lemma render_completes_iff_witness : (Render.render sample_container).2 = inr tt.
Proof.
  apply (proj2 (proj1 (render_completes_iff sample_container))).
  exists (lit "my-device"), (lit "secret").
  repeat split; reflexivity.
Defined.

(** X17.  [nvcc] returns the bytes of [invsqrt_demo] exactly when the
    compiler and then the compiled program end with status zero and
    the file can be read afterwards.  When the compiler ends with
    another status, [nvcc] raises the [CalledProcessError] of the run
    itself, the program is not run, and the first [assert] never fails;
    when the program ends with another status, the second [assert]
    fails. *)
Theorem nvcc_returns_iff c w :
  (forall data,
     (Nvcc.nvcc c w).2 = inr data <->
     exists w1 compiled w2 ran,
       Nvcc.exec c Nvcc.compile_command w = (w1, Return compiled) /\
       Cuda.returncode compiled = 0 /\
       Nvcc.exec c Nvcc.demo_command w1 = (w2, Return ran) /\
       Cuda.returncode ran = 0 /\
       (Fs.read_bytes (Nvcc.cwd c ++ [lit "invsqrt_demo"]) w2).2
       = Return data)
  /\ (forall w1 compiled,
        Nvcc.exec c Nvcc.compile_command w = (w1, Return compiled) ->
        Cuda.returncode compiled <> 0 ->
        Nvcc.nvcc c w
        = ([Nvcc.compile_command], w1,
           inl (Nvcc.CalledProcessError (Cuda.returncode compiled)
                  Nvcc.compile_command)))
  /\ (forall w1 compiled w2 ran,
        Nvcc.exec c Nvcc.compile_command w = (w1, Return compiled) ->
        Cuda.returncode compiled = 0 ->
        Nvcc.exec c Nvcc.demo_command w1 = (w2, Return ran) ->
        Cuda.returncode ran <> 0 ->
        Nvcc.nvcc c w
        = ([Nvcc.compile_command; Nvcc.demo_command], w2,
           inl (Nvcc.Exn Cuda.assertion_error))).
Proof.
  assert (Fs.div (Nvcc.cwd c) (lit "./invsqrt_demo")
          = Nvcc.cwd c ++ [lit "invsqrt_demo"]) as Hpath by reflexivity.
  unfold Nvcc.nvcc. rewrite Hpath. split; [|split].
  - intros data.
    destruct (Nvcc.exec c Nvcc.compile_command w) as [w1 [compiled|e]].
    2: { split; [discriminate | intros (? & ? & ? & ? & [=] & _)]. }
    destruct (Z.eqb_spec (Cuda.returncode compiled) 0) as [Hc|Hc].
    2: { cbn [negb]. split; [discriminate|].
         intros (? & ? & ? & ? & [= <- <-] & Hc' & _). contradiction. }
    cbn [negb]. rewrite (bool_decide_eq_true_2 _ Hc). cbn [negb].
    destruct (Nvcc.exec c Nvcc.demo_command w1) as [w2 [ran|e]] eqn:Hdemo.
    2: { split; [discriminate|].
         intros (? & ? & ? & ? & [= <- <-] & _ & Hd & _).
         rewrite Hdemo in Hd. discriminate. }
    destruct (decide (Cuda.returncode ran = 0)) as [Hr|Hr].
    2: { rewrite (bool_decide_eq_false_2 _ Hr). cbn [negb].
         split; [discriminate|].
         intros (? & ? & ? & ? & [= <- <-] & _ & Hd & Hr' & _).
         rewrite Hdemo in Hd. injection Hd as <- <-. contradiction. }
    rewrite (bool_decide_eq_true_2 _ Hr). cbn [negb].
    destruct (Fs.read_bytes (Nvcc.cwd c ++ [lit "invsqrt_demo"]) w2)
      as [w3 [data'|e]] eqn:Hread.
    + cbn [snd]. split.
      * intros [= <-]. exists w1, compiled, w2, ran.
        rewrite Hread. repeat split; assumption.
      * intros (? & ? & ? & ? & [= <- <-] & _ & Hd & _ & Hdata).
        rewrite Hdemo in Hd. injection Hd as <- <-.
        rewrite Hread in Hdata. cbn in Hdata. congruence.
    + cbn [snd]. split; [discriminate|].
      intros (? & ? & ? & ? & [= <- <-] & _ & Hd & _ & Hdata).
      rewrite Hdemo in Hd. injection Hd as <- <-.
      rewrite Hread in Hdata. discriminate.
  - intros w1 compiled -> Hc.
    destruct (Z.eqb_spec (Cuda.returncode compiled) 0); [contradiction|].
    reflexivity.
  - intros w1 compiled w2 ran -> Hc -> Hr.
    destruct (Z.eqb_spec (Cuda.returncode compiled) 0); [|contradiction].
    cbn [negb]. rewrite (bool_decide_eq_true_2 _ Hc). cbn [negb].
    rewrite (bool_decide_eq_false_2 _ Hr). reflexivity.
Qed.

Lemma nvcc_returns_iff_witness :
  (Nvcc.nvcc sample_build fresh).2 = inr [x7f; x45; x4c; x46].
Proof.
  apply (proj2 (proj1 (nvcc_returns_iff sample_build fresh) _)).
  eexists _, _, _, _.
  split; [reflexivity|]. split; [reflexivity|]. split; [reflexivity|].
  split; reflexivity.
Defined.

End Processes.

(** ** Lines of the form [data: {"text": "..."}] *)

Section JsonText.

Import Json.

Lemma scanstring_plain t :
  forall fuel begin pos rest,
    Forall (fun c => plain_char c = true) t -> (length t < fuel)%nat ->
    Json.scanstring fuel begin pos (t ++ QUOTE :: rest)
    = Json.Scanned (t, (pos + Z.of_nat (length t) + 1, rest)).
Proof.
  induction t as [|c t IH]; intros fuel begin pos rest Ht Hfuel.
  - destruct fuel as [|fuel]; [simpl in Hfuel; lia|].
    cbn [app Json.scanstring length]. change (QUOTE =? QUOTE)%N with true.
    cbv iota. replace (pos + Z.of_nat 0 + 1) with (pos + 1) by lia.
    reflexivity.
  - destruct fuel as [|fuel]; [simpl in Hfuel; lia|].
    inversion Ht as [|? ? Hc Ht']; subst.
    unfold plain_char in Hc.
    apply andb_true_iff in Hc as [Hc H31].
    apply andb_true_iff in Hc as [Hq Hb].
    apply negb_true_iff in Hq, Hb, H31.
    cbn [app Json.scanstring length]. rewrite Hq, Hb, H31.
    rewrite IH; [|exact Ht' | simpl in Hfuel; lia].
    unfold Json.cons_char. cbn [mbind Json.scanned_bind].
    replace (pos + 1 + Z.of_nat (length t) + 1)
      with (pos + Z.of_nat (S (length t)) + 1) by lia.
    reflexivity.
Qed.

Lemma scan_once_object depth pos s :
  Json.scan_once (S depth) (pos, 123%N :: s)
  = Json.parse_object (Json.scan_once depth) (pos + 1, s).
Proof. reflexivity. Qed.

Lemma scan_once_string depth pos s :
  Json.scan_once depth (pos, QUOTE :: s)
  = ('(s0, cur') ← Json.scanstring (length s) pos (pos + 1) s;
     Json.Scanned (Json.JStr s0, cur')).
Proof. destruct depth; reflexivity. Qed.

(** An object with one member, whose value is scanned by [scan]. *)
Lemma parse_object_member scan pos key rest val p after :
  Forall (fun c => plain_char c = true) key ->
  scan (skip_whitespace (pos + 1 + Z.of_nat (length key) + 1 + 1 + 1, rest))
  = Scanned (val, (p, 125%N :: after)) ->
  parse_object scan (pos, QUOTE :: (key ++ QUOTE :: 58%N :: 32%N :: rest))
  = Scanned (JDict [(key, val)], (p + 1, after)).
Proof.
  intros Hkey Hval. unfold parse_object.
  change (skip_whitespace (pos, QUOTE :: ?s)) with (pos, QUOTE :: s).
  change (head_is 125 (pos, QUOTE :: _)) with false. cbv iota.
  cbn [snd].
  assert (length key
          < length (QUOTE :: key ++ QUOTE :: 58%N :: 32%N :: rest))%nat
    as Hfuel by (cbn [length]; rewrite length_app; lia).
  set (fuel := length (QUOTE :: key ++ QUOTE :: 58%N :: 32%N :: rest)) in *.
  cbn [members fst snd].
  change (head_is QUOTE (pos, QUOTE :: _)) with true. cbn [negb].
  change (drop 1 (QUOTE :: ?s)) with s.
  rewrite scanstring_plain by assumption.
  cbn [mbind scanned_bind].
  change (skip_whitespace (?q, 58%N :: ?s)) with (q, 58%N :: s).
  change (head_is 58 (_, 58%N :: _)) with true. cbn [negb].
  change (advance 1 (?q, 58%N :: ?s)) with (q + 1, s).
  change (skip_whitespace (?q, 32%N :: ?s)) with (skip_whitespace (q + 1, s)).
  rewrite Hval. cbn [mbind scanned_bind].
  change (skip_whitespace (p, 125%N :: after)) with (p, 125%N :: after).
  change (head_is 125 (p, 125%N :: after)) with true. cbv iota.
  reflexivity.
Qed.

Lemma loads_text_object t :
  Forall (fun c => plain_char c = true) t ->
  loads (text_object t) = Return (JDict [(lit "text", JStr t)]).
Proof.
  intros Ht.
  change (text_object t)
    with (123%N :: QUOTE
          :: (lit "text" ++ QUOTE :: 58%N :: 32%N :: QUOTE
              :: (t ++ QUOTE :: [125%N]))).
  unfold loads.
  change (starts_with [65279%N] (123%N :: _)) with false. cbv iota.
  change (skip_whitespace (0, 123%N :: ?s)) with (0, 123%N :: s).
  change recursion_limit with (S 993).
  rewrite (scan_once_object 993).
  rewrite (parse_object_member _ _ (lit "text") _ (JStr t)
             (0 + 1 + 1 + Z.of_nat (length (lit "text")) + 1 + 1 + 1 + 1
              + Z.of_nat (length t) + 1) []).
  - reflexivity.
  - repeat constructor.
  - change (skip_whitespace (?p, QUOTE :: ?s)) with (p, QUOTE :: s).
    rewrite scan_once_string.
    rewrite scanstring_plain; [|exact Ht | rewrite length_app; simpl; lia].
    reflexivity.
Qed.

(** An escape [\u] that the end of the document cuts short, or leaves
    without a character after its digits, is reported at the escape. *)
Lemma loads_escape_at_end :
  loads ([QUOTE; BACKSLASH] ++ lit "u00e9")
  = Raise (mk_exn JSONDecodeError
             (lit "Invalid \uXXXX escape: line 1 column 3 (char 2)")).
Proof. vm_compute. reflexivity. Qed.

Lemma plain_not_space c : plain_char c = true -> c <> LF.
Proof. intros H ->. discriminate. Qed.

Lemma not_in_check (c : N) (s : str) :
  forallb (fun x => negb (x =? c)%N) s = true -> c ∉ s.
Proof.
  rewrite forallb_forall. intros H Hc. apply list_elem_of_In in Hc.
  specialize (H c Hc). rewrite N.eqb_refl in H. discriminate.
Qed.

Lemma plain_fragment_well_formed f : plain_fragment f -> well_formed f.
Proof.
  destruct f as [|prefix remainder text|]; [intros _; exact I | |intros []].
  intros (-> & -> & Ht). cbn [well_formed].
  split; [reflexivity|]. split.
  - unfold text_object. rewrite !not_elem_of_app.
    repeat split; try (apply not_in_check; reflexivity).
    intros H. rewrite Forall_forall in Ht.
    exact (plain_not_space _ (Ht _ H) eq_refl).
  - eexists. split; [apply loads_text_object, Ht | reflexivity].
Qed.

Lemma plain_fragment_trimmed f :
  plain_fragment f -> trimmed (fragment_line f).
Proof.
  destruct f as [|prefix remainder text|]; [intros _; split; exact I |
                                            |intros []].
  intros (-> & -> & Ht). cbn [fragment_line].
  split; [reflexivity|].
  replace (lit "data: " ++ text_object text)
    with ((lit "data: " ++ lit "{" ++ [QUOTE] ++ lit "text" ++ [QUOTE]
           ++ lit ": " ++ [QUOTE] ++ text ++ [QUOTE]) ++ [125%N])
    by (unfold text_object; rewrite <- !app_assoc; reflexivity).
  rewrite rev_unit. reflexivity.
Qed.

Lemma plain_fragments_silent fs :
  Forall plain_fragment fs -> diagnostics fs = [].
Proof.
  induction 1 as [|f fs Hf _ IH]; [reflexivity|].
  destruct f; [exact IH | exact IH | destruct Hf].
Qed.

(** X18.  A stream in the usual form is read whole: when every chunk is
    made of empty lines and of lines [data: {"text": "..."}] whose text
    is written without escapes, the text assembled is the concatenation
    of the texts in the order of arrival, and nothing is printed. *)
Theorem assemble_data_lines response fss w :
  Http.status_code response = 200 ->
  Forall2 (fun chunk fs =>
             Utf8.decode chunk = Return (stream_text fs)
             /\ Forall plain_fragment fs)
          (Http.iter_content response 1024) fss ->
  assemble response w = (w, Return (texts (concat fss))).
Proof.
  intros Hstatus Hchunks. unfold assemble. rewrite Hstatus.
  change (200 =? 200) with true. cbv iota.
  rewrite (for_each_chunks _ fss [] w).
  - assert (diagnostics (concat fss) = []) as ->.
    { apply plain_fragments_silent, Forall_concat.
      clear -Hchunks. induction Hchunks as [|? ? ? ? [_ H] _ IH];
        constructor; assumption. }
    rewrite emit_nil. reflexivity.
  - eapply Forall2_impl; [exact Hchunks|].
    intros chunk fs [Hdec Hfs]. split; [exact Hdec|]. split.
    + eapply Forall_impl; [exact Hfs | apply plain_fragment_well_formed].
    + apply trimmed_ends, (proj2 (List.Forall_map _ _ _)).
      eapply Forall_impl; [exact Hfs | apply plain_fragment_trimmed].
Qed.

Lemma plain_fragments_ok :
  Forall2 (fun chunk fs =>
             Utf8.decode chunk = Return (stream_text fs)
             /\ Forall plain_fragment fs)
          (Http.iter_content plain_response 1024) plain_fragments.
Proof.
  constructor; [split; [reflexivity|] |
    constructor; [split; [reflexivity|] | constructor]].
  - constructor; [|constructor; [exact I | constructor; [exact I|constructor]]].
    split; [reflexivity|]. split; [reflexivity|]. repeat constructor.
  - constructor; [|constructor; [exact I | constructor; [exact I|constructor]]].
    split; [reflexivity|]. split; [reflexivity|]. repeat constructor.
Defined.

Lemma assemble_data_lines_witness :
  assemble plain_response fresh = (fresh, Return (lit "Snow falls")).
Proof.
  exact (assemble_data_lines plain_response plain_fragments fresh eq_refl
           plain_fragments_ok).
Defined.

End JsonText.

(** ** [remove_libcuda] *)

Section RemoveLibcuda.

Import Fs Libcuda.

Lemma say_cases verbose s w :
  (exists lines, say verbose s w = (emit w lines, Return tt))
  \/ (exists e, say verbose s w = (w, Raise e)
                /\ exn_cls e = UnicodeEncodeError).
Proof.
  unfold say. destruct verbose.
  - destruct (print_cases s w) as [-> | (e & -> & He & _)].
    + left. exists [s]. reflexivity.
    + right. exists e. split; [reflexivity | exact He].
  - left. exists []. rewrite emit_nil. reflexivity.
Qed.

Lemma os_remove_cases path w :
  (exists data,
     vol w !! path = Some (File data)
     /\ os_remove path w = (mk_world (delete path (vol w)) (out w), Return tt))
  \/ (exists e, os_remove path w = (w, Raise e)
                /\ exn_cls e <> AssertionError).
Proof.
  unfold os_remove.
  destruct (walk_cases (vol w) path [] (parent path))
    as [[-> _] | [[-> _] | [-> _]]].
  - destruct (node_at (vol w) path) as [[|data]|] eqn:Hnode.
    + right. eexists. split; [reflexivity | discriminate].
    + left. exists data. split; [|reflexivity].
      unfold node_at in Hnode.
      destruct (bool_decide (path `prefix_of` mount_point));
        [discriminate | exact Hnode].
    + right. eexists. split; [reflexivity | discriminate].
  - right. eexists. split; [reflexivity | discriminate].
  - right. eexists. split; [reflexivity | discriminate].
Qed.

(** The loop: entries only go, those that go are regular files among
    the files found, all of them go when the loop gets through, and the
    loop raises no [AssertionError]. *)
Lemma remove_loop verbose files :
  forall w w1 r,
    for_each files (remove_file verbose) tt w = (w1, r) ->
    (forall p n, vol w1 !! p = Some n -> vol w !! p = Some n)
    /\ (forall p, vol w !! p <> None -> vol w1 !! p = None ->
          p ∈ files /\ exists data, vol w !! p = Some (File data))
    /\ (r = Return tt -> forall p, p ∈ files -> vol w1 !! p = None)
    /\ (forall e, r = Raise e -> exn_cls e <> AssertionError).
Proof.
  induction files as [|f files IH]; intros w w1 r Hrun.
  { injection Hrun as <- <-. split; [auto|].
    split; [intros p Hp Hnone; contradiction|].
    split; [|intros e [=]].
    intros _ p Hp. apply elem_of_nil in Hp. contradiction. }
  cbn [for_each] in Hrun. unfold mbind at 1, M_bind at 1 in Hrun.
  unfold remove_file at 1 in Hrun. unfold mbind at 1, M_bind at 1 in Hrun.
  destruct (say_cases verbose (lit "removing " ++ to_str f) w)
    as [[lines Hsay] | (e & Hsay & He)]; rewrite Hsay in Hrun.
  2: { injection Hrun as <- <-. split; [auto|].
       split; [intros p Hp Hnone; contradiction|].
       split; [intros [=]|].
       intros e' [= <-]. rewrite He. discriminate. }
  destruct (os_remove_cases f (emit w lines))
    as [(data & Hf & Hrm) | (e & Hrm & He)]; rewrite Hrm in Hrun.
  2: { injection Hrun as <- <-. cbn [emit vol]. split; [auto|].
       split; [intros p Hp Hnone; contradiction|].
       split; [intros [=]|].
       intros e' [= <-]. exact He. }
  cbn [emit vol] in Hf.
  destruct (IH _ _ _ Hrun) as (Hsub & Hgone & Hall & Hcls).
  cbn [vol emit] in Hsub, Hgone.
  split; [|split; [|split]].
  - intros p n Hp. apply Hsub in Hp.
    apply lookup_delete_Some in Hp as [_ Hp]. exact Hp.
  - intros p Hp Hnone.
    destruct (decide (f = p)) as [<- | Hne].
    + split; [left | exists data; exact Hf].
    + destruct (Hgone p) as [Hin (data' & Hdata)];
        [rewrite lookup_delete_ne by exact Hne; exact Hp | exact Hnone |].
      split; [right; exact Hin|]. exists data'.
      rewrite lookup_delete_ne in Hdata by exact Hne. exact Hdata.
  - intros Hr p Hp. apply elem_of_cons in Hp as [-> | Hp].
    + destruct (vol w1 !! f) as [n|] eqn:E; [|reflexivity].
      apply Hsub in E. rewrite lookup_delete_eq in E. discriminate.
    + exact (Hall Hr p Hp).
  - exact Hcls.
Qed.

Lemma say_confined verbose s : confined nowhere nowhere (say verbose s).
Proof. destruct verbose; [apply confined_print | apply confined_ret]. Qed.

Lemma inspect_keeps_volume c verbose w :
  (forall args w0, vol (exec c args w0).1 = vol w0) ->
  vol (inspect c verbose w).1 = vol w.
Proof.
  intros Hexec.
  assert (confined nowhere nowhere (inspect c verbose)) as Hkeeps.
  { unfold inspect.
    apply confined_bind; [apply say_confined|]. intros _.
    apply confined_bind; [apply confined_same, Hexec|]. intros queried.
    apply confined_bind; [apply say_confined|]. intros _.
    apply confined_bind; [apply confined_lift|]. intros root.
    apply confined_bind; [apply confined_lift|]. intros driver.
    apply confined_bind; [apply confined_lift|]. intros major.
    apply confined_bind; [apply confined_lift|]. intros _.
    apply confined_bind; [apply say_confined|]. intros _.
    apply confined_bind; [apply confined_lift|]. intros cuda.
    apply confined_bind; [apply confined_lift|]. intros _.
    destruct verbose; [|apply confined_ret].
    apply confined_bind; [apply confined_print|]. intros _.
    apply confined_bind; [apply confined_same, Hexec|]. intros _.
    apply confined_ret. }
  apply map_eq. intros p.
  apply (grows_frame nowhere nowhere _ _ p (Hkeeps w)); unfold nowhere; tauto.
Qed.

Lemma glob_spec c v dir p :
  p ∈ glob c v dir ->
  exists name, p = dir ++ [name] /\ matches name = true
               /\ name ∈ scandir c v dir.
Proof.
  unfold glob. destruct (is_dir v dir); [|intros H; apply elem_of_nil in H;
                                           contradiction].
  intros H. apply list_elem_of_fmap in H as (name & -> & Hname).
  apply list_elem_of_In, filter_In in Hname as [Hin Hm].
  exists name. split; [reflexivity|]. split; [exact Hm|].
  apply list_elem_of_In, Hin.
Qed.

(** X20.  [remove_libcuda] takes away nothing but regular files of the
    directory [/usr/lib/x86_64-linux-gnu] whose name begins with
    [libnvidia-ml]: when the programs it runs leave the files alone, every
    entry that is there afterwards was there before with the same
    content, and every entry that is gone was such a file, listed in the
    directory. *)
Theorem remove_libcuda_frame c verbose w :
  (forall args w0, vol (exec c args w0).1 = vol w0) ->
  let w' := (remove_libcuda c verbose w).1 in
  (forall p n, vol w' !! p = Some n -> vol w !! p = Some n)
  /\ (forall p, vol w !! p <> None -> vol w' !! p = None ->
        exists name data,
          p = [lit "usr"; lit "lib"; lit "x86_64-linux-gnu"; name]
          /\ matches name = true
          /\ name ∈ scandir c (vol w) shared_x86_dir
          /\ vol w !! p = Some (File data)).
Proof.
  intros Hexec w'.
  destruct (for_each (glob c (vol w) shared_x86_dir) (remove_file verbose)
              tt w) as [w1 r] eqn:Hrun.
  destruct (remove_loop verbose _ w w1 r Hrun) as (Hsub & Hgone & _ & _).
  assert (vol w' = vol w1) as Hvol.
  { subst w'. unfold remove_libcuda, mbind at 1, M_bind at 1.
    rewrite Hrun. destruct r as [[]|e]; [|reflexivity].
    apply inspect_keeps_volume, Hexec. }
  rewrite Hvol. split; [exact Hsub|].
  intros p Hp Hnone. destruct (Hgone p Hp Hnone) as [Hin (data & Hdata)].
  apply glob_spec in Hin as (name & -> & Hm & Hname).
  exists name, data. repeat split; assumption.
Qed.

Lemma gpu_container_reads_only :
  forall args w0, vol (exec gpu_container args w0).1 = vol w0.
Proof. intros args w0. reflexivity. Defined.

Lemma remove_libcuda_frame_witness :
  let w' := (remove_libcuda gpu_container true gpu_world).1 in
  (forall p n, vol w' !! p = Some n -> vol gpu_world !! p = Some n)
  /\ (forall p, vol gpu_world !! p <> None -> vol w' !! p = None ->
        exists name data,
          p = [lit "usr"; lit "lib"; lit "x86_64-linux-gnu"; name]
          /\ matches name = true
          /\ name ∈ scandir gpu_container (vol gpu_world) shared_x86_dir
          /\ vol gpu_world !! p = Some (File data)).
Proof.
  exact (remove_libcuda_frame gpu_container true gpu_world
           gpu_container_reads_only).
Defined.

(** X21.  The files are gone before the checks and stay gone: when
    [remove_libcuda] returns, and also when it ends with an
    [AssertionError] because the driver is not 535 or a CUDA version is
    still reported, every file the pattern found has been removed. *)
Theorem remove_libcuda_removes_all c verbose w e :
  (forall args w0, vol (exec c args w0).1 = vol w0) ->
  (remove_libcuda c verbose w).2 = Return tt
  \/ ((remove_libcuda c verbose w).2 = Raise e
      /\ exn_cls e = AssertionError) ->
  forall p,
    p ∈ glob c (vol w) shared_x86_dir ->
    vol (remove_libcuda c verbose w).1 !! p = None.
Proof.
  intros Hexec Hend p Hp.
  destruct (for_each (glob c (vol w) shared_x86_dir) (remove_file verbose)
              tt w) as [w1 r] eqn:Hrun.
  destruct (remove_loop verbose _ w w1 r Hrun) as (_ & _ & Hall & Hcls).
  assert (remove_libcuda c verbose w
          = match r with
            | Return _ => inspect c verbose w1
            | Raise e1 => (w1, Raise e1)
            end) as Hdef.
  { unfold remove_libcuda, mbind at 1, M_bind at 1. rewrite Hrun.
    destruct r as [[]|e1]; reflexivity. }
  rewrite Hdef in Hend |- *. destruct r as [[]|e1].
  - rewrite (inspect_keeps_volume c verbose w1 Hexec).
    exact (Hall eq_refl p Hp).
  - exfalso. cbn [snd] in Hend.
    destruct Hend as [[=] | [[= ->] He]]. exact (Hcls e eq_refl He).
Qed.

Lemma found_by_glob :
  libdir ++ [lit "libnvidia-ml.so.1"]
  ∈ glob gpu_container (vol gpu_world) shared_x86_dir.
Proof. apply list_elem_of_In. vm_compute. left. reflexivity. Defined.

Lemma remove_libcuda_removes_all_witness :
  vol (remove_libcuda gpu_container true gpu_world).1
  !! (libdir ++ [lit "libnvidia-ml.so.1"]) = None.
Proof.
  exact (remove_libcuda_removes_all gpu_container true gpu_world
           Cuda.assertion_error gpu_container_reads_only
           (or_introl eq_refl) _ found_by_glob).
Defined.

End RemoveLibcuda.
